(** * china-merger-filing-database: extraction and reconciliation pipeline

    A shallow embedding of the Python sources (utils.py, parsers.py,
    scraper.py, beijing_scraper.py, shanghai_scraper.py, downloader.py,
    deduplicate_db.py, mainpage_scraper.py) together with the properties
    the specification states about them and further properties of the
    code.

    Conventions.
    - A Python [str] is a list of Unicode code points ([list N]); the
      literals of the sources are written as UTF-8 text and decoded by [u].
    - [None] is [None]; a function that can raise returns a [res].
    - The database table [cases] is a list of rows in rowid order; the
      file system is a finite map from paths to contents. *)

From Stdlib Require Import NArith ZArith List String Ascii Bool Lia.
From stdpp Require Import base decidable option list gmap.
Import ListNotations.

Local Open Scope N_scope.

(** Python strings: sequences of code points. *)
Abbreviation str := (list N).

(* ===================================================================== *)
(** ** Python [str] primitives *)
(* ===================================================================== *)

Module PyStr.

(** Decoding of the UTF-8 bytes of a source literal into code points. *)
Fixpoint utf8_decode (bs : list N) : str :=
  match bs with
  | [] => []
  | b0 :: t0 =>
    if b0 <? 128 then b0 :: utf8_decode t0
    else if b0 <? 224 then
      match t0 with
      | b1 :: t1 => ((b0 - 192) * 64 + (b1 - 128)) :: utf8_decode t1
      | [] => [b0]
      end
    else if b0 <? 240 then
      match t0 with
      | b1 :: b2 :: t2 =>
          ((b0 - 224) * 4096 + (b1 - 128) * 64 + (b2 - 128)) :: utf8_decode t2
      | _ => [b0]
      end
    else
      match t0 with
      | b1 :: b2 :: b3 :: t3 =>
          ((b0 - 240) * 262144 + (b1 - 128) * 4096 + (b2 - 128) * 64 + (b3 - 128))
            :: utf8_decode t3
      | _ => [b0]
      end
  end.

Definition u (s : string) : str :=
  utf8_decode (List.map N_of_ascii (list_ascii_of_string s)).

Arguments u s%_string_scope.

Definition str_eqb (a b : str) : bool := bool_decide (a = b).

(** [s.startswith(p)] *)
Fixpoint startswith (p s : str) : bool :=
  match p, s with
  | [], _ => true
  | _ :: _, [] => false
  | a :: p', b :: s' => (a =? b) && startswith p' s'
  end.

(** [needle in hay] *)
Fixpoint contains (needle hay : str) : bool :=
  startswith needle hay ||
  match hay with
  | [] => false
  | _ :: hay' => contains needle hay'
  end.

(** [s.endswith(p)] *)
Definition endswith (p s : str) : bool := startswith (rev p) (rev s).

(** [s.lower()], on the ASCII letters.  No character outside ASCII
    lower-cases to one of the letters of the extensions tested by the
    sources, so the tests [url.lower().endswith(ext)] are unaffected. *)
Definition lower_cp (c : N) : N :=
  if (65 <=? c) && (c <=? 90) then c + 32 else c.
Definition lower (s : str) : str := List.map lower_cp s.

(** [s.replace(c, new)] for a one-character [c]. *)
Fixpoint replace1 (c : N) (new : str) (s : str) : str :=
  match s with
  | [] => []
  | x :: s' => if x =? c then new ++ replace1 c new s' else x :: replace1 c new s'
  end.

(** Python's [str.isspace] on one character (also the class [\s]). *)
Definition is_space (c : N) : bool :=
  ((9 <=? c) && (c <=? 13)) || ((28 <=? c) && (c <=? 32)) ||
  (c =? 133) || (c =? 160) || (c =? 5760) ||
  ((8192 <=? c) && (c <=? 8202)) || (c =? 8232) || (c =? 8233) ||
  (c =? 8239) || (c =? 8287) || (c =? 12288).

Fixpoint lstrip (s : str) : str :=
  match s with
  | [] => []
  | c :: s' => if is_space c then lstrip s' else s
  end.
Definition rstrip (s : str) : str := rev (lstrip (rev s)).
(** [s.strip()] *)
Definition strip (s : str) : str := rstrip (lstrip s).

(** [s.split(c)] for a one-character separator: always at least one
    field. *)
Fixpoint split_acc (c : N) (cur : str) (s : str) : list str :=
  match s with
  | [] => [rev cur]
  | x :: s' => if x =? c then rev cur :: split_acc c [] s'
               else split_acc c (x :: cur) s'
  end.
Definition split (c : N) (s : str) : list str := split_acc c [] s.

(** [s.split()]: maximal runs of non-whitespace. *)
Fixpoint split_ws_acc (cur : str) (s : str) : list str :=
  match s with
  | [] => match cur with [] => [] | _ => [rev cur] end
  | x :: s' =>
    if is_space x then
      match cur with
      | [] => split_ws_acc [] s'
      | _ => rev cur :: split_ws_acc [] s'
      end
    else split_ws_acc (x :: cur) s'
  end.
Definition split_ws (s : str) : list str := split_ws_acc [] s.

(** [sep.join(parts)] *)
Fixpoint join (sep : str) (parts : list str) : str :=
  match parts with
  | [] => []
  | [p] => p
  | p :: ps => p ++ sep ++ join sep ps
  end.

(** Truthiness of an optional string: [None] and [''] are falsy. *)
Definition truthy (o : option str) : bool :=
  match o with Some (_ :: _) => true | _ => false end.

(** [d.get(k, default)] on a dict literal (insertion order, unique keys).
    The key may be [None], which no literal of the sources has as key. *)
Fixpoint dict_find {V} (d : list (str * V)) (k : str) : option V :=
  match d with
  | [] => None
  | (k', v) :: d' => if str_eqb k' k then Some v else dict_find d' k
  end.
Definition dict_get {V} (d : list (str * V)) (k : option str) (default : V) : V :=
  match k with
  | None => default
  | Some k => match dict_find d k with Some v => v | None => default end
  end.

End PyStr.
Import PyStr.

(* ===================================================================== *)
(** ** utils.py: PageTypeIdentifier; scraper.py: CaseScraper.get_page_type *)
(* ===================================================================== *)

Module PageTypeIdentifier.

Definition REGION_MAP : list (str * str) :=
  [ (u "samr", u "总局");
    (u "beijing", u "北京");
    (u "chongqing", u "重庆");
    (u "shanghai", u "上海");
    (u "guangdong", u "广东");
    (u "shaanxi", u "陕西") ].

Definition identify_page_type (url : str) : option str :=
  if contains (u "samr.gov.cn") url then Some (u "samr")
  else if contains (u "scjgj.beijing.gov.cn") url then Some (u "beijing")
  else if contains (u "scjgj.cq.gov.cn") url then Some (u "chongqing")
  else if contains (u "scjgj.sh.gov.cn") url then Some (u "shanghai")
  else if contains (u "amr.gd.gov.cn") url then Some (u "guangdong")
  else if contains (u "snamr.shaanxi.gov.cn") url then Some (u "shaanxi")
  else None.

Definition get_region (page_type : option str) : str :=
  dict_get REGION_MAP page_type (u "未知").

(** The resolver as the specification words it: an ordered list of
    domain-substring rules, the first matching rule decides. *)
Definition RULES : list (str * str) :=
  [ (u "samr.gov.cn", u "samr");
    (u "scjgj.beijing.gov.cn", u "beijing");
    (u "scjgj.cq.gov.cn", u "chongqing");
    (u "scjgj.sh.gov.cn", u "shanghai");
    (u "amr.gd.gov.cn", u "guangdong");
    (u "snamr.shaanxi.gov.cn", u "shaanxi") ].

Fixpoint first_match (rules : list (str * str)) (url : str) : option str :=
  match rules with
  | [] => None
  | (domain, page_type) :: rules' =>
      if contains domain url then Some page_type else first_match rules' url
  end.

(** The fixed enumeration of source identifiers. *)
Definition SOURCE_IDS : list str := List.map snd RULES.

End PageTypeIdentifier.

Module CaseScraperResolver.

Definition domain_map : list (str * str) :=
  [ (u "scjgj.beijing.gov.cn", u "beijing");
    (u "scjgj.sh.gov.cn", u "shanghai");
    (u "scjgj.cq.gov.cn", u "chongqing");
    (u "amr.gd.gov.cn", u "guangdong");
    (u "scjgj.shaanxi.gov.cn", u "shaanxi");
    (u "samr.gov.cn", u "samr") ].

(** [for domain, page_type in domain_map.items(): if domain in url: return page_type] *)
Fixpoint scan (items : list (str * str)) (url : str) : option str :=
  match items with
  | [] => None
  | (domain, page_type) :: items' =>
      if contains domain url then Some page_type else scan items' url
  end.

Definition get_page_type (url : str) : option str := scan domain_map url.

Definition region_map : list (str * str) :=
  [ (u "beijing", u "北京");
    (u "shanghai", u "上海");
    (u "chongqing", u "重庆");
    (u "guangdong", u "广东");
    (u "shaanxi", u "陕西");
    (u "samr", u "国家市场监督管理总局") ].

Definition get_region_name (page_type : option str) : str :=
  dict_get region_map page_type (u "未知").

End CaseScraperResolver.

(* ===================================================================== *)
(** ** Python [re]: a backtracking matcher with capture groups *)
(* ===================================================================== *)

Module Re.

(** The fragment of the pattern language the sources use.  Matching is
    Python's: leftmost start, alternatives and greedy repetitions tried
    in priority order, with backtracking. *)
Inductive re : Type :=
| Eps : re
| Cls : (N -> bool) -> re          (* one character of a class *)
| Cat : re -> re -> re
| Alt : re -> re -> re             (* a|b *)
| Opt : re -> re                   (* a?  *)
| Star : re -> re                  (* a*  *)
| Grp : nat -> re -> re.           (* the n-th parenthesis *)

(** Captures: group number to captured text, latest first. *)
Definition caps := list (nat * str).

Fixpoint group (c : caps) (n : nat) : option str :=
  match c with
  | [] => None
  | (i, s) :: c' => if Nat.eqb i n then Some s else group c' n
  end.

(** [mt r s c k]: match [r] at the head of [s], then continue with [k]
    on the rest; [None] makes the matcher backtrack. *)
Fixpoint mt {R} (r : re) (s : str) (c : caps)
         (k : str -> caps -> option R) : option R :=
  match r with
  | Eps => k s c
  | Cls p => match s with
             | x :: s' => if p x then k s' c else None
             | [] => None
             end
  | Cat a b => mt a s c (fun s' c' => mt b s' c' k)
  | Alt a b => match mt a s c k with
               | Some v => Some v
               | None => mt b s c k
               end
  | Opt a => match mt a s c k with
             | Some v => Some v
             | None => k s c
             end
  | Star a =>
      (fix loop (n : nat) (s : str) (c : caps) {struct n} : option R :=
         match n with
         | O => k s c
         | S n' =>
           match mt a s c (fun s' c' =>
                   if (length s' <? length s)%nat then loop n' s' c' else None) with
           | Some v => Some v
           | None => k s c
           end
         end) (length s) s c
  | Grp i a =>
      mt a s c (fun s' c' =>
        k s' ((i, firstn (length s - length s') s) :: c'))
  end.

(** [re.match(r, s)]: the captures and the unmatched rest. *)
Definition match_ (r : re) (s : str) : option (caps * str) :=
  mt r s [] (fun s' c => Some (c, s')).

(** [re.search(r, s)]: the first position where [r] matches. *)
Fixpoint search (r : re) (s : str) : option caps :=
  match match_ r s with
  | Some (c, _) => Some c
  | None => match s with
            | [] => None
            | _ :: s' => search r s'
            end
  end.

(** Derived forms. *)
Definition chr (c : N) : re := Cls (N.eqb c).
Definition one_of (cs : str) : re := Cls (fun x => existsb (N.eqb x) cs).
(** [\d], on the ASCII digits; Python's class also holds the other
    Unicode decimal digits, which the model leaves out. *)
Definition is_digit (c : N) : bool := (48 <=? c) && (c <=? 57).
Definition digit : re := Cls is_digit.
Definition range (lo hi : N) : re := Cls (fun x => (lo <=? x) && (x <=? hi)).
Definition ws : re := Cls is_space.
(** [.] (no DOTALL) *)
Definition dot : re := Cls (fun x => negb (x =? 10)).
(** [a{n}] and [a{0,n}] (greedy); [a{lo,hi}] is [a{lo}] then [a{0,hi-lo}]. *)
Fixpoint rep_exact (a : re) (n : nat) : re :=
  match n with
  | O => Eps
  | S n' => Cat a (rep_exact a n')
  end.
Fixpoint rep_upto (a : re) (n : nat) : re :=
  match n with
  | O => Eps
  | S n' => Opt (Cat a (rep_upto a n'))
  end.
Definition rep (a : re) (lo hi : nat) : re :=
  Cat (rep_exact a lo) (rep_upto a (hi - lo)).
Fixpoint lit (s : str) : re :=
  match s with
  | [] => Eps
  | x :: s' => Cat (chr x) (lit s')
  end.
Fixpoint seq (rs : list re) : re :=
  match rs with
  | [] => Eps
  | r :: rs' => Cat r (seq rs')
  end.

End Re.

(* ===================================================================== *)
(** ** datetime: the parts of [strptime] and [strftime] the sources use *)
(* ===================================================================== *)

Module Datetime.
Import Re.

Record datetime : Type := mkdt
  { year : N; month : N; day : N; hour : N; minute : N; second : N }.

#[global] Instance datetime_eq_dec : EqDecision datetime.
Proof. solve_decision. Defined.

Definition is_leap (y : N) : bool :=
  (y mod 4 =? 0) && (negb (y mod 100 =? 0) || (y mod 400 =? 0)).

Definition days_in_month (y m : N) : N :=
  if m =? 2 then (if is_leap y then 29 else 28)
  else if (m =? 4) || (m =? 6) || (m =? 9) || (m =? 11) then 30
  else 31.

(** The constructor [datetime(y, m, d, H, M, S)]; [None] is ValueError. *)
Definition make (y m d H M S : N) : option datetime :=
  if (1 <=? y) && (y <=? 9999) && (1 <=? m) && (m <=? 12) &&
     (1 <=? d) && (d <=? days_in_month y m) &&
     (H <=? 23) && (M <=? 59) && (S <=? 59)
  then Some (mkdt y m d H M S) else None.

(** [int(s)] for a run of ASCII digits, possibly after blanks. *)
Fixpoint int_acc (acc : N) (s : str) : N :=
  match s with
  | [] => acc
  | x :: s' => if is_digit x then int_acc (acc * 10 + (x - 48)) s'
               else int_acc acc s'
  end.
Definition int (s : str) : N := int_acc 0 s.

(** Directive patterns of Lib/_strptime.py. *)
Definition dY : re := Grp 1 (rep_exact digit 4).
Definition dm : re :=
  Grp 2 (Alt (Cat (chr 49) (range 48 50))
        (Alt (Cat (chr 48) (range 49 57)) (range 49 57))).
Definition dd : re :=
  Grp 3 (Alt (Cat (chr 51) (range 48 49))
        (Alt (Cat (range 49 50) digit)
        (Alt (Cat (chr 48) (range 49 57))
        (Alt (range 49 57) (Cat (chr 32) (range 49 57)))))).
Definition dH : re :=
  Grp 4 (Alt (Cat (chr 50) (range 48 51))
        (Alt (Cat (range 48 49) digit) digit)).
Definition dM : re := Grp 5 (Alt (Cat (range 48 53) digit) digit).
Definition dS : re :=
  Grp 6 (Alt (Cat (chr 54) (range 48 49))
        (Alt (Cat (range 48 53) digit) digit)).

Inductive format : Type :=
| F_Y_m_d          (* '%Y-%m-%d' *)
| F_Y_m_d_H_M_S    (* '%Y-%m-%d %H:%M:%S' *)
| F_Ymd.           (* '%Y%m%d' *)

Definition format_regex (f : format) : re :=
  match f with
  | F_Y_m_d => seq [dY; chr 45; dm; chr 45; dd]
  | F_Y_m_d_H_M_S =>
      seq [dY; chr 45; dm; chr 45; dd; ws; Star ws; dH; chr 58; dM; chr 58; dS]
  | F_Ymd => seq [dY; dm; dd]
  end.

Definition field (c : caps) (n : nat) : N :=
  match group c n with Some s => int s | None => 0 end.

(** [datetime.strptime(s, f)]; [None] is ValueError (no match,
    unconverted data, or a date that does not exist). *)
Definition strptime (s : str) (f : format) : option datetime :=
  match match_ (format_regex f) s with
  | Some (c, []) =>
      make (field c 1) (field c 2) (field c 3) (field c 4) (field c 5) (field c 6)
  | _ => None
  end.

(** Decimal digits of [n], zero-padded to [w] places. *)
Fixpoint digits (w : nat) (n : N) : str :=
  match w with
  | O => []
  | S w' => digits w' (n / 10) ++ [48 + n mod 10]
  end.

(** [d.strftime('%Y-%m-%d')] *)
Definition strftime_Y_m_d (d : datetime) : str :=
  digits 4 (year d) ++ [45] ++ digits 2 (month d) ++ [45] ++ digits 2 (day d).

End Datetime.

(* ===================================================================== *)
(** ** utils.py: DateParser *)
(* ===================================================================== *)

Module DateParser.
Import Datetime.

Definition NIAN : N := 24180. (* 年 *)
Definition YUE : N := 26376.  (* 月 *)
Definition RI : N := 26085.   (* 日 *)
Definition ZHI : N := 33267.  (* 至 *)

Definition formats : list format := [F_Y_m_d; F_Y_m_d_H_M_S; F_Ymd].

(** [for fmt in formats: try: return strptime(...) except ValueError: continue] *)
Fixpoint try_formats (s : str) (fs : list format) : option datetime :=
  match fs with
  | [] => None
  | f :: fs' => match strptime s f with
                | Some d => Some d
                | None => try_formats s fs'
                end
  end.

Definition parse_date_string (date_str : str) : option datetime :=
  let date_str := strip date_str in
  let date_str := replace1 RI [] (replace1 YUE [45] (replace1 NIAN [45] date_str)) in
  try_formats date_str formats.

(** [extract_date_range(text, pattern=None)].  With a pattern that does
    not match, [date_range] is unbound and the NameError is swallowed by
    the handler; so is the ValueError of unpacking a split that has not
    exactly two fields. *)
Definition extract_date_range (text : str) (pattern : option Re.re)
  : option datetime * option datetime :=
  let date_range :=
    match pattern with
    | Some p => match Re.search p text with
                | Some c => Re.group c 1
                | None => None
                end
    | None => Some text
    end in
  match date_range with
  | None => (None, None)
  | Some date_range =>
    if contains [ZHI] date_range then
      match split ZHI date_range with
      | [start_date; end_date] =>
          (parse_date_string (strip start_date), parse_date_string (strip end_date))
      | _ => (None, None)
      end
    else (None, None)
  end.

End DateParser.

(* ===================================================================== *)
(** ** parsers.py: BaseParser (dates) *)
(* ===================================================================== *)

Module BaseParserDates.
Import Re Datetime DateParser.

Definition DAO : N := 21040.  (* 到 *)

(** [\d{4}[..]\d{1,2}[..]\d{1,2}[日]?] with the two separator classes. *)
Definition ymd (sep_y sep_m : str) : re :=
  seq [rep_exact digit 4; one_of sep_y; rep digit 1 2; one_of sep_m;
       rep digit 1 2; Opt (chr RI)].
(** [\d{1,2}[.月]\d{1,2}[日]?] *)
Definition md : re :=
  seq [rep digit 1 2; one_of [46; YUE]; rep digit 1 2; Opt (chr RI)].

Definition between (a : re) (seps : str) (b : re) : re :=
  seq [Grp 1 a; Star ws; one_of seps; Star ws; Grp 2 b].

Definition patterns : list re :=
  [ between (ymd [45; NIAN] [45; YUE]) [ZHI; DAO; 45] (ymd [45; NIAN] [45; YUE]);
    between (ymd [46; NIAN] [46; YUE]) [45; ZHI] (ymd [46; NIAN] [46; YUE]);
    between (ymd [46; NIAN] [46; YUE]) [45; ZHI] md;
    Cat (lit (u "公示期限："))
        (Cat (Star ws)
             (between (ymd [NIAN; 45] [YUE; 45]) [45; ZHI] (ymd [NIAN; 45] [YUE; 45])));
    Cat (one_of (u "（("))
        (Cat (between (ymd [46; NIAN] [46; YUE]) [45; ZHI] (ymd [46; NIAN] [46; YUE]))
             (one_of (u ")）"))) ].

Definition unify (s : str) : str :=
  replace1 46 [45] (replace1 RI [] (replace1 YUE [45] (replace1 NIAN [45] s))).

Definition head_field (s : str) : str :=
  match split 46 s with f :: _ => f | [] => [] end.

(** One round of the loop body after a match: [None] is the exception
    that makes the loop [continue]. *)
Definition convert (start_date end_date : str) : option (str * str) :=
  let end_date :=
    if (length (head_field end_date) <=? 2)%nat
    then head_field start_date ++ [46] ++ end_date
    else end_date in
  match strptime (unify start_date) F_Y_m_d with
  | None => None
  | Some s =>
    match strptime (unify end_date) F_Y_m_d with
    | None => None
    | Some e => Some (strftime_Y_m_d s, strftime_Y_m_d e)
    end
  end.

Fixpoint try_patterns (text : str) (ps : list re) : option str * option str :=
  match ps with
  | [] => (None, None)
  | p :: ps' =>
    match search p text with
    | Some c =>
      match group c 1, group c 2 with
      | Some start_date, Some end_date =>
        match convert start_date end_date with
        | Some (s, e) => (Some s, Some e)
        | None => try_patterns text ps'
        end
      | _, _ => try_patterns text ps'
      end
    | None => try_patterns text ps'
    end
  end.

Definition extract_date_range (text : option str) : option str * option str :=
  if truthy text then
    match text with
    | Some text => try_patterns (join [32] (split_ws text)) patterns
    | None => (None, None)
    end
  else (None, None).

Definition normalize_date (date_str : option str) : option str :=
  if truthy date_str then
    match date_str with
    | Some date_str =>
      let date_str := strip date_str in
      let date_str := replace1 RI [] (replace1 YUE [45] (replace1 NIAN [45] date_str)) in
      let date_str := replace1 47 [45] (replace1 46 [45] date_str) in
      match strptime date_str F_Y_m_d with
      | Some d => Some (strftime_Y_m_d d)
      | None => None
      end
    | None => None
    end
  else None.

End BaseParserDates.

(* ===================================================================== *)
(** ** Exceptions *)
(* ===================================================================== *)

(** The outcome of a call that may raise. *)
Inductive res (A : Type) : Type :=
| Ret : A -> res A
| Raise : res A.
Arguments Ret {A} _.
Arguments Raise {A}.

(* ===================================================================== *)
(** ** parsers.py: BaseParser.parse and ShanghaiParser *)
(* ===================================================================== *)

Module BaseParser.

(** The dict [parse] returns. *)
Record result (D : Type) : Type := mkresult
  { case_name : str;
    notice_start_date : option D;
    notice_end_date : option D;
    attachment_url : option str }.
Arguments mkresult {D} _ _ _ _.

(** The three methods a parser class supplies.  [BaseParser] itself
    raises NotImplementedError in each. *)
Class Parser (Soup D : Type) : Type :=
  { get_title : Soup -> res (option str);
    get_date_range : Soup -> res (option D * option D);
    get_attachment_url : Soup -> res (option str) }.

Definition parse {Soup D} `{Parser Soup D} (soup : Soup) : option (result D) :=
  match get_title soup with
  | Raise => None                         (* except Exception *)
  | Ret title =>
    match title with
    | Some ((_ :: _) as title) =>
      match get_date_range soup with
      | Raise => None
      | Ret (start_date, end_date) =>     (* an incomplete range is only logged *)
        match get_attachment_url soup with
        | Raise => None
        | Ret attachment_url =>
            Some (mkresult title start_date end_date attachment_url)
        end
      end
    | _ => None                           (* raise ParserException *)
    end
  end.

#[local] Instance abstract_base (Soup D : Type) : Parser Soup D :=
  { get_title := fun _ => Raise;
    get_date_range := fun _ => Raise;
    get_attachment_url := fun _ => Raise }.

End BaseParser.

Module ShanghaiParser.
Import Re Datetime DateParser BaseParser.

(** What the methods read off the parsed page: the tags they look up
    (absent tag: [None]) and the outcome of the attachment-link scan,
    whose [urljoin] raises on a malformed href. *)
Record soup : Type := mksoup
  { meta_ArticleTitle_content : option str;  (* content of <meta name=ArticleTitle> *)
    div_ivs_title_text : option str;
    h1_text : option str;
    div_ivs_content_text : option str;
    attachment_scan : res (option str) }.

Definition sh_get_title (s : soup) : option str :=
  match meta_ArticleTitle_content s with
  | Some ((_ :: _) as c) => Some c
  | _ =>
    match div_ivs_title_text s with
    | Some t => Some (strip t)
    | None =>
      match h1_text s with
      | Some t => Some (strip t)
      | None => None
      end
    end
  end.

Definition num (i : nat) (lo hi : nat) : re := Grp i (rep digit lo hi).

(** [公示期：(\d{4})年(\d{1,2})月(\d{1,2})日至(\d{4})年(\d{1,2})月(\d{1,2})日] *)
Definition date_pattern : re :=
  seq [lit (u "公示期："); num 1 4 4; chr NIAN; num 2 1 2; chr YUE; num 3 1 2;
       chr RI; chr ZHI; num 4 4 4; chr NIAN; num 5 1 2; chr YUE; num 6 1 2;
       chr RI].

Definition grp (c : caps) (i : nat) : str :=
  match group c i with Some s => s | None => [] end.

(** [f"{y}-{int(m):02d}-{int(d):02d}"] *)
Definition fmt (y m d : str) : str :=
  y ++ [45] ++ digits 2 (int m) ++ [45] ++ digits 2 (int d).

Definition sh_get_date_range (s : soup) : option str * option str :=
  match div_ivs_content_text s with
  | None => (None, None)
  | Some text =>
    match search date_pattern text with
    | Some c => (Some (fmt (grp c 1) (grp c 2) (grp c 3)),
                 Some (fmt (grp c 4) (grp c 5) (grp c 6)))
    | None => (None, None)
    end
  end.

#[global] Instance shanghai : Parser soup str :=
  { get_title := fun s => Ret (sh_get_title s);
    get_date_range := fun s => Ret (sh_get_date_range s);
    get_attachment_url := attachment_scan }.

End ShanghaiParser.

(* ===================================================================== *)
(** ** models.py: the table [cases] *)
(* ===================================================================== *)

Module Store.

(** One row.  [id] is the INTEGER PRIMARY KEY, hence SQLite's rowid.
    [D] is the type of the values of the two DateTime columns. *)
Record Case (D : Type) : Type := mkCase
  { id : N;
    case_name : option str;
    notice_start_date : option D;
    notice_end_date : option D;
    source_url : option str;
    region : option str;
    attachment_path : option str;
    created_at : option N }.
Arguments mkCase {D} _ _ _ _ _ _ _ _.
Arguments id {D} _.
Arguments case_name {D} _.
Arguments notice_start_date {D} _.
Arguments notice_end_date {D} _.
Arguments source_url {D} _.
Arguments region {D} _.
Arguments attachment_path {D} _.
Arguments created_at {D} _.

(** The rowid SQLite gives to the next inserted row. *)
Definition next_id {D} (db : list (Case D)) : N :=
  fold_right (fun r m => N.max (id r) m) 0 db + 1.

(** [case_name = :name] in SQL, and [filter_by(case_name=name)]: NULL
    equals nothing. *)
Definition name_is {D} (name : option str) (r : Case D) : bool :=
  match name, case_name r with
  | Some n, Some m => str_eqb n m
  | _, _ => false
  end.

(** [.first()] *)
Definition first_by_name {D} (name : option str) (db : list (Case D))
  : option (Case D) := List.find (name_is name) db.

(** Committing the changed ORM object [r'] of the row [.first()] returned:
    the UPDATE goes through the primary key, which identifies that row
    and no other. *)
Fixpoint write_back {D} (p : Case D -> bool) (r' : Case D) (db : list (Case D))
  : list (Case D) :=
  match db with
  | [] => []
  | r :: db' => if p r then r' :: db' else r :: write_back p r' db'
  end.

End Store.

(* ===================================================================== *)
(** ** scraper.py: CaseScraper.save_to_db *)
(* ===================================================================== *)

Module CaseScraperStore.
Import Store.

(** A key of the dict [case_data]: absent, or present with a value that
    may be [None]. *)
Inductive entry (A : Type) : Type :=
| Absent : entry A
| Present : option A -> entry A.
Arguments Absent {A}.
Arguments Present {A} _.

(** [d.get(key, default)] *)
Definition get {A} (e : entry A) (default : option A) : option A :=
  match e with Absent => default | Present v => v end.

Record case_data (D : Type) : Type := mkdata
  { cd_title : entry str;
    cd_case_name : entry str;
    cd_url : entry str;
    cd_source_url : entry str;
    cd_attachment_path : entry str;
    cd_region : entry str;
    cd_notice_start_date : entry D;
    cd_notice_end_date : entry D }.
Arguments mkdata {D} _ _ _ _ _ _ _ _.
Arguments cd_title {D} _.
Arguments cd_case_name {D} _.
Arguments cd_url {D} _.
Arguments cd_source_url {D} _.
Arguments cd_attachment_path {D} _.
Arguments cd_region {D} _.
Arguments cd_notice_start_date {D} _.
Arguments cd_notice_end_date {D} _.

Section SaveToDb.
Context {D : Type}.

(** [CASE WHEN col IS NULL AND :v IS NOT NULL THEN :v ELSE col END] *)
Definition fill_null {A} (col v : option A) : option A :=
  match col, v with
  | None, Some x => Some x
  | _, _ => col
  end.

(** [CASE WHEN (region IS NULL OR region = '') AND :region != ''
     THEN :region ELSE region END]; with [:region] NULL the comparison
    is NULL and the ELSE branch is taken. *)
Definition fill_region (col v : option str) : option str :=
  match col, v with
  | None, Some ((_ :: _) as x) => Some x
  | Some [], Some ((_ :: _) as x) => Some x
  | _, _ => col
  end.

(** [session_ok = false]: an [execute] or the [commit] raises, the
    handler rolls back and returns False.  The statements are raw SQL
    with the values of the dict bound as they are.  The two date columns
    are declared DateTime, to which SQLite gives NUMERIC affinity: a bound
    text that reads as a number is stored as that number.  This conversion
    is not computed here: a date value of the dict stands for the value
    as the column holds it once bound.  The conversion keeps NULL and
    non-NULL apart, which is all the CASE expressions test. *)
Definition save_to_db (session_ok : bool) (now : N)
           (db : list (Case D)) (cd : case_data D) : list (Case D) * bool :=
  let db_case_name := get (cd_title cd) (get (cd_case_name cd) None) in
  let db_source_url := get (cd_url cd) (get (cd_source_url cd) None) in
  let db_attachment_path := get (cd_attachment_path cd) None in
  let db_region := get (cd_region cd) (Some []) in
  let db_start := get (cd_notice_start_date cd) None in
  let db_end := get (cd_notice_end_date cd) None in
  let db' :=
    if existsb (name_is db_case_name) db then
      List.map (fun r =>
        if name_is db_case_name r then
          mkCase (id r) (case_name r)
                 (fill_null (notice_start_date r) db_start)
                 (fill_null (notice_end_date r) db_end)
                 (source_url r)
                 (fill_region (region r) db_region)
                 (attachment_path r) (created_at r)
        else r) db
    else
      db ++ [mkCase (next_id db) db_case_name db_start db_end db_source_url
                    db_region db_attachment_path (Some now)] in
  if session_ok then (db', true) else (db, false).

End SaveToDb.

End CaseScraperStore.

(* ===================================================================== *)
(** ** Files and the network *)
(* ===================================================================== *)

Module Env.

(** What a GET of a URL gives: no answer at all, or a status, the
    Content-Length header (0 when missing), the chunks that arrive, and
    whether the connection breaks after them (reading on then raises). *)
Inductive response : Type :=
| Unreachable : response
| Resp (status : N) (content_length : N) (chunks : list (list N)) (broken : bool)
  : response.

(** The files (path to bytes) and the log of GET requests issued. *)
Record world : Type := mkworld
  { files : gmap (list N) (list N);
    requests : list str }.

(** The surroundings of a download: the servers, whether a write to
    disk succeeds, whether [os.makedirs(d, exist_ok=True)] returns
    normally for a directory [d], and whether [open(p, 'wb')] succeeds for
    a path [p] (its directory is there and can be written to). *)
Record env : Type := mkenv
  { net : str -> response;
    disk_ok : bool;
    dir_ok : str -> bool;
    open_ok : str -> bool }.

(** [os.path.exists(p)] *)
Definition exists_ (w : world) (p : str) : bool :=
  bool_decide (is_Some (files w !! p)).

(** [open(p, 'wb')]: the file is created or truncated. *)
Definition open_wb (w : world) (p : str) : world :=
  mkworld (<[p := []]> (files w)) (requests w).

(** [f.write(b)] on the file opened at [p]. *)
Definition write (w : world) (p : str) (b : list N) : world :=
  mkworld (<[p := default [] (files w !! p) ++ b]> (files w)) (requests w).

(** [os.remove(p)], taken to succeed. *)
Definition remove (w : world) (p : str) : world :=
  mkworld (delete p (files w)) (requests w).

(** Issuing the request. *)
Definition get (e : env) (w : world) (url : str) : world * response :=
  (mkworld (files w) (requests w ++ [url]), net e url).

(** [os.path.join(a, b)] (POSIX). *)
Definition path_join (a b : str) : str :=
  match b with
  | 47 :: _ => b
  | _ => match a with
         | [] => b
         | _ => if endswith [47] a then a ++ b else a ++ [47] ++ b
         end
  end.

(** [os.path.dirname(p)] (POSIX): the part up to the last slash, without
    its trailing slashes unless it consists of slashes only. *)
Fixpoint from_slash (r : str) : str :=
  match r with
  | [] => []
  | x :: r' => if x =? 47 then r else from_slash r'
  end.
Fixpoint drop_slashes (r : str) : str :=
  match r with
  | 47 :: r' => drop_slashes r'
  | _ => r
  end.
Definition dirname (p : str) : str :=
  let head := from_slash (rev p) in      (* the head, reversed *)
  if forallb (N.eqb 47) head then rev head else rev (drop_slashes head).

(** [os.makedirs(d, exist_ok=True)]: [false] when it raises, as it always
    does for the empty path. *)
Definition makedirs (e : env) (d : str) : bool :=
  negb (bool_decide (d = [])) && dir_ok e d.

(** [raise_for_status()] raises on 4xx and 5xx. *)
Definition status_raises (status : N) : bool :=
  (400 <=? status) && (status <? 600).

End Env.

(* ===================================================================== *)
(** ** The attachment fetchers *)
(* ===================================================================== *)

Module Fetch.
Import Env.

(** [for chunk in response.iter_content(...): if chunk: f.write(chunk)];
    [false] when a write raises. *)
Fixpoint write_chunks (e : env) (w : world) (p : str) (chunks : list (list N))
  : world * bool :=
  match chunks with
  | [] => (w, true)
  | [] :: cs => write_chunks e w p cs
  | c :: cs => if disk_ok e then write_chunks e (write w p c) p cs else (w, false)
  end.

(** The handler of the two regional scrapers:
    [if os.path.exists(save_path): os.remove(save_path)]. *)
Definition cleanup (w : world) (save_path : str) : world :=
  if exists_ w save_path then remove w save_path else w.

(** beijing_scraper.py: BeijingScraper.download_attachment *)
Definition beijing_download_attachment (e : env) (w : world) (url save_path : str)
  : world * bool :=
  if negb (makedirs e (dirname save_path)) then (cleanup w save_path, false)
  else
    let (w, r) := get e w url in
    match r with
    | Unreachable => (cleanup w save_path, false)
    | Resp status total_size chunks broken =>
      if status_raises status then (cleanup w save_path, false)
      else if negb (open_ok e save_path) then (cleanup w save_path, false)
      else
        let w := open_wb w save_path in
        if total_size =? 0 then
          (* f.write(response.content) *)
          if broken then (cleanup w save_path, false)
          else if disk_ok e then (write w save_path (concat chunks), true)
          else (cleanup w save_path, false)
        else
          match write_chunks e w save_path chunks with
          | (w, false) => (cleanup w save_path, false)
          | (w, true) => if broken then (cleanup w save_path, false) else (w, true)
          end
    end.

(** shanghai_scraper.py: ShanghaiScraper.download_attachment *)
Definition shanghai_download_attachment (e : env) (w : world) (url save_path : str)
  : world * bool :=
  if exists_ w save_path then (w, true)
  else if negb (makedirs e (dirname save_path)) then (cleanup w save_path, false)
  else
    let (w, r) := get e w url in
    match r with
    | Unreachable => (cleanup w save_path, false)
    | Resp status _ chunks broken =>
      if status_raises status then (cleanup w save_path, false)
      else if negb (open_ok e save_path) then (cleanup w save_path, false)
      else
        let w := open_wb w save_path in
        match write_chunks e w save_path chunks with
        | (w, false) => (cleanup w save_path, false)
        | (w, true) => if broken then (cleanup w save_path, false) else (w, true)
        end
    end.

(** scraper.py: CaseScraper.download_attachment.  [download_path] is the
    directory data/attachments next to the sources, which the constructor
    of the scraper has created; the [os.makedirs] on it is taken to
    succeed. *)
Definition illegal_chars : str := [92; 47; 58; 42; 63; 34; 60; 62; 124; 32].

Definition safe_title (case_name : str) : str :=
  let t := fold_left (fun t c => replace1 c [] t) illegal_chars case_name in
  let t := strip t in
  if (100 <? length t)%nat then firstn 97 t ++ u "..." else t.

Definition file_ext (url : str) : str :=
  if endswith (u ".docx") (lower url) then u ".docx"
  else if endswith (u ".pdf") (lower url) then u ".pdf"
  else u ".doc".

Definition file_name (url case_name : str) : str :=
  safe_title case_name ++ file_ext url.

Definition casescraper_download_attachment (download_path : str)
           (e : env) (w : world) (url case_name : str) : world * option str :=
  let file_name := file_name url case_name in
  let file_path := path_join download_path file_name in
  if exists_ w file_path then (w, Some file_name)
  else
    (* the [while os.path.exists(file_path)] loop that follows in the
       source is never entered: the test has just failed *)
    let (w, r) := get e w url in
    match r with
    | Unreachable => (w, None)
    | Resp status _ chunks broken =>
      if status =? 200 then
        if negb (open_ok e file_path) then (w, None)
        else
          let w := open_wb w file_path in
          (* f.write(await response.read()) *)
          if broken then (w, None)
          else if disk_ok e then (write w file_path (concat chunks), Some file_name)
          else (w, None)
      else (w, None)
    end.

(** downloader.py: AttachmentDownloader.download_attachment.  The GET
    does not stream: a broken transfer raises inside [session.get].  Only
    [download_dir] is created; the file is opened at [file_path]. *)
Definition downloader_download_attachment (DOWNLOAD_PATH : str)
           (e : env) (w : world) (url : option str) (case_name region : str)
  : world * option str :=
  match url with
  | Some ((_ :: _) as url) =>
    let download_dir := path_join DOWNLOAD_PATH region in
    if negb (makedirs e download_dir) then (w, None)
    else
      let file_path := path_join download_dir (case_name ++ u ".doc") in
      let (w, r) := get e w url in
      match r with
      | Unreachable => (w, None)
      | Resp status _ chunks broken =>
        if broken then (w, None)
        else if status =? 200 then
          if negb (open_ok e file_path) then (w, None)
          else
            let w := open_wb w file_path in
            if disk_ok e then (write w file_path (concat chunks), Some file_path)
            else (w, None)
        else (w, None)
      end
  | _ => (w, None)
  end.

End Fetch.

(* ===================================================================== *)
(** ** The per-case reconcilers *)
(* ===================================================================== *)

Module Reconcile.
Import Store Env Fetch Datetime.

(** The case store together with the files. *)
Record state (D : Type) : Type := mkstate
  { db : list (Case D);
    world_ : world }.
Arguments mkstate {D} _ _.
Arguments db {D} _.
Arguments world_ {D} _.

(** What [parse_detail_page] of the regional scrapers returns. *)
Record detail : Type := mkdetail
  { start_date : option datetime;
    end_date : option datetime;
    attachment_url : option str;
    attachment_name : option str }.

(** The surroundings of one [process_case]: the downloads, the outcome of
    fetching and parsing a detail page, whether the commit succeeds, the
    attachment directory and the clock. *)
Record ctx : Type := mkctx
  { dl : env;
    parse_detail_page : str -> option detail;
    commit_ok : bool;
    attachment_dir : str;
    now : N }.

Definition BEIJING : str := u "北京".
Definition SHANGHAI : str := u "上海".

(** Truthiness of a DateTime attribute: [None] is falsy, every datetime
    is truthy. *)
Definition set_ {A} (o : option A) : bool :=
  match o with Some _ => true | None => false end.

(** [x != 'label'] on an ORM attribute. *)
Definition differs (x : option str) (label : str) : bool :=
  negb (bool_decide (x = Some label)).

(** [url.split('.')[-1].lower()] *)
Definition last_field (url : str) : str :=
  lower (List.last (split 46 url) []).

(** [re.sub] of each of the nine characters illegal in Windows file
    names (backslash, slash, colon, star, question mark, double quote,
    angle brackets, bar) by an underscore. *)
Definition sub_illegal (name : str) : str :=
  List.map (fun c => if existsb (N.eqb c) [92; 47; 58; 42; 63; 34; 60; 62; 124]
                     then 95 else c) name.

(** beijing_scraper.py: BeijingScraper.process_case *)
Definition beijing_process_case (c : ctx) (st : state datetime)
           (case_title case_url : str) : state datetime * bool :=
  let existing_case := first_by_name (Some case_title) (db st) in
  match parse_detail_page c case_url with
  | None => (st, false)
  | Some detail_data =>
    let '(w, new_path) :=
      match attachment_url detail_data with
      | Some ((_ :: _) as aurl) =>
        let file_name := sub_illegal (case_title ++ [46] ++ last_field aurl) in
        let save_path := path_join (attachment_dir c) file_name in
        if exists_ (world_ st) save_path
        then (world_ st, Some save_path)
        else (* the outcome of the download is not looked at *)
             (fst (beijing_download_attachment (dl c) (world_ st) aurl save_path),
              Some save_path)
      | _ => (world_ st, None)
      end in
    match existing_case with
    | Some ex =>
      let fix_region := differs (region ex) BEIJING in
      let fill_start := negb (set_ (notice_start_date ex))
                        && set_ (start_date detail_data) in
      let fill_end := negb (set_ (notice_end_date ex))
                      && set_ (end_date detail_data) in
      let ex' :=
        mkCase (id ex) (case_name ex)
               (if fill_start then start_date detail_data else notice_start_date ex)
               (if fill_end then end_date detail_data else notice_end_date ex)
               (source_url ex)
               (if fix_region then Some BEIJING else region ex)
               (attachment_path ex) (created_at ex) in
      let need_update := fix_region || fill_start || fill_end in
      if need_update && commit_ok c
      then (mkstate (write_back (name_is (Some case_title)) ex' (db st)) w, false)
      else (mkstate (db st) w, false)
    | None =>
      let new_case :=
        mkCase (next_id (db st)) (Some case_title)
               (start_date detail_data) (end_date detail_data)
               (Some case_url) (Some BEIJING) new_path (Some (now c)) in
      if commit_ok c
      then (mkstate (db st ++ [new_case]) w, true)
      else (mkstate (db st) w, false)
    end
  end.

(** shanghai_scraper.py: ShanghaiScraper.process_case *)
Definition shanghai_process_case (c : ctx) (st : state datetime)
           (case_title case_url : str) : state datetime * bool :=
  let existing_case := first_by_name (Some case_title) (db st) in
  match parse_detail_page c case_url with
  | None => (st, false)
  | Some detail_data =>
    let '(w, new_path) :=
      match attachment_url detail_data, attachment_name detail_data with
      | Some ((_ :: _) as aurl), Some ((_ :: _) as file_name) =>
        let save_path := path_join (attachment_dir c) file_name in
        if match existing_case with
           | None => true
           | Some ex => negb (truthy (attachment_path ex))
           end
        then
          match shanghai_download_attachment (dl c) (world_ st) aurl save_path with
          | (w, true) => (w, Some save_path)
          | (w, false) => (w, None)
          end
        else (world_ st, None)
      | _, _ => (world_ st, None)
      end in
    match existing_case with
    | Some ex =>
      let fill_start := negb (set_ (notice_start_date ex))
                        && set_ (start_date detail_data) in
      let fill_end := negb (set_ (notice_end_date ex))
                      && set_ (end_date detail_data) in
      let fix_region := differs (region ex) SHANGHAI in
      let fill_path := truthy new_path && negb (truthy (attachment_path ex)) in
      let ex' :=
        mkCase (id ex) (case_name ex)
               (if fill_start then start_date detail_data else notice_start_date ex)
               (if fill_end then end_date detail_data else notice_end_date ex)
               (source_url ex)
               (if fix_region then Some SHANGHAI else region ex)
               (if fill_path then new_path else attachment_path ex)
               (created_at ex) in
      let need_update := fill_start || fill_end || fix_region || fill_path in
      if need_update && commit_ok c
      then (mkstate (write_back (name_is (Some case_title)) ex' (db st)) w, false)
      else (mkstate (db st) w, false)
    | None =>
      let new_case :=
        mkCase (next_id (db st)) (Some case_title)
               (start_date detail_data) (end_date detail_data)
               (Some case_url) (Some SHANGHAI) new_path (Some (now c)) in
      if commit_ok c
      then (mkstate (db st ++ [new_case]) w, true)
      else (mkstate (db st) w, false)
    end
  end.

End Reconcile.

(* ===================================================================== *)
(** ** chongqing_scraper.py and shaanxi_scraper.py *)
(* ===================================================================== *)

Module Regional.
Import Store Env Fetch.

(** [download_attachment(case_name, attachment_url)] of the Chongqing and
    of the Shaanxi scraper.  [derive case_name url] stands for the file
    name both compute first, from the path of the URL ([urlparse],
    [unquote], [os.path.basename]) or, when that gives no usable name,
    from the case name and the ending of the URL; [Raise] when that
    computation raises.  The two differ in [derive] only (Shaanxi also
    skips empty chunks, which write nothing).  The handler removes
    nothing. *)
Definition download_attachment (derive : str -> str -> res str) (attachment_dir : str)
           (e : env) (w : world) (case_name : str) (attachment_url : option str)
  : world * option str :=
  match attachment_url with
  | Some ((_ :: _) as url) =>
    match derive case_name url with
    | Raise => (w, None)
    | Ret file_name =>
      let file_path := path_join attachment_dir file_name in
      if exists_ w file_path then (w, Some file_path)
      else
        let (w, r) := get e w url in
        match r with
        | Unreachable => (w, None)
        | Resp status _ chunks broken =>
          if status_raises status then (w, None)
          else if negb (open_ok e file_path) then (w, None)
          else
            let w := open_wb w file_path in
            match write_chunks e w file_path chunks with
            | (w, false) => (w, None)
            | (w, true) => if broken then (w, None) else (w, Some file_path)
            end
        end
    end
  | _ => (w, None)
  end.

End Regional.

Module Chongqing.
Import Store Env Fetch Reconcile Datetime.

Definition CHONGQING : str := u "重庆".

(** chongqing_scraper.py: ChongqingScraper.process_case.  The path tested
    for an existing file is built from the case title; the download,
    whose result is not looked at, derives its own. *)
Definition chongqing_process_case (derive : str -> str -> res str) (c : ctx)
           (st : state datetime) (case_title case_url : str) : state datetime * bool :=
  let existing_case := first_by_name (Some case_title) (db st) in
  match parse_detail_page c case_url with
  | None => (st, false)
  | Some detail_data =>
    let '(w, new_path) :=
      match attachment_url detail_data with
      | Some ((_ :: _) as aurl) =>
        let file_name := sub_illegal (case_title ++ [46] ++ last_field aurl) in
        let attachment_path := path_join (attachment_dir c) file_name in
        if exists_ (world_ st) attachment_path
        then (world_ st, Some attachment_path)
        else (fst (Regional.download_attachment derive (attachment_dir c) (dl c)
                     (world_ st) case_title (Some aurl)),
              Some attachment_path)
      | _ => (world_ st, None)
      end in
    match existing_case with
    | Some ex =>
      let fix_region := differs (region ex) CHONGQING in
      let fill_start := negb (set_ (notice_start_date ex))
                        && set_ (start_date detail_data) in
      let fill_end := negb (set_ (notice_end_date ex))
                      && set_ (end_date detail_data) in
      let ex' :=
        mkCase (id ex) (case_name ex)
               (if fill_start then start_date detail_data else notice_start_date ex)
               (if fill_end then end_date detail_data else notice_end_date ex)
               (source_url ex)
               (if fix_region then Some CHONGQING else region ex)
               (attachment_path ex) (created_at ex) in
      let need_update := fix_region || fill_start || fill_end in
      if need_update && commit_ok c
      then (mkstate (write_back (name_is (Some case_title)) ex' (db st)) w, false)
      else (mkstate (db st) w, false)
    | None =>
      let new_case :=
        mkCase (next_id (db st)) (Some case_title)
               (start_date detail_data) (end_date detail_data)
               (Some case_url) (Some CHONGQING) new_path (Some (now c)) in
      if commit_ok c
      then (mkstate (db st ++ [new_case]) w, true)
      else (mkstate (db st) w, false)
    end
  end.

End Chongqing.

Module Shaanxi.
Import Store Env Fetch Datetime.

Definition SHAANXI : str := u "陕西".

(** What [ShaanxiScraper.parse_detail_page] returns. *)
Record detail : Type := mkdetail
  { title : option str;
    start_date : option datetime;
    end_date : option datetime;
    attachment_url : option str }.

(** The surroundings of one [process_case]. *)
Record ctx : Type := mkctx
  { dl : env;
    derive : str -> str -> res str;
    parse_detail_page : str -> option detail;
    commit_ok : bool;
    attachment_dir : str;
    now : N }.

(** The row an existing case is looked up by: first under the title of
    the list page, then, when the detail page has another title, under
    that one.  The name that found it is kept with the row. *)
Definition lookup (db : list (Case datetime)) (query_title : str)
           (detail_title : option str) : option (option str * Case datetime) :=
  match first_by_name (Some query_title) db with
  | Some ex => Some (Some query_title, ex)
  | None =>
    if truthy detail_title && negb (bool_decide (detail_title = Some query_title))
    then match first_by_name detail_title db with
         | Some ex => Some (detail_title, ex)
         | None => None
         end
    else None
  end.

(** shaanxi_scraper.py: ShaanxiScraper.process_case.  [title] and [url]
    are [case.get('title')] and [case.get('url')].  An existing case is
    updated with the latest data: name, region, both dates and the source
    URL are set to the values of this sighting whenever they differ, the
    attachment is fetched only when the row has none, and the time stamp
    is renewed. *)
Definition shaanxi_process_case (c : ctx) (st : Reconcile.state datetime)
           (title_ url : option str) : Reconcile.state datetime * bool :=
  match title_, url with
  | Some ((_ :: _) as query_title), Some ((_ :: _) as case_url) =>
    match parse_detail_page c case_url with
    | None => (st, false)
    | Some detail_data =>
      let detail_title := title detail_data in
      let final_title :=
        match detail_title with Some ((_ :: _) as t) => t | _ => query_title end in
      (* [if not final_title: return False] cannot fire: [query_title] is
         not empty *)
      match lookup (Reconcile.db st) query_title detail_title with
      | Some (key, ex) =>
        let '(w, path) :=
          if negb (truthy (attachment_path ex)) && truthy (attachment_url detail_data)
          then
            match Regional.download_attachment (derive c) (attachment_dir c) (dl c)
                    (Reconcile.world_ st) final_title (attachment_url detail_data) with
            | (w, Some ((_ :: _) as dl_path)) => (w, Some dl_path)
            | (w, _) => (w, attachment_path ex)
            end
          else (Reconcile.world_ st, attachment_path ex) in
        let ex' :=
          mkCase (id ex)
                 (if bool_decide (case_name ex = Some final_title)
                  then case_name ex else Some final_title)
                 (if bool_decide (notice_start_date ex = start_date detail_data)
                  then notice_start_date ex else start_date detail_data)
                 (if bool_decide (notice_end_date ex = end_date detail_data)
                  then notice_end_date ex else end_date detail_data)
                 (if bool_decide (source_url ex = Some case_url)
                  then source_url ex else Some case_url)
                 (if Reconcile.differs (region ex) SHAANXI
                  then Some SHAANXI else region ex)
                 path (Some (now c)) in
        if commit_ok c
        then (Reconcile.mkstate (write_back (name_is key) ex' (Reconcile.db st)) w, false)
        else (Reconcile.mkstate (Reconcile.db st) w, false)
      | None =>
        if negb (bool_decide (final_title = query_title))
           && Reconcile.set_ (first_by_name (Some final_title) (Reconcile.db st))
        then (st, false)
        else
          let '(w, attachment_path) :=
            if truthy (attachment_url detail_data)
            then Regional.download_attachment (derive c) (attachment_dir c) (dl c)
                   (Reconcile.world_ st) final_title (attachment_url detail_data)
            else (Reconcile.world_ st, None) in
          let new_case :=
            mkCase (next_id (Reconcile.db st)) (Some final_title)
                   (start_date detail_data) (end_date detail_data)
                   (Some case_url) (Some SHAANXI) attachment_path (Some (now c)) in
          if commit_ok c
          then (Reconcile.mkstate (Reconcile.db st ++ [new_case]) w, true)
          else (Reconcile.mkstate (Reconcile.db st) w, false)
      end
    end
  | _, _ => (st, false)
  end.

End Shaanxi.

(* ===================================================================== *)
(** ** scraper.py: CaseScraper.process_case *)
(* ===================================================================== *)

Module CaseScraper.
Import Store Env Fetch CaseScraperStore CaseScraperResolver.

Section ProcessCase.
Context {D : Type}.

(** The surroundings: the downloads, whether [fetch_page] returns a page
    for a URL, the outcome of [create_parser(...).parse()] on the page
    fetched from a URL, whether the database session works, the
    attachment directory and the clock. *)
Record ctx : Type := mkctx
  { dl : env;
    page_fetched : str -> bool;
    detail_of : str -> option (BaseParser.result D);
    session_ok : bool;
    download_path : str;
    now : N }.

(** [fetch_page(url)]: the GET is issued whatever comes of it. *)
Definition fetch_page (w : world) (url : str) : world :=
  mkworld (files w) (requests w ++ [url]).

Definition process_case (c : ctx) (st : Reconcile.state D) (title url : str)
  : Reconcile.state D * option (case_data D) :=
  let w0 := fetch_page (Reconcile.world_ st) url in
  if negb (page_fetched c url) then (Reconcile.mkstate (Reconcile.db st) w0, None)
  else
  match get_page_type url with
  | None => (Reconcile.mkstate (Reconcile.db st) w0, None)
  | Some page_type =>
    match detail_of c url with
    | None => (Reconcile.mkstate (Reconcile.db st) w0, None)
    | Some case_detail =>
      let name := BaseParser.case_name D case_detail in
      let '(w, path) :=
        match first_by_name (Some name) (Reconcile.db st) with
        | Some r => (w0, Present (attachment_path r))
        | None =>
          match BaseParser.attachment_url D case_detail with
          | Some ((_ :: _) as aurl) =>
            let (w, p) := casescraper_download_attachment
                            (download_path c) (dl c) w0 aurl name in
            (w, Present p)
          | _ => (w0, Absent)
          end
        end in
      (* case_data.update(case_detail); case_data['region'] = ... *)
      let case_data :=
        mkdata (Present (Some title)) (Present (Some name))
               (Present (Some url)) Absent path
               (Present (Some (get_region_name (Some page_type))))
               (Present (BaseParser.notice_start_date D case_detail))
               (Present (BaseParser.notice_end_date D case_detail)) in
      match save_to_db (session_ok c) (now c) (Reconcile.db st) case_data with
      | (db', true) => (Reconcile.mkstate db' w, Some case_data)
      | (_, false) => (Reconcile.mkstate (Reconcile.db st) w, None)
      end
    end
  end.

End ProcessCase.

End CaseScraper.

(* ===================================================================== *)
(** ** deduplicate_db.py *)
(* ===================================================================== *)

Module Dedup.
Import Store.

Section Table.
Context {D : Type}.

(** Two rows fall in one group of [GROUP BY source_url]; the NULLs
    form one group. *)
Definition same_group (a b : option str) : bool := bool_decide (a = b).

Definition group_of (key : option str) (db : list (Case D)) : list (Case D) :=
  List.filter (fun r => same_group key (source_url r)) db.

(** [MAX(rowid)] of a group. *)
Definition max_rowid (rows : list (Case D)) : N :=
  fold_right (fun r m => N.max (id r) m) 0 rows.

(** [SELECT MAX(rowid) FROM cases GROUP BY source_url], as the list of
    the maxima, one entry per row of its group. *)
Definition max_rowids (db : list (Case D)) : list N :=
  List.map (fun r => max_rowid (group_of (source_url r) db)) db.

(** Step 2: the groups of a non-NULL, non-empty [source_url] with more
    than one row. *)
Definition is_duplicated (db : list (Case D)) (r : Case D) : bool :=
  match source_url r with
  | Some (_ :: _) => (1 <? length (group_of (source_url r) db))%nat
  | _ => false
  end.

Definition num_duplicate_urls_positive (db : list (Case D)) : bool :=
  existsb (is_duplicated db) db.

(** Step 3: [DELETE FROM cases WHERE rowid NOT IN (...)]. *)
Definition delete_not_max (db : list (Case D)) : list (Case D) :=
  List.filter (fun r => existsb (N.eqb (id r)) (max_rowids db)) db.

(** The pass on an existing database, the statements succeeding. *)
Definition deduplicate_by_source_url (db : list (Case D)) : list (Case D) :=
  match db with
  | [] => db                                   (* initial_count == 0 *)
  | _ => if num_duplicate_urls_positive db
         then delete_not_max db
         else db                               (* no duplicates: return *)
  end.

End Table.

End Dedup.

(* ===================================================================== *)
(** ** scraper.py: pagination of the list page *)
(* ===================================================================== *)

Module Pagination.

Section Playwright.
(** The browser page, seen through what the driver does with it. *)
Variable page : Type.
(** [query_selector('.content-3-left-text a')] and [inner_text()]:
    no element, or the first listed title. *)
Variable first_title : page -> res (option str).
(** [wait_for_selector('.layui-laypage-next')]: whether a button came. *)
Variable next_button : page -> res bool.
(** [next_button.click()] and the wait after it: the page afterwards,
    and whether the call returned normally. *)
Variable click_next : page -> page * bool.
(** [wait_for_selector('.content-3-left-text')] *)
Variable wait_content : page -> res unit.
(** [page.goto(url)] *)
Variable goto : str -> page -> page * bool.
(** The case links read off the page ([title], [url]). *)
Variable case_links : page -> res (list (str * str)).

(** The scraper object: the page, [self.current_page], and the number
    of clicks on the next-page button so far. *)
Record scraper : Type := mkscraper
  { pg : page;
    current_page : option nat;
    clicks : nat }.

Definition reset (s : scraper) : scraper :=
  mkscraper (pg s) None (clicks s).

Definition _turn_to_next_page (s : scraper) : scraper * bool :=
  match first_title (pg s) with
  | Raise => (reset s, false)
  | Ret None => (s, false)
  | Ret (Some title0) =>
    match next_button (pg s) with
    | Raise => (reset s, false)
    | Ret false => (s, false)
    | Ret true =>
      let (p', ok) := click_next (pg s) in
      let s := mkscraper p' (current_page s) (S (clicks s)) in
      if negb ok then (reset s, false)
      else
        match wait_content p' with
        | Raise => (reset s, false)
        | Ret _ =>
          match first_title p' with
          | Raise => (reset s, false)
          | Ret None => (s, false)
          | Ret (Some new_title) =>
            if str_eqb new_title title0 then (reset s, false)
            else
              match current_page s with
              | Some n => (mkscraper p' (Some (S n)) (clicks s), true)
              | None => (reset s, false)   (* None += 1 raises *)
              end
          end
        end
    end
  end.

(** [for i in range(n): success = turn(); if not success: return None] *)
Fixpoint turn_times (n : nat) (s : scraper) : scraper * bool :=
  match n with
  | O => (s, true)
  | S n' => match _turn_to_next_page s with
            | (s', true) => turn_times n' s'
            | (s', false) => (s', false)
            end
  end.

(** The tail of the loop body: read the links of the page. *)
Definition read_links (s : scraper) : option (list (str * str)) :=
  match wait_content (pg s) with
  | Raise => None
  | Ret _ => match case_links (pg s) with
             | Ret ((_ :: _) as results) => Some results
             | _ => None
             end
  end.

(** [parse_list_page_playwright(url, page_no)]; [retries] is
    [max_retries - retry_count].  [None] is the failure result. *)
Fixpoint list_page_loop (retries : nat) (url : str) (page_no : nat) (s : scraper)
  : scraper * option (list (str * str)) :=
  match retries with
  | O => (s, None)
  | S retries' =>
    match current_page s with
    | None =>
      let (p', ok) := goto url (pg s) in
      if negb ok then list_page_loop retries' url page_no (mkscraper p' None (clicks s))
      else
        let s := mkscraper p' (Some 1%nat) (clicks s) in
        match turn_times (page_no - 1) s with
        | (s', false) => (s', None)
        | (s', true) =>
          match read_links s' with
          | Some results => (s', Some results)
          | None => list_page_loop retries' url page_no s'
          end
        end
    | Some cur =>
      if (cur <? page_no)%nat then
        match _turn_to_next_page s with
        | (s', false) => (s', None)
        | (s', true) =>
          match read_links s' with
          | Some results => (s', Some results)
          | None => list_page_loop retries' url page_no s'
          end
        end
      else
        match read_links s with
        | Some results => (s, Some results)
        | None => list_page_loop retries' url page_no s
        end
    end
  end.

Definition max_retries : nat := 3.

Definition parse_list_page_playwright (url : str) (page_no : nat) (s : scraper)
  : scraper * option (list (str * str)) :=
  list_page_loop max_retries url page_no s.

End Playwright.

End Pagination.

(* ===================================================================== *)
(** ** Vocabulary of the statements *)
(* ===================================================================== *)

(** The five domain strings the two resolvers share. *)
Definition shared_domains : list str :=
  [ u "samr.gov.cn"; u "scjgj.beijing.gov.cn"; u "scjgj.cq.gov.cn";
    u "scjgj.sh.gov.cn"; u "amr.gd.gov.cn" ].

Definition domains_in (url : str) : list str :=
  List.filter (fun d => contains d url) shared_domains.

(** The inputs of the date examples. *)
Definition single_date : str := u "2025年3月31日".
Definition clean_range : str := u "2025年4月8日至2025年4月17日".
Definition corrupted_range : str := u "公 示 期：2025年4月8日至2025年4月17日".

Definition midnight (y m d : N) : Datetime.datetime := Datetime.mkdt y m d 0 0 0.

(** A pattern a caller can pass to isolate the range: a full-width colon,
    then one group that takes the rest of the line. *)
Definition after_colon : Re.re :=
  Re.Cat (Re.chr 65306) (Re.Grp 1 (Re.Star Re.dot)).

(** Pages for the parser contract: a title and no announcement period; no
    title at all. *)
Definition page_without_dates : ShanghaiParser.soup :=
  ShanghaiParser.mksoup (Some (u "某公司收购某公司股权案")) None None
    (Some (u "经营者集中简易案件公示表")) (Ret (Some (u "https://scjgj.sh.gov.cn/a.doc"))).
Definition page_without_title : ShanghaiParser.soup :=
  ShanghaiParser.mksoup None None None
    (Some (u "公示期：2025年4月8日至2025年4月17日")) (Ret None).
(** A page with a title, no announcement period and an attachment link
    whose href [urljoin] refuses. *)
Definition page_with_bad_link : ShanghaiParser.soup :=
  ShanghaiParser.mksoup (Some (u "某公司收购某公司股权案")) None None
    (Some (u "经营者集中简易案件公示表")) Raise.

(** What one reconciliation may do to a stored row [r], giving [r']: each
    of the two dates is either left as it is, or was null and is set to
    the non-null value just extracted; the attachment path is left as it
    is. *)
Definition monotone_fill {D} (new_start new_end : option D) (r r' : Store.Case D) : Prop :=
  Store.id r' = Store.id r /\
  Store.case_name r' = Store.case_name r /\
  (Store.notice_start_date r' = Store.notice_start_date r \/
   (Store.notice_start_date r = None /\ Store.notice_start_date r' = new_start /\
    new_start <> None)) /\
  (Store.notice_end_date r' = Store.notice_end_date r \/
   (Store.notice_end_date r = None /\ Store.notice_end_date r' = new_end /\
    new_end <> None)) /\
  Store.attachment_path r' = Store.attachment_path r.

(** The dates a sighting carries, for the regional scrapers. *)
Definition sighted_start (c : Reconcile.ctx) (url : str) : option Datetime.datetime :=
  match Reconcile.parse_detail_page c url with
  | Some d => Reconcile.start_date d
  | None => None
  end.
Definition sighted_end (c : Reconcile.ctx) (url : str) : option Datetime.datetime :=
  match Reconcile.parse_detail_page c url with
  | Some d => Reconcile.end_date d
  | None => None
  end.

(** A stored case of the Beijing source, sighted again by the general
    scraper as a Shanghai case. *)
Definition stored_beijing_case : Store.Case str :=
  Store.mkCase 1 (Some (u "某案")) None None (Some (u "https://scjgj.sh.gov.cn/1.html"))
    (Some (u "北京")) None (Some 0).
Definition shanghai_sighting : CaseScraperStore.case_data str :=
  CaseScraperStore.mkdata
    (CaseScraperStore.Present (Some (u "某案"))) CaseScraperStore.Absent
    (CaseScraperStore.Present (Some (u "https://scjgj.sh.gov.cn/1.html")))
    CaseScraperStore.Absent CaseScraperStore.Absent
    (CaseScraperStore.Present (Some (u "上海")))
    (CaseScraperStore.Present (Some (u "2025-04-08")))
    (CaseScraperStore.Present (Some (u "2025-04-17"))).

(** The same stored case in the typed store of the regional scrapers,
    with a start date already present, and a surrounding in which the
    detail page gives other dates. *)
Definition stored_dated_case : Store.Case Datetime.datetime :=
  Store.mkCase 1 (Some (u "某案")) (Some (midnight 2025 4 8)) None
    (Some (u "https://scjgj.sh.gov.cn/1.html")) (Some (u "北京"))
    (Some (u "data/attachments/old.doc")) (Some 0).
Definition quiet_env : Env.env :=
  Env.mkenv (fun _ => Env.Unreachable) true (fun _ => true) (fun _ => true).
Definition empty_world : Env.world := Env.mkworld ∅ [].
Definition other_dates_ctx : Reconcile.ctx :=
  Reconcile.mkctx quiet_env
    (fun _ => Some (Reconcile.mkdetail (Some (midnight 2025 5 1)) (Some (midnight 2025 5 10))
                      None None))
    true (u "data/attachments") 7.
Definition dated_state : Reconcile.state Datetime.datetime :=
  Reconcile.mkstate [stored_dated_case] empty_world.

(** Two rows whose [source_url] is the same empty string, and two rows
    whose [source_url] is NULL. *)
Definition row_with_url (i : N) (url : option str) : Store.Case str :=
  Store.mkCase i (Some (u "某案")) None None url (Some (u "上海")) None (Some i).
Definition two_rows_empty_url : list (Store.Case str) :=
  [row_with_url 1 (Some []); row_with_url 2 (Some [])].
Definition two_rows_null_url : list (Store.Case str) :=
  [row_with_url 1 None; row_with_url 2 None].
(** Three rows of one URL and one row of another. *)
Definition three_duplicates : list (Store.Case str) :=
  [row_with_url 1 (Some (u "https://scjgj.sh.gov.cn/1.html"));
   row_with_url 2 (Some (u "https://scjgj.sh.gov.cn/2.html"));
   row_with_url 3 (Some (u "https://scjgj.sh.gov.cn/1.html"));
   row_with_url 4 (Some (u "https://scjgj.sh.gov.cn/1.html"))].

(** Surroundings for the attachment examples: a server that answers 200
    and breaks off after the first chunk; a sound server with a full
    disk; a sound server and disk. *)
Definition breaking_env : Env.env :=
  Env.mkenv (fun _ => Env.Resp 200 4 [[37; 80]] true) true (fun _ => true) (fun _ => true).
Definition full_disk_env : Env.env :=
  Env.mkenv (fun _ => Env.Resp 200 4 [[37; 80]; [68; 70]] false) false (fun _ => true)
    (fun _ => true).
Definition sound_env : Env.env :=
  Env.mkenv (fun _ => Env.Resp 200 4 [[37; 80]; [68; 70]] false) true (fun _ => true)
    (fun _ => true).
Definition attachments_dir : str := u "data/attachments".
Definition doc_url : str := u "https://www.samr.gov.cn/fldes/a.doc".
Definition some_case : str := u "某公司收购某公司股权案".
Definition some_case_doc : str := u "某公司收购某公司股权案.doc".
Definition some_case_path : str := u "data/attachments/某公司收购某公司股权案.doc".

(** A new Beijing case whose detail page links an attachment, while the
    server breaks off. *)
Definition beijing_new_case_ctx : Reconcile.ctx :=
  Reconcile.mkctx breaking_env
    (fun _ => Some (Reconcile.mkdetail None None (Some doc_url) (Some (u "附件"))))
    true attachments_dir 7.
Definition empty_state : Reconcile.state Datetime.datetime :=
  Reconcile.mkstate [] empty_world.

(** A next-page action that stalls: from the page [p] with first title
    [t] the button is found and clicked, the content comes, and the page
    [p'] reached still shows [t] first. *)
Definition stalls {page : Type}
           (first_title : page -> res (option str)) (next_button : page -> res bool)
           (click_next : page -> page * bool) (wait_content : page -> res unit)
           (p p' : page) (t : str) : Prop :=
  first_title p = Ret (Some t) /\
  next_button p = Ret true /\
  click_next p = (p', true) /\
  wait_content p' = Ret tt /\
  first_title p' = Ret (Some t).

(** A site whose pager is stuck: the page is the number of clicks
    received, and every page lists the same cases. *)
Definition stuck_first_title (p : nat) : res (option str) := Ret (Some (u "某案")).
Definition stuck_next_button (p : nat) : res bool := Ret true.
Definition stuck_click_next (p : nat) : nat * bool := (S p, true).
Definition stuck_wait_content (p : nat) : res unit := Ret tt.
Definition stuck_goto (url : str) (p : nat) : nat * bool := (O, true).
Definition stuck_case_links (p : nat) : res (list (str * str)) :=
  Ret [(u "某案", u "https://www.samr.gov.cn/1.html")].

(** A site whose pager works once and is stuck from then on: the first
    page shows one title first, every later page another. *)
Definition late_first_title (p : nat) : res (option str) :=
  Ret (Some (if (p =? 0)%nat then u "甲案" else u "乙案")).

(** A new case seen by the general scraper on a SAMR page that links an
    attachment, while the server breaks off. *)
Definition samr_detail : BaseParser.result str :=
  BaseParser.mkresult some_case (Some (u "2025-04-08")) (Some (u "2025-04-17"))
    (Some doc_url).
Definition casescraper_new_case_ctx : CaseScraper.ctx :=
  CaseScraper.mkctx breaking_env (fun _ => true) (fun _ => Some samr_detail) true
    attachments_dir 7.
Definition empty_text_state : Reconcile.state str := Reconcile.mkstate [] empty_world.

(** The values [save_to_db] binds to its statements. *)
Definition db_case_name {D} (cd : CaseScraperStore.case_data D) : option str :=
  CaseScraperStore.get (CaseScraperStore.cd_title cd)
    (CaseScraperStore.get (CaseScraperStore.cd_case_name cd) None).
Definition db_source_url {D} (cd : CaseScraperStore.case_data D) : option str :=
  CaseScraperStore.get (CaseScraperStore.cd_url cd)
    (CaseScraperStore.get (CaseScraperStore.cd_source_url cd) None).
Definition db_region {D} (cd : CaseScraperStore.case_data D) : option str :=
  CaseScraperStore.get (CaseScraperStore.cd_region cd) (Some []).
Definition db_start {D} (cd : CaseScraperStore.case_data D) : option D :=
  CaseScraperStore.get (CaseScraperStore.cd_notice_start_date cd) None.
Definition db_end {D} (cd : CaseScraperStore.case_data D) : option D :=
  CaseScraperStore.get (CaseScraperStore.cd_notice_end_date cd) None.
Definition db_attachment_path {D} (cd : CaseScraperStore.case_data D) : option str :=
  CaseScraperStore.get (CaseScraperStore.cd_attachment_path cd) None.

(** A sighting that carries neither a title nor a case name. *)
Definition nameless_sighting : CaseScraperStore.case_data str :=
  CaseScraperStore.mkdata CaseScraperStore.Absent CaseScraperStore.Absent
    (CaseScraperStore.Present (Some (u "https://scjgj.sh.gov.cn/1.html")))
    CaseScraperStore.Absent CaseScraperStore.Absent CaseScraperStore.Absent
    CaseScraperStore.Absent CaseScraperStore.Absent.

(** [ShanghaiScraper.process_case] in its two steps: the attachment step,
    which gives the files afterwards and the path to record, and the
    table step, which gives the table afterwards and the value returned.
    [shanghai_process_case_steps] shows that they make up the function. *)
Definition shanghai_attach (c : Reconcile.ctx) (w : Env.world)
           (existing_case : option (Store.Case Datetime.datetime)) (d : Reconcile.detail)
  : Env.world * option str :=
  match Reconcile.attachment_url d, Reconcile.attachment_name d with
  | Some ((_ :: _) as aurl), Some ((_ :: _) as file_name) =>
    let save_path := Env.path_join (Reconcile.attachment_dir c) file_name in
    if match existing_case with
       | None => true
       | Some ex => negb (truthy (Store.attachment_path ex))
       end
    then
      match Fetch.shanghai_download_attachment (Reconcile.dl c) w aurl save_path with
      | (w, true) => (w, Some save_path)
      | (w, false) => (w, None)
      end
    else (w, None)
  | _, _ => (w, None)
  end.

Definition shanghai_store (c : Reconcile.ctx) (db : list (Store.Case Datetime.datetime))
           (case_title case_url : str) (d : Reconcile.detail) (new_path : option str)
  : list (Store.Case Datetime.datetime) * bool :=
  match Store.first_by_name (Some case_title) db with
  | Some ex =>
    let fill_start := negb (Reconcile.set_ (Store.notice_start_date ex))
                      && Reconcile.set_ (Reconcile.start_date d) in
    let fill_end := negb (Reconcile.set_ (Store.notice_end_date ex))
                    && Reconcile.set_ (Reconcile.end_date d) in
    let fix_region := Reconcile.differs (Store.region ex) Reconcile.SHANGHAI in
    let fill_path := truthy new_path && negb (truthy (Store.attachment_path ex)) in
    let ex' :=
      Store.mkCase (Store.id ex) (Store.case_name ex)
        (if fill_start then Reconcile.start_date d else Store.notice_start_date ex)
        (if fill_end then Reconcile.end_date d else Store.notice_end_date ex)
        (Store.source_url ex)
        (if fix_region then Some Reconcile.SHANGHAI else Store.region ex)
        (if fill_path then new_path else Store.attachment_path ex)
        (Store.created_at ex) in
    if (fill_start || fill_end || fix_region || fill_path) && Reconcile.commit_ok c
    then (Store.write_back (Store.name_is (Some case_title)) ex' db, false)
    else (db, false)
  | None =>
    if Reconcile.commit_ok c
    then (db ++ [Store.mkCase (Store.next_id db) (Some case_title)
                   (Reconcile.start_date d) (Reconcile.end_date d)
                   (Some case_url) (Some Reconcile.SHANGHAI) new_path
                   (Some (Reconcile.now c))], true)
    else (db, false)
  end.

(** A Shanghai sighting of a new case whose attachment is served whole. *)
Definition shanghai_new_case_ctx : Reconcile.ctx :=
  Reconcile.mkctx sound_env
    (fun _ => Some (Reconcile.mkdetail (Some (midnight 2025 4 8)) (Some (midnight 2025 4 17))
                      (Some doc_url) (Some (u "公示表.doc"))))
    true attachments_dir 7.

(** Rows with and without a source URL, one URL duplicated. *)
Definition mixed_table : list (Store.Case str) :=
  [row_with_url 1 None;
   row_with_url 2 (Some (u "https://scjgj.sh.gov.cn/1.html"));
   row_with_url 3 None;
   row_with_url 4 (Some (u "https://scjgj.sh.gov.cn/1.html"));
   row_with_url 5 (Some [])].

(** The target path of the two fetchers that derive it themselves. *)
Definition casescraper_target (download_path url case_name : str) : str :=
  Env.path_join download_path (Fetch.file_name url case_name).
Definition downloader_target (DOWNLOAD_PATH case_name region : str) : str :=
  Env.path_join (Env.path_join DOWNLOAD_PATH region) (case_name ++ u ".doc").

(** A world that already holds an unrelated file. *)
Definition world_with_other_file : Env.world :=
  Env.mkworld {[ u "data/attachments/other.pdf" := [1; 2; 3] ]} [].

(* ===================================================================== *)
(** ** utils.py: FileHandler *)
(* ===================================================================== *)

Module FileHandler.

(** The characters of [invalid_chars]: less-than, greater-than, colon,
    double quote, slash, backslash, bar, question mark, star. *)
Definition invalid_chars : str := [60; 62; 58; 34; 47; 92; 124; 63; 42].

(** [for char in invalid_chars: filename = filename.replace(char, '_')],
    then [filename.strip()[:255]]. *)
Definition sanitize_filename (filename : str) : str :=
  firstn 255 (strip (fold_left (fun t c => replace1 c [95] t) invalid_chars filename)).

Definition extensions : list str := [u ".doc"; u ".docx"; u ".pdf"].

(** [for ext in extensions: if url.lower().endswith(ext): return ext] *)
Fixpoint first_extension (exts : list str) (url : str) : option str :=
  match exts with
  | [] => None
  | ext :: exts' => if endswith ext (lower url) then Some ext
                    else first_extension exts' url
  end.

Definition get_file_extension (url : str) : str :=
  match first_extension extensions url with
  | Some ext => ext
  | None => u ".doc"
  end.

End FileHandler.

(** The target paths of the two regional scrapers. *)
Definition beijing_target (attachment_dir case_title aurl : str) : str :=
  Env.path_join attachment_dir
    (Reconcile.sub_illegal (case_title ++ [46] ++ Reconcile.last_field aurl)).

(** A string that does not begin with a slash (a relative path). *)
Definition relative (s : str) : Prop := hd 0 s <> 47.

(** A string with no white space at either end. *)
Definition trimmed (s : str) : Prop :=
  (forall x t, s = x :: t -> is_space x = false)
  /\ (forall x t, s = t ++ [x] -> is_space x = false).

(** How often the character [c] occurs in [s]. *)
Definition occurrences (c : N) (s : str) : nat := length (List.filter (N.eqb c) s).

(* ===================================================================== *)
(** ** parsers.py: create_parser; utils.py: DateParser.get_parser_for_type *)
(* ===================================================================== *)

Module ParserFactory.

(** The parser classes of parsers.py. *)
Inductive parser_class : Type :=
| SamrParser | BeijingParser | ChongqingParser
| ShanghaiParser | GuangdongParser | ShaanxiParser.

Definition parser_map : list (str * parser_class) :=
  [ (u "samr", SamrParser);
    (u "beijing", BeijingParser);
    (u "chongqing", ChongqingParser);
    (u "shanghai", ShanghaiParser);
    (u "guangdong", GuangdongParser);
    (u "shaanxi", ShaanxiParser) ].

(** [create_parser(page_type, soup, base_url)]: the class instantiated,
    [None] for a page type that is not a key. *)
Definition create_parser (page_type : option str) : option parser_class :=
  match page_type with
  | Some t => dict_find parser_map t
  | None => None
  end.

(** [DateParser.get_parser_for_type]: [parser_map.get(page_type)]. *)
Definition method_map : list (str * str) :=
  [ (u "samr", u "parse_samr_page");
    (u "beijing", u "parse_beijing_page");
    (u "chongqing", u "parse_chongqing_page");
    (u "shanghai", u "parse_shanghai_page");
    (u "guangdong", u "parse_guangdong_page") ].

Definition get_parser_for_type (page_type : option str) : option str :=
  match page_type with
  | Some t => dict_find method_map t
  | None => None
  end.

Section ParseDetailPage.
Context {Soup D : Type}.

(** scraper.py: [CaseScraper.parse_detail_page].  [parse_of] is
    [parser.parse()] of the instance of a class on the parsed page. *)
Definition parse_detail_page
           (parse_of : parser_class -> Soup -> option (BaseParser.result D))
           (soup : Soup) (source_url : str) : option (BaseParser.result D) :=
  match PageTypeIdentifier.identify_page_type source_url with
  | Some ((_ :: _) as page_type) =>
    match create_parser (Some page_type) with
    | Some parser => parse_of parser soup
    | None => None
    end
  | _ => None
  end.

End ParseDetailPage.

End ParserFactory.

(** The year a printed date begins with. *)
Definition printed_year (s : str) : N := Datetime.int (firstn 4 s).

(** A site whose pager works: the page is its number, and page [p] lists
    one case named after it. *)
Definition live_first_title (p : nat) : res (option str) :=
  Ret (Some [48 + N.of_nat p]).
Definition live_case_links (p : nat) : res (list (str * str)) :=
  Ret [([48 + N.of_nat p], u "https://www.samr.gov.cn/1.html")].
Definition live_goto (url : str) (p : nat) : nat * bool := (1%nat, true).
Definition list_url : str := u "https://www.samr.gov.cn/fldes/ajgs/jyaj/index.html".

(* ===================================================================== *)
(** ** Python [int] and [str] of integers *)
(* ===================================================================== *)

Module PyInt.

(** The digits of [int(s)]: ASCII digits, single underscores allowed
    between two digits; [None] is ValueError.  (Python also accepts the
    other Unicode decimal digits, which the model leaves out.)  Integers
    are of any size here: Python 3.11 and later refuse to read or print
    more than 4300 digits, so the statements on conversions speak of
    numbers below that limit, see [within_digit_limit]. *)
Fixpoint int_digits (acc : N) (after_digit : bool) (s : str) : option N :=
  match s with
  | [] => if after_digit then Some acc else None
  | x :: s' =>
    if Re.is_digit x then int_digits (acc * 10 + (x - 48)) true s'
    else if (x =? 95) && after_digit then int_digits acc false s'
    else None
  end.

(** [int(s)]: blanks around, an optional sign, then the digits. *)
Definition int (s : str) : option Z :=
  match strip s with
  | 43 :: r => option_map Z.of_N (int_digits 0 false r)
  | 45 :: r => option_map (fun n => Z.opp (Z.of_N n)) (int_digits 0 false r)
  | r => option_map Z.of_N (int_digits 0 false r)
  end.

(** The decimal digits of [n], most significant first; [fuel] bounds
    their number. *)
Fixpoint dec_aux (fuel : nat) (n : N) (acc : str) : str :=
  match fuel with
  | O => acc
  | S fuel' =>
    let acc := (48 + n mod 10) :: acc in
    if n / 10 =? 0 then acc else dec_aux fuel' (n / 10) acc
  end.
Definition dec (n : N) : str := dec_aux (S (N.to_nat (N.size n))) n [].

(** [str(z)], as in an f-string. *)
Definition str_ (z : Z) : str :=
  if (z <? 0)%Z then 45 :: dec (Z.to_N (- z)) else dec (Z.to_N z).

End PyInt.

(* ===================================================================== *)
(** ** beijing_scraper.py: BeijingScraper.parse_list_page;
       the [run] loop of the regional scrapers *)
(* ===================================================================== *)

Module ListPage.

(** An entry of the case list of a page. *)
Record case_item : Type := mkitem
  { title : str;
    url : str;
    list_date : str }.

(** The dict [parse_list_page] returns. *)
Record page_data : Type := mkpage
  { cases : list case_item;
    next_page : option str;
    current_page : Z }.

Section Beijing.
(** The request for a list page and the selectors on it: the entries
    found, or an exception. *)
Variable cases_of : str -> res (list case_item).

Definition beijing_parse_list_page (url : str) : option page_data :=
  match cases_of url with
  | Raise => None
  | Ret [] => None
  | Ret ((_ :: _) as cases) =>
    let current_url_parts := split 47 url in
    let last_part := List.last current_url_parts [] in
    if str_eqb last_part [] || str_eqb last_part (u "index.html") then
      let base_path := join [47] (removelast current_url_parts) in
      Some (mkpage cases (Some (base_path ++ u "/index_1.html")) 1)
    else
      match split 95 last_part with
      | _ :: field :: _ =>
        match PyInt.int (List.hd [] (split 46 field)) with
        | Some page_number =>
          let current_page := (page_number + 2)%Z in
          let base_path := join [47] (removelast current_url_parts) in
          Some (mkpage cases
                  (Some (base_path ++ u "/index_" ++ PyInt.str_ (current_page - 1)
                           ++ u ".html"))
                  current_page)
        | None => Some (mkpage cases None 1)       (* ValueError *)
        end
      | _ => Some (mkpage cases None 1)            (* IndexError *)
      end
  end.

End Beijing.

Section Run.
Context {D : Type}.
(** [self.parse_list_page] and [self.process_case] of the scraper. *)
Variable parse_list_page : str -> option page_data.
Variable process_case : Reconcile.state D -> str -> str -> Reconcile.state D * bool.

(** [for case in cases: is_new = process_case(case); if is_new: total += 1] *)
Fixpoint process_cases (cs : list case_item) (st : Reconcile.state D) (total : nat)
  : Reconcile.state D * nat :=
  match cs with
  | [] => (st, total)
  | c :: cs' =>
    let (st', is_new) := process_case st (title c) (url c) in
    process_cases cs' st' (if is_new then S total else total)
  end.

(** [max_page and current_page > max_page] *)
Definition over_limit (max_page : option Z) (current_page : Z) : bool :=
  match max_page with
  | Some m => negb (m =? 0)%Z && (m <? current_page)%Z
  | None => false
  end.

(** What [run] has when its loop ends. *)
Record outcome : Type := mkoutcome
  { final : Reconcile.state D;
    total_new_cases : nat;
    processed_pages : nat }.

(** The [while current_url:] loop of [run]; [fuel] bounds the number of
    rounds. *)
Fixpoint run_loop (fuel : nat) (max_page : option Z) (current_url : option str)
         (st : Reconcile.state D) (total processed : nat) : outcome :=
  match fuel with
  | O => mkoutcome st total processed
  | S fuel' =>
    match current_url with
    | Some ((_ :: _) as url) =>
      match parse_list_page url with
      | None => mkoutcome st total processed
      | Some page =>
        let processed := S processed in
        if over_limit max_page (current_page page) then mkoutcome st total processed
        else
          let (st', total') := process_cases (cases page) st total in
          run_loop fuel' max_page (next_page page) st' total' processed
      end
    | _ => mkoutcome st total processed
    end
  end.

Definition run (fuel : nat) (max_page : option Z) (base_url : str)
           (st : Reconcile.state D) : outcome :=
  run_loop fuel max_page (Some base_url) st 0 0.

End Run.

End ListPage.
(** The integers that every Python version reads and prints: those of at
    most 4300 digits. *)
Definition within_digit_limit (z : Z) : Prop := (Z.abs z < 10 ^ 4300)%Z.

(** The URL of the list page [index_k.html] under [base]. *)
Definition index_url (base : str) (k : N) : str :=
  base ++ u "/index_" ++ PyInt.str_ (Z.of_N k) ++ u ".html".
(** The Beijing list, every page of which shows one case. *)
Definition beijing_base : str :=
  u "https://scjgj.beijing.gov.cn/ztzl/jyzjzajgs/jyzjzjyajgs".
Definition busy_site (url : str) : res (list ListPage.case_item) :=
  Ret [ListPage.mkitem some_case (u "https://scjgj.beijing.gov.cn/1.html")
         (u "2025-04-08")].

(* ===================================================================== *)
(** ** mainpage_scraper.py: main *)
(* ===================================================================== *)

Module MainPage.

Section Main.
Context {D : Type}.
(** The browser, as in [Pagination]. *)
Variable page : Type.
Variable first_title : page -> res (option str).
Variable next_button : page -> res bool.
Variable click_next : page -> page * bool.
Variable wait_content : page -> res unit.
Variable goto : str -> page -> page * bool.
Variable case_links : page -> res (list (str * str)).
(** The surroundings of [CaseScraper.process_case]. *)
Variable c : @CaseScraper.ctx D.

Definition base_url : str := u "https://www.samr.gov.cn/fldes/ajgs/jyaj/".
Definition start_page : nat := 15.
Definition end_page : nat := 27.

(** The counters and the state while [main] runs. *)
Record progress : Type := mkprogress
  { sc : Pagination.scraper page;
    st : Reconcile.state D;
    total_processed : nat;
    total_success : nat }.

(** [for case in cases: total_processed += 1; result = process_case(case);
    if result: total_success += 1] *)
Fixpoint handle_cases (cs : list (str * str)) (p : progress) : progress :=
  match cs with
  | [] => p
  | (title, url) :: cs' =>
    let (st', result) := CaseScraper.process_case c (st p) title url in
    handle_cases cs'
      (mkprogress (sc p) st' (S (total_processed p))
                  (match result with
                   | Some _ => S (total_success p)
                   | None => total_success p
                   end))
  end.

(** [for target_page in range(start_page, end_page + 1)] *)
Fixpoint pages_loop (targets : list nat) (p : progress) : progress :=
  match targets with
  | [] => p
  | target_page :: targets' =>
    let (sc', cases) :=
      Pagination.parse_list_page_playwright page first_title next_button click_next
        wait_content goto case_links base_url target_page (sc p) in
    let p := mkprogress sc' (st p) (total_processed p) (total_success p) in
    match cases with
    | Some ((_ :: _) as cases) => pages_loop targets' (handle_cases cases p)
    | _ => pages_loop targets' p                       (* continue *)
    end
  end.

(** [main]: the pages, then the summary, whose success rate
    [total_success/total_processed*100] raises ZeroDivisionError when no
    case was processed, and then the export.  The result tells whether
    [export_data] was reached. *)
Definition main (sc0 : Pagination.scraper page) (st0 : Reconcile.state D)
  : progress * bool :=
  let p := pages_loop (List.seq start_page (end_page + 1 - start_page))
                      (mkprogress sc0 st0 0 0) in
  (p, negb (total_processed p =? 0)%nat).

End Main.

End MainPage.

(* ===================================================================== *)
(** ** shanghai_scraper.py: ShanghaiScraper.parse_list_page *)
(* ===================================================================== *)

Module ShanghaiList.
Import ListPage.

Section Shanghai.
(** [self.base_url], [urllib.parse.urljoin] (which can raise on a
    malformed URL), and the request with the selectors on the page. *)
Variable base_url : str.
Variable urljoin : str -> str -> res str.
Variable cases_of : str -> res (list case_item).

Definition shanghai_parse_list_page (url : str) : option page_data :=
  match cases_of url with
  | Raise => None
  | Ret [] => None
  | Ret ((_ :: _) as cases) =>
    let current_url_parts := split 47 url in
    if endswith (u "/1571/") url || endswith (u "/1571") url then
      match urljoin url (u "index_2.html") with
      | Ret next_page => Some (mkpage cases (Some next_page) 1)
      | Raise => None
      end
    else
      match split 95 (List.last current_url_parts []) with
      | _ :: field :: _ =>
        let current_page_str := List.hd [] (split 46 field) in
        match PyInt.int current_page_str with
        | Some current_page =>
          Some (mkpage cases
                  (Some (base_url ++ u "index_" ++ PyInt.str_ (current_page + 1)
                           ++ u ".html"))
                  current_page)
        | None => Some (mkpage cases None 1)       (* ValueError *)
        end
      | _ => None          (* IndexError, caught by the outer handler *)
      end
  end.

End Shanghai.

End ShanghaiList.

(** A surrounding of the Shaanxi scraper in which the detail page of the
    stored case gives other dates, and one in which it gives none. *)
Definition shaanxi_other_dates_ctx : Shaanxi.ctx :=
  Shaanxi.mkctx quiet_env (fun _ _ => Raise)
    (fun _ => Some (Shaanxi.mkdetail (Some (u "某案")) (Some (midnight 2025 5 1))
                      (Some (midnight 2025 5 10)) None))
    true (u "data/attachments") 7.
Definition shaanxi_no_dates_ctx : Shaanxi.ctx :=
  Shaanxi.mkctx quiet_env (fun _ _ => Raise)
    (fun _ => Some (Shaanxi.mkdetail (Some (u "某案")) None None None))
    true (u "data/attachments") 7.

(** A stored case whose attachment path is the empty string, and a
    surrounding of the Shanghai scraper in which the detail page links an
    attachment that downloads well. *)
Definition stored_empty_path_state : Reconcile.state Datetime.datetime :=
  Reconcile.mkstate
    [Store.mkCase 1 (Some (u "某案")) None None (Some (u "https://scjgj.sh.gov.cn/1.html"))
       (Some (u "上海")) (Some []) (Some 0)]
    empty_world.
Definition shanghai_attachment_ctx : Reconcile.ctx :=
  Reconcile.mkctx sound_env
    (fun _ => Some (Reconcile.mkdetail None None (Some doc_url) (Some (u "附件.doc"))))
    true attachments_dir 7.

(** The same stored case in the untyped store of the general scraper,
    with both dates present, sighted again with other dates. *)
Definition stored_text_dated_case : Store.Case str :=
  Store.mkCase 1 (Some (u "某案")) (Some (u "2025-03-01")) (Some (u "2025-03-10"))
    (Some (u "https://scjgj.sh.gov.cn/1.html")) (Some (u "北京"))
    (Some (u "data/attachments/old.doc")) (Some 0).

(** What a reconciliation through SQL may do to a stored row: each date
    is left as it is, or was null while the value bound was not. *)
Definition kept_or_filled {D} (new_start new_end : option D) (r r' : Store.Case D) : Prop :=
  Store.id r' = Store.id r /\
  Store.case_name r' = Store.case_name r /\
  (Store.notice_start_date r' = Store.notice_start_date r \/
   (Store.notice_start_date r = None /\ Store.notice_start_date r' <> None /\
    new_start <> None)) /\
  (Store.notice_end_date r' = Store.notice_end_date r \/
   (Store.notice_end_date r = None /\ Store.notice_end_date r' <> None /\
    new_end <> None)) /\
  Store.attachment_path r' = Store.attachment_path r.

(* ===================================================================== *)
(** * Properties *)
(* ===================================================================== *)

(** ** Strings *)

Lemma startswith_spec (p s : str) :
  startswith p s = true <-> exists t, s = p ++ t.
Proof.
  revert s; induction p as [|a p IH]; intros s; simpl.
  - split; [intros _; exists s; reflexivity | reflexivity].
  - destruct s as [|b s].
    + split; [discriminate | intros [t Ht]; discriminate].
    + rewrite andb_true_iff, N.eqb_eq, IH. split.
      * intros [-> [t ->]]. exists t. reflexivity.
      * intros [t Ht]. injection Ht as -> ->. split; [reflexivity | exists t; reflexivity].
Qed.

(** [contains] is Python's substring test. *)
Lemma contains_spec (needle hay : str) :
  contains needle hay = true <-> exists a b, hay = a ++ needle ++ b.
Proof.
  induction hay as [|h hay IH].
  - simpl. rewrite orb_false_r, startswith_spec. split.
    + intros [t Ht]. exists [], t. exact Ht.
    + intros [a [b Hab]]. destruct a; [exists b; exact Hab | discriminate].
  - cbn [contains]. rewrite orb_true_iff, startswith_spec, IH. split.
    + intros [[t Ht] | [a [b Hab]]].
      * exists [], t. exact Ht.
      * exists (h :: a), b. rewrite Hab. reflexivity.
    + intros [a [b Hab]]. destruct a as [|x a].
      * left. exists b. exact Hab.
      * right. injection Hab as -> ->. exists a, b. reflexivity.
Qed.

(** ** Page type resolver *)

Section FirstMatch.
Import PageTypeIdentifier.

Lemma first_match_some (rules : list (str * str)) (url t : str) :
  first_match rules url = Some t ->
  exists i d, rules !! i = Some (d, t) /\ contains d url = true /\
    forall j d' t', (j < i)%nat -> rules !! j = Some (d', t') -> contains d' url = false.
Proof.
  induction rules as [|[d0 t0] rules IH]; simpl; [discriminate|].
  destruct (contains d0 url) eqn:E.
  - intros [= <-]. exists 0%nat, d0. repeat split; [exact E | intros; lia].
  - intros Hm. destruct (IH Hm) as (i & d & Hi & Hd & Hlt).
    exists (S i), d. repeat split; [exact Hi | exact Hd |].
    intros [|j] d' t' Hj Hl; simpl in Hl.
    + injection Hl as -> _. exact E.
    + apply (Hlt j d' t'); [lia | exact Hl].
Qed.

Lemma first_match_none (rules : list (str * str)) (url : str) :
  first_match rules url = None ->
  forall d t, In (d, t) rules -> contains d url = false.
Proof.
  induction rules as [|[d0 t0] rules IH]; simpl; [intros _ d t []|].
  destruct (contains d0 url) eqn:E; [discriminate|].
  intros Hm d t [[= <- <-] | Hin]; [exact E | exact (IH Hm d t Hin)].
Qed.

Lemma first_match_in (rules : list (str * str)) (url t : str) :
  first_match rules url = Some t -> In t (List.map snd rules).
Proof.
  induction rules as [|[d0 t0] rules IH]; simpl; [discriminate|].
  destruct (contains d0 url); [intros [= <-]; left; reflexivity | right; auto].
Qed.

Lemma identify_is_first_match (url : str) :
  identify_page_type url = first_match RULES url.
Proof. reflexivity. Qed.

Lemma dict_get_range {V} (d : list (str * V)) (k : option str) (dflt : V) :
  dict_get d k dflt = dflt \/
  exists key, k = Some key /\ In (key, dict_get d k dflt) d.
Proof.
  destruct k as [k|]; [|left; reflexivity]. simpl.
  induction d as [|[k' v] d IH]; simpl; [left; reflexivity|].
  unfold str_eqb. case_bool_decide as E.
  - right. exists k. subst k'. split; [reflexivity | left; reflexivity].
  - destruct IH as [IH | (key & Hk & Hin)]; [left; exact IH|].
    right. exists key. split; [exact Hk | right; exact Hin].
Qed.

End FirstMatch.

(** C9.  The page type resolver is a total function of the URL: it returns
    either the unresolved value [None], exactly when no rule's domain is a
    substring of the URL, or the identifier of the first rule, in the
    order of the source, whose domain is a substring of the URL, which is
    one of the six fixed identifiers.  The region lookup returns a label
    for every page type: the label listed in REGION_MAP for a listed
    identifier, and the designated unknown label otherwise, in particular
    for the unresolved value. *)
Theorem page_type_resolver_total_first_match :
  forall url : str,
    PageTypeIdentifier.identify_page_type url
      = PageTypeIdentifier.first_match PageTypeIdentifier.RULES url
    /\ ((PageTypeIdentifier.identify_page_type url = None /\
         Forall (fun rule => contains (fst rule) url = false) PageTypeIdentifier.RULES)
        \/ (exists i d t,
              PageTypeIdentifier.RULES !! i = Some (d, t) /\
              contains d url = true /\
              Forall (fun rule => contains (fst rule) url = false)
                     (firstn i PageTypeIdentifier.RULES) /\
              PageTypeIdentifier.identify_page_type url = Some t /\
              In t PageTypeIdentifier.SOURCE_IDS /\
              In (t, PageTypeIdentifier.get_region (Some t))
                 PageTypeIdentifier.REGION_MAP))
    /\ PageTypeIdentifier.get_region None = u "未知"
    /\ forall page_type : option str,
         PageTypeIdentifier.get_region page_type = u "未知" \/
         exists key, page_type = Some key /\
           In (key, PageTypeIdentifier.get_region page_type)
              PageTypeIdentifier.REGION_MAP.
Proof.
  intros url. split; [reflexivity|]. split; [|split; [reflexivity|]].
  - rewrite identify_is_first_match.
    destruct (PageTypeIdentifier.first_match PageTypeIdentifier.RULES url) as [t|] eqn:E.
    + right. destruct (first_match_some _ _ _ E) as (i & d & Hi & Hd & Hlt).
      exists i, d, t. split; [exact Hi|]. split; [exact Hd|]. split.
      * apply Forall_forall. intros [d' t'] Hin.
        apply list_elem_of_lookup in Hin. destruct Hin as [j Hj].
        apply lookup_take_Some in Hj. destruct Hj as [Hj Hlt'].
        simpl. exact (Hlt j d' t' Hlt' Hj).
      * split; [reflexivity|]. split; [exact (first_match_in _ _ _ E)|].
        pose proof (first_match_in _ _ _ E) as Hin.
        unfold PageTypeIdentifier.RULES in Hin. simpl in Hin.
        destruct Hin as [<-|[<-|[<-|[<-|[<-|[<-|[]]]]]]]; vm_compute; tauto.
    + left. split; [reflexivity|]. apply Forall_forall. intros [d t] Hin.
      apply (proj1 (list_elem_of_In _ _)) in Hin.
      exact (first_match_none _ _ E d t Hin).
  - intros page_type. apply dict_get_range.
Qed.

(** C10, as stated, fails: a URL of the Shaanxi site is resolved by one
    resolver and not by the other, and the two region tables give the
    identifier samr different labels. *)
Lemma resolvers_disagree :
  PageTypeIdentifier.identify_page_type (u "https://snamr.shaanxi.gov.cn/sy/ztzl/")
    = Some (u "shaanxi")
  /\ CaseScraperResolver.get_page_type (u "https://snamr.shaanxi.gov.cn/sy/ztzl/") = None
  /\ PageTypeIdentifier.get_region (Some (u "samr")) = u "总局"
  /\ CaseScraperResolver.get_region_name (Some (u "samr")) = u "国家市场监督管理总局"
  /\ ~ ((forall url, PageTypeIdentifier.identify_page_type url
                     = CaseScraperResolver.get_page_type url)
        /\ (forall page_type, PageTypeIdentifier.get_region page_type
                              = CaseScraperResolver.get_region_name page_type)).
Proof.
  repeat apply conj; try (vm_compute; reflexivity).
  intros [H _]. specialize (H (u "https://snamr.shaanxi.gov.cn/sy/ztzl/")).
  vm_compute in H. discriminate H.
Qed.

(** C10, amended.  On every URL that contains neither of the two Shaanxi
    domain strings and at most one of the five shared domain strings, the
    two resolvers return the same identifier; on every page type other
    than samr the two region lookups return the same label. *)
Theorem resolvers_agree_on_shared_domains :
  (forall url : str,
     contains (u "snamr.shaanxi.gov.cn") url = false ->
     contains (u "scjgj.shaanxi.gov.cn") url = false ->
     (length (domains_in url) <= 1)%nat ->
     PageTypeIdentifier.identify_page_type url = CaseScraperResolver.get_page_type url)
  /\ (forall page_type : option str,
        page_type <> Some (u "samr") ->
        PageTypeIdentifier.get_region page_type
          = CaseScraperResolver.get_region_name page_type).
Proof.
  split.
  - intros url H1 H2 Hlen.
    unfold PageTypeIdentifier.identify_page_type, CaseScraperResolver.get_page_type,
      CaseScraperResolver.domain_map, CaseScraperResolver.scan.
    unfold domains_in, shared_domains in Hlen. cbn [List.filter] in Hlen.
    rewrite H1, H2.
    destruct (contains (u "samr.gov.cn") url),
             (contains (u "scjgj.beijing.gov.cn") url),
             (contains (u "scjgj.cq.gov.cn") url),
             (contains (u "scjgj.sh.gov.cn") url),
             (contains (u "amr.gd.gov.cn") url);
      cbn [length] in Hlen; try lia; reflexivity.
  - intros [k|] Hne; [|reflexivity].
    unfold PageTypeIdentifier.get_region, CaseScraperResolver.get_region_name,
      PageTypeIdentifier.REGION_MAP, CaseScraperResolver.region_map,
      dict_get, dict_find, str_eqb.
    repeat case_bool_decide; subst; try reflexivity; try congruence;
      match goal with H : _ = _ |- _ => vm_compute in H; discriminate H end.
Qed.

Lemma resolvers_agree_on_shared_domains_witness :
  PageTypeIdentifier.identify_page_type (u "https://scjgj.sh.gov.cn/1571/")
    = CaseScraperResolver.get_page_type (u "https://scjgj.sh.gov.cn/1571/")
  /\ PageTypeIdentifier.get_region (Some (u "shanghai"))
     = CaseScraperResolver.get_region_name (Some (u "shanghai")).
Proof.
  split.
  - apply (proj1 resolvers_agree_on_shared_domains);
      [vm_compute; reflexivity | vm_compute; reflexivity | vm_compute; lia].
  - apply (proj2 resolvers_agree_on_shared_domains). vm_compute. discriminate.
Defined.

(** ** Date normalizer *)

(** C3.  The date normalizer of the parsers maps the three examples as
    stated: [BaseParser.normalize_date] maps the single date to the ISO
    date 2025-03-31, [BaseParser.extract_date_range] maps the range string
    to start 2025-04-08 and end 2025-04-17, and the whitespace-corrupted
    variant to the same pair as the clean range.  The helper class of
    utils.py agrees: [DateParser.parse_date_string] maps the single date
    to the datetime 2025-03-31 00:00:00, whose ISO date is 2025-03-31, and
    [DateParser.extract_date_range] maps the range string to the two
    datetimes of the same days, also from the corrupted variant when it
    is called, as it is meant to be, with a pattern that isolates the
    range. *)
Theorem date_normalization_examples :
  DateParser.parse_date_string single_date = Some (midnight 2025 3 31)
  /\ Datetime.strftime_Y_m_d (midnight 2025 3 31) = u "2025-03-31"
  /\ BaseParserDates.normalize_date (Some single_date) = Some (u "2025-03-31")
  /\ BaseParserDates.extract_date_range (Some clean_range)
     = (Some (u "2025-04-08"), Some (u "2025-04-17"))
  /\ BaseParserDates.extract_date_range (Some corrupted_range)
     = BaseParserDates.extract_date_range (Some clean_range)
  /\ DateParser.extract_date_range clean_range None
     = (Some (midnight 2025 4 8), Some (midnight 2025 4 17))
  /\ DateParser.extract_date_range corrupted_range (Some after_colon)
     = DateParser.extract_date_range clean_range None.
Proof. repeat apply conj; vm_compute; reflexivity. Qed.

(** [DateParser.extract_date_range] splits the text it is given at the
    separator: without a pattern the text has to be the range alone.  On
    a text that still carries the label the left part does not parse. *)
Lemma dateparser_needs_isolated_range :
  DateParser.extract_date_range corrupted_range None
    = (None, Some (midnight 2025 4 17)).
Proof. vm_compute. reflexivity. Qed.

(** With a pattern, [DateParser.extract_date_range] works on what the
    first group captured. *)
Lemma dateparser_pattern_isolates (text g : str) (p : Re.re) (c : Re.caps) :
  Re.search p text = Some c -> Re.group c 1 = Some g ->
  DateParser.extract_date_range text (Some p) = DateParser.extract_date_range g None.
Proof. intros Hs Hg. unfold DateParser.extract_date_range. rewrite Hs, Hg. reflexivity. Qed.

(** ** Parser contract *)

Section ParserContract.
Import BaseParser.
Context {Soup D : Type} `{P : Parser Soup D}.

Lemma parse_raise_title (soup : Soup) :
  get_title soup = Raise -> parse soup = None.
Proof. intros H. unfold parse. rewrite H. reflexivity. Qed.

Lemma parse_raise_later (soup : Soup) :
  get_date_range soup = Raise \/ get_attachment_url soup = Raise ->
  parse soup = None.
Proof.
  intros H. unfold parse.
  destruct (get_title soup) as [[[|x t]|]|]; try reflexivity.
  destruct (get_date_range soup) as [[s e]|]; [|reflexivity].
  destruct H as [H|H]; [discriminate H | rewrite H; reflexivity].
Qed.

Lemma parse_some_title (soup : Soup) (r : result D) :
  parse soup = Some r ->
  get_title soup = Ret (Some (case_name D r)) /\ case_name D r <> [].
Proof.
  unfold parse.
  destruct (get_title soup) as [[[|x t]|]|]; try discriminate.
  destruct (get_date_range soup) as [[s e]|]; [|discriminate].
  destruct (get_attachment_url soup) as [a|]; [|discriminate].
  intros [= <-]. simpl. split; [reflexivity | discriminate].
Qed.
End ParserContract.

(** C4, as stated, fails: on a page of the Shanghai site that has a title
    and no announcement period, but an attachment link whose href makes
    [urljoin] raise, the title is extracted, no date range is, and [parse]
    returns the failure value all the same. *)
Lemma parse_fails_on_bad_attachment_link :
  BaseParser.get_title page_with_bad_link = Ret (Some (u "某公司收购某公司股权案"))
  /\ BaseParser.get_date_range page_with_bad_link = Ret (None, None)
  /\ BaseParser.parse page_with_bad_link = None.
Proof. repeat apply conj; vm_compute; reflexivity. Qed.

(** C4, amended.  For every parser class and every page: when no title is
    extracted ([get_title] returns [None] or the empty string, or raises)
    [parse] returns the failure value [None]; when a title is extracted and
    [get_date_range] finds no range, and the attachment lookup returns
    normally, with a URL or without, [parse] succeeds with that title, both
    dates null and what the attachment lookup returned; when the date
    lookup or the attachment lookup raises, [parse] returns the failure
    value, whether a title was extracted or not.  So [parse] succeeds
    exactly when a non-empty title is extracted and neither of the other
    two lookups raises. *)
Theorem parse_missing_fields :
  forall (Soup D : Type) (P : BaseParser.Parser Soup D) (soup : Soup),
    ((BaseParser.get_title soup = Ret None \/ BaseParser.get_title soup = Ret (Some [])
      \/ BaseParser.get_title soup = Raise)
       -> BaseParser.parse soup = None)
    /\ (forall (title : str) (attachment : option str),
          BaseParser.get_title soup = Ret (Some title) ->
          title <> [] ->
          BaseParser.get_date_range soup = Ret (None, None) ->
          BaseParser.get_attachment_url soup = Ret attachment ->
          BaseParser.parse soup
            = Some (BaseParser.mkresult title None None attachment))
    /\ ((BaseParser.get_date_range soup = Raise \/
         BaseParser.get_attachment_url soup = Raise)
        -> BaseParser.parse soup = None)
    /\ (forall r : BaseParser.result D,
          BaseParser.parse soup = Some r <->
          BaseParser.case_name D r <> [] /\
          BaseParser.get_title soup = Ret (Some (BaseParser.case_name D r)) /\
          BaseParser.get_date_range soup
            = Ret (BaseParser.notice_start_date D r, BaseParser.notice_end_date D r) /\
          BaseParser.get_attachment_url soup = Ret (BaseParser.attachment_url D r)).
Proof.
  intros Soup D P soup. repeat apply conj.
  - intros [H|[H|H]]; unfold BaseParser.parse; rewrite H; reflexivity.
  - intros title attachment Ht Hne Hd Ha. unfold BaseParser.parse.
    rewrite Ht. destruct title as [|x t]; [congruence|]. rewrite Hd, Ha. reflexivity.
  - apply parse_raise_later.
  - intros r. split.
    + intros H. unfold BaseParser.parse in H.
      destruct (BaseParser.get_title soup) as [[[|x t]|]|]; try discriminate.
      destruct (BaseParser.get_date_range soup) as [[s0 e0]|]; [|discriminate].
      destruct (BaseParser.get_attachment_url soup) as [a|]; [|discriminate].
      injection H as <-. cbn. split; [discriminate|]. repeat apply conj; reflexivity.
    + intros (Hne & Ht & Hd & Ha). unfold BaseParser.parse. rewrite Ht.
      destruct r as [[|x t] s0 e0 a]; cbn in *; [congruence|].
      rewrite Hd, Ha. reflexivity.
Qed.

Lemma parse_missing_fields_witness :
  BaseParser.parse page_without_title = None
  /\ BaseParser.parse page_without_dates
     = Some (BaseParser.mkresult (u "某公司收购某公司股权案") None None
               (Some (u "https://scjgj.sh.gov.cn/a.doc")))
  /\ BaseParser.parse page_with_bad_link = None.
Proof.
  repeat apply conj.
  - apply (proj1 (parse_missing_fields _ _ ShanghaiParser.shanghai page_without_title)).
    left. vm_compute. reflexivity.
  - apply (proj1 (proj2 (parse_missing_fields _ _ ShanghaiParser.shanghai
                           page_without_dates))).
    + vm_compute. reflexivity.
    + vm_compute. discriminate.
    + vm_compute. reflexivity.
    + vm_compute. reflexivity.
  - apply (proj1 (proj2 (proj2 (parse_missing_fields _ _ ShanghaiParser.shanghai
                                  page_with_bad_link)))).
    right. vm_compute. reflexivity.
Defined.

(** ** Reconciliation: monotonic fill *)

Section WriteBack.
Import Store.
Context {D : Type}.

Lemma write_back_lookup (p : Case D -> bool) (ex ex' : Case D) (db : list (Case D))
      (i : nat) (r : Case D) :
  List.find p db = Some ex -> db !! i = Some r ->
  exists r', write_back p ex' db !! i = Some r' /\ (r' = r \/ (r = ex /\ r' = ex')).
Proof.
  revert i. induction db as [|r0 db IH]; intros i Hf Hi; [discriminate Hf|].
  simpl in Hf. simpl. destruct (p r0) eqn:E.
  - injection Hf as ->. destruct i as [|i]; simpl in *.
    + injection Hi as ->. exists ex'. split; [reflexivity | right; split; reflexivity].
    + exists r. split; [exact Hi | left; reflexivity].
  - destruct i as [|i]; simpl in *.
    + injection Hi as ->. exists r. split; [reflexivity | left; reflexivity].
    + exact (IH i Hf Hi).
Qed.

Lemma write_back_first (p : Case D -> bool) (ex ex' : Case D) (db : list (Case D)) :
  List.find p db = Some ex -> p ex' = true ->
  List.find p (write_back p ex' db) = Some ex'.
Proof.
  induction db as [|r0 db IH]; intros Hf Hp; [discriminate Hf|].
  simpl in Hf. simpl. destruct (p r0) eqn:E; simpl.
  - rewrite Hp. reflexivity.
  - rewrite E. exact (IH Hf Hp).
Qed.

Lemma write_back_in (p : Case D -> bool) (ex ex' : Case D) (db : list (Case D)) :
  List.find p db = Some ex -> In ex' (write_back p ex' db).
Proof.
  induction db as [|r0 db IH]; intros Hf; [discriminate Hf|].
  simpl in Hf. simpl. destruct (p r0); [left; reflexivity | right; exact (IH Hf)].
Qed.

Lemma find_name_is (name : option str) (db : list (Case D)) (ex : Case D) :
  List.find (name_is name) db = Some ex -> name_is name ex = true.
Proof. intros H. apply find_some in H. tauto. Qed.

Lemma monotone_fill_refl (a b : option D) (r : Case D) : monotone_fill a b r r.
Proof. unfold monotone_fill. tauto. Qed.

Lemma lookup_app_keeps (db extra : list (Case D)) (i : nat) (r : Case D) :
  db !! i = Some r -> (db ++ extra) !! i = Some r.
Proof. intros H. rewrite lookup_app_l; [exact H | eapply lookup_lt_Some; exact H]. Qed.

End WriteBack.

Lemma fill_null_cases {A} (col v : option A) :
  CaseScraperStore.fill_null col v = col \/
  (col = None /\ CaseScraperStore.fill_null col v = v /\ v <> None).
Proof. destruct col, v; simpl; try tauto. right. repeat split. discriminate. Qed.

Lemma save_to_db_monotone {D} (session_ok : bool) (now : N) (db : list (Store.Case D))
      (cd : CaseScraperStore.case_data D) (i : nat) (r : Store.Case D) :
  db !! i = Some r ->
  exists r', fst (CaseScraperStore.save_to_db session_ok now db cd) !! i = Some r' /\
    monotone_fill (CaseScraperStore.get (CaseScraperStore.cd_notice_start_date cd) None)
                  (CaseScraperStore.get (CaseScraperStore.cd_notice_end_date cd) None) r r'.
Proof.
  intros Hi. unfold CaseScraperStore.save_to_db.
  destruct session_ok; simpl; [|exists r; split; [exact Hi | apply monotone_fill_refl]].
  destruct (existsb _ db).
  - rewrite list_lookup_fmap, Hi. simpl.
    destruct (Store.name_is _ r).
    + eexists. split; [reflexivity|]. unfold monotone_fill. simpl.
      repeat apply conj; try reflexivity; apply fill_null_cases.
    + exists r. split; [reflexivity | apply monotone_fill_refl].
  - exists r. split; [apply lookup_app_keeps; exact Hi | apply monotone_fill_refl].
Qed.

Lemma beijing_monotone (c : Reconcile.ctx) (st : Reconcile.state Datetime.datetime)
      (title url : str) (i : nat) (r : Store.Case Datetime.datetime) :
  Reconcile.db st !! i = Some r ->
  exists r', Reconcile.db (fst (Reconcile.beijing_process_case c st title url)) !! i = Some r' /\
    monotone_fill (sighted_start c url) (sighted_end c url) r r'.
Proof.
  intros Hi. unfold Reconcile.beijing_process_case, sighted_start, sighted_end.
  destruct (Reconcile.parse_detail_page c url) as [d|];
    [|exists r; split; [exact Hi | apply monotone_fill_refl]].
  destruct (match Reconcile.attachment_url d with Some ((_ :: _) as aurl) => _ | _ => _ end)
    as [w new_path].
  destruct (Store.first_by_name (Some title) (Reconcile.db st)) as [ex|] eqn:Hf.
  - match goal with |- context [if ?b then _ else _] => destruct b end; simpl;
      [|exists r; split; [exact Hi | apply monotone_fill_refl]].
    destruct (write_back_lookup _ ex
                (Store.mkCase (Store.id ex) (Store.case_name ex)
                   (if negb (Reconcile.set_ (Store.notice_start_date ex))
                       && Reconcile.set_ (Reconcile.start_date d)
                    then Reconcile.start_date d else Store.notice_start_date ex)
                   (if negb (Reconcile.set_ (Store.notice_end_date ex))
                       && Reconcile.set_ (Reconcile.end_date d)
                    then Reconcile.end_date d else Store.notice_end_date ex)
                   (Store.source_url ex)
                   (if Reconcile.differs (Store.region ex) Reconcile.BEIJING
                    then Some Reconcile.BEIJING else Store.region ex)
                   (Store.attachment_path ex) (Store.created_at ex))
                _ i r Hf Hi) as (r' & Hr' & [-> | [-> ->]]).
    + exists r. split; [exact Hr' | apply monotone_fill_refl].
    + eexists. split; [exact Hr'|]. unfold monotone_fill. simpl.
      repeat apply conj; try reflexivity.
      * destruct (Store.notice_start_date ex), (Reconcile.start_date d); simpl;
          try (left; reflexivity). right. repeat split. discriminate.
      * destruct (Store.notice_end_date ex), (Reconcile.end_date d); simpl;
          try (left; reflexivity). right. repeat split. discriminate.
  - destruct (Reconcile.commit_ok c); simpl.
    + exists r. split; [apply lookup_app_keeps; exact Hi | apply monotone_fill_refl].
    + exists r. split; [exact Hi | apply monotone_fill_refl].
Qed.

Lemma chongqing_monotone (derive : str -> str -> res str) (c : Reconcile.ctx)
      (st : Reconcile.state Datetime.datetime)
      (title url : str) (i : nat) (r : Store.Case Datetime.datetime) :
  Reconcile.db st !! i = Some r ->
  exists r',
    Reconcile.db (fst (Chongqing.chongqing_process_case derive c st title url)) !! i
      = Some r' /\
    monotone_fill (sighted_start c url) (sighted_end c url) r r'.
Proof.
  intros Hi. unfold Chongqing.chongqing_process_case, sighted_start, sighted_end.
  destruct (Reconcile.parse_detail_page c url) as [d|];
    [|exists r; split; [exact Hi | apply monotone_fill_refl]].
  destruct (match Reconcile.attachment_url d with Some ((_ :: _) as aurl) => _ | _ => _ end)
    as [w new_path].
  destruct (Store.first_by_name (Some title) (Reconcile.db st)) as [ex|] eqn:Hf.
  - match goal with |- context [if ?b then _ else _] => destruct b end; simpl;
      [|exists r; split; [exact Hi | apply monotone_fill_refl]].
    match goal with
    | |- context [Store.write_back _ ?e _] =>
        destruct (write_back_lookup _ ex e _ i r Hf Hi) as (r' & Hr' & [-> | [-> ->]])
    end.
    + exists r. split; [exact Hr' | apply monotone_fill_refl].
    + eexists. split; [exact Hr'|]. unfold monotone_fill. simpl.
      repeat apply conj; try reflexivity.
      * destruct (Store.notice_start_date ex), (Reconcile.start_date d); simpl;
          try (left; reflexivity). right. repeat split. discriminate.
      * destruct (Store.notice_end_date ex), (Reconcile.end_date d); simpl;
          try (left; reflexivity). right. repeat split. discriminate.
  - destruct (Reconcile.commit_ok c); simpl.
    + exists r. split; [apply lookup_app_keeps; exact Hi | apply monotone_fill_refl].
    + exists r. split; [exact Hi | apply monotone_fill_refl].
Qed.

(** [ShanghaiScraper.process_case] fills the dates in the same way; being
    written with Python truthiness, it protects an attachment path that
    is a non-empty string. *)
Lemma shanghai_monotone (c : Reconcile.ctx) (st : Reconcile.state Datetime.datetime)
      (title url : str) (i : nat) (r : Store.Case Datetime.datetime) :
  Reconcile.db st !! i = Some r ->
  exists r',
    Reconcile.db (fst (Reconcile.shanghai_process_case c st title url)) !! i = Some r' /\
    (Store.notice_start_date r' = Store.notice_start_date r \/
     (Store.notice_start_date r = None /\ Store.notice_start_date r' = sighted_start c url /\
      sighted_start c url <> None)) /\
    (Store.notice_end_date r' = Store.notice_end_date r \/
     (Store.notice_end_date r = None /\ Store.notice_end_date r' = sighted_end c url /\
      sighted_end c url <> None)) /\
    (forall x s, Store.attachment_path r = Some (x :: s) ->
                 Store.attachment_path r' = Some (x :: s)).
Proof.
  intros Hi.
  assert (Hsame : exists r', Reconcile.db st !! i = Some r' /\
    (Store.notice_start_date r' = Store.notice_start_date r \/
     (Store.notice_start_date r = None /\ Store.notice_start_date r' = sighted_start c url /\
      sighted_start c url <> None)) /\
    (Store.notice_end_date r' = Store.notice_end_date r \/
     (Store.notice_end_date r = None /\ Store.notice_end_date r' = sighted_end c url /\
      sighted_end c url <> None)) /\
    (forall x s, Store.attachment_path r = Some (x :: s) ->
                 Store.attachment_path r' = Some (x :: s))).
  { exists r. repeat apply conj; auto. }
  unfold Reconcile.shanghai_process_case, sighted_start, sighted_end in *.
  destruct (Reconcile.parse_detail_page c url) as [d|]; [|exact Hsame].
  destruct (Store.first_by_name (Some title) (Reconcile.db st)) as [ex|] eqn:Hf.
  - destruct (match Reconcile.attachment_url d with Some ((_ :: _) as aurl) => _ | _ => _ end)
      as [w new_path].
    match goal with |- context [if ?b then _ else _] => destruct b end; simpl;
      [|exact Hsame].
    match goal with
    | |- context [Store.write_back _ ?e _] =>
        destruct (write_back_lookup _ ex e _ i r Hf Hi) as (r' & Hr' & [-> | [-> ->]])
    end.
    + exists r. split; [exact Hr'|]. repeat apply conj; auto.
    + eexists. split; [exact Hr'|]. simpl. repeat apply conj.
      * destruct (Store.notice_start_date ex), (Reconcile.start_date d); simpl;
          try (left; reflexivity). right. repeat split. discriminate.
      * destruct (Store.notice_end_date ex), (Reconcile.end_date d); simpl;
          try (left; reflexivity). right. repeat split. discriminate.
      * intros x s Hx. rewrite Hx. simpl. rewrite andb_false_r. reflexivity.
  - destruct (match Reconcile.attachment_url d with Some ((_ :: _) as aurl) => _ | _ => _ end)
      as [w new_path].
    destruct (Reconcile.commit_ok c); simpl; [|exact Hsame].
    exists r. split; [apply lookup_app_keeps; exact Hi|]. repeat apply conj; auto.
Qed.

Lemma shaanxi_lookup_finds (db : list (Store.Case Datetime.datetime)) (q : str)
      (dt key : option str) (ex : Store.Case Datetime.datetime) :
  Shaanxi.lookup db q dt = Some (key, ex) -> List.find (Store.name_is key) db = Some ex.
Proof.
  unfold Shaanxi.lookup, Store.first_by_name.
  destruct (List.find (Store.name_is (Some q)) db) as [e1|] eqn:H1.
  - intros [= <- <-]. exact H1.
  - destruct (truthy dt && negb (bool_decide (dt = Some q))); [|discriminate].
    destruct (List.find (Store.name_is dt) db) as [e2|] eqn:H2; [|discriminate].
    intros [= <- <-]. exact H2.
Qed.

(** [ShaanxiScraper.process_case] keeps every row in its place and keeps
    an attachment path that is a non-empty string; the row of the case
    sighted gets both dates of the detail page, whatever it held. *)
Lemma shaanxi_latest_dates (c : Shaanxi.ctx) (st : Reconcile.state Datetime.datetime)
      (title url : option str) (i : nat) (r : Store.Case Datetime.datetime) :
  Reconcile.db st !! i = Some r ->
  exists r',
    Reconcile.db (fst (Shaanxi.shaanxi_process_case c st title url)) !! i = Some r' /\
    (forall x s, Store.attachment_path r = Some (x :: s) ->
                 Store.attachment_path r' = Some (x :: s)) /\
    (r' = r \/
     exists v d, url = Some v /\ Shaanxi.parse_detail_page c v = Some d /\
                 Store.notice_start_date r' = Shaanxi.start_date d /\
                 Store.notice_end_date r' = Shaanxi.end_date d).
Proof.
  intros Hi.
  assert (Hsame : exists r', Reconcile.db st !! i = Some r' /\
    (forall x s, Store.attachment_path r = Some (x :: s) ->
                 Store.attachment_path r' = Some (x :: s)) /\
    (r' = r \/
     exists v d, url = Some v /\ Shaanxi.parse_detail_page c v = Some d /\
                 Store.notice_start_date r' = Shaanxi.start_date d /\
                 Store.notice_end_date r' = Shaanxi.end_date d)).
  { exists r. repeat apply conj; auto. }
  unfold Shaanxi.shaanxi_process_case.
  destruct title as [[|q0 q]|]; try exact Hsame.
  destruct url as [[|v0 v]|]; try exact Hsame.
  destruct (Shaanxi.parse_detail_page c (v0 :: v)) as [d|] eqn:Hd; [|exact Hsame].
  destruct (Shaanxi.lookup (Reconcile.db st) (q0 :: q) (Shaanxi.title d))
    as [[key ex]|] eqn:Hl.
  - apply shaanxi_lookup_finds in Hl.
    destruct (negb (truthy (Store.attachment_path ex))
              && truthy (Shaanxi.attachment_url d)) eqn:Hp.
    + destruct (Regional.download_attachment _ _ _ _ _ _) as [w [[|p0 p]|]];
        (destruct (Shaanxi.commit_ok c); cbn [fst Reconcile.db]; [|exact Hsame];
         match goal with
         | |- context [Store.write_back _ ?e _] =>
             destruct (write_back_lookup _ ex e _ i r Hl Hi) as (r' & Hr' & [-> | [-> ->]])
         end;
         [exists r; repeat apply conj; auto
         |eexists; split; [exact Hr'|]; cbn [Store.attachment_path Store.notice_start_date
                                              Store.notice_end_date]; split;
          [intros x s Hx; rewrite Hx in Hp; discriminate Hp
          |right; exists (v0 :: v), d; repeat apply conj; auto;
           match goal with
           | |- context [bool_decide ?P] => destruct (bool_decide_reflect P)
           end; congruence]]).
    + destruct (Shaanxi.commit_ok c); cbn [fst Reconcile.db]; [|exact Hsame].
      match goal with
      | |- context [Store.write_back _ ?e _] =>
          destruct (write_back_lookup _ ex e _ i r Hl Hi) as (r' & Hr' & [-> | [-> ->]])
      end.
      * exists r. repeat apply conj; auto.
      * eexists. split; [exact Hr'|].
        cbn [Store.attachment_path Store.notice_start_date Store.notice_end_date].
        split; [auto|].
        right. exists (v0 :: v), d. repeat apply conj; auto;
          match goal with
          | |- context [bool_decide ?P] => destruct (bool_decide_reflect P)
          end; congruence.
  - match goal with |- context [if ?b then _ else _] => destruct b end; [exact Hsame|].
    destruct (if truthy (Shaanxi.attachment_url d) then _ else _) as [w path].
    destruct (Shaanxi.commit_ok c); cbn [fst Reconcile.db]; [|exact Hsame].
    exists r. split; [apply lookup_app_keeps; exact Hi|]. auto.
Qed.

(** When the case is stored under the title of the list page and the
    commit succeeds, its row does get the dates of the detail page. *)
Lemma shaanxi_sets_dates (c : Shaanxi.ctx) (st : Reconcile.state Datetime.datetime)
      (q v : str) (d : Shaanxi.detail) (ex : Store.Case Datetime.datetime) :
  q <> [] -> v <> [] -> Shaanxi.commit_ok c = true ->
  Shaanxi.parse_detail_page c v = Some d ->
  Store.first_by_name (Some q) (Reconcile.db st) = Some ex ->
  exists ex',
    In ex' (Reconcile.db (fst (Shaanxi.shaanxi_process_case c st (Some q) (Some v)))) /\
    Store.id ex' = Store.id ex /\
    Store.notice_start_date ex' = Shaanxi.start_date d /\
    Store.notice_end_date ex' = Shaanxi.end_date d.
Proof.
  intros Hq Hv Hc Hd Hf. unfold Shaanxi.shaanxi_process_case.
  destruct q as [|q0 q]; [congruence|]. destruct v as [|v0 v]; [congruence|].
  rewrite Hd. unfold Shaanxi.lookup. rewrite Hf, Hc.
  assert (Hdates : forall (a b : option Datetime.datetime),
             (if bool_decide (a = b) then a else b) = b).
  { intros a b. destruct (bool_decide_reflect (a = b)); congruence. }
  destruct (negb (truthy (Store.attachment_path ex))
            && truthy (Shaanxi.attachment_url d)).
  - destruct (Regional.download_attachment _ _ _ _ _ _) as [w [[|p0 p]|]];
      cbn [fst Reconcile.db];
      (eexists; split; [eapply write_back_in; exact Hf|];
       cbn [Store.id Store.notice_start_date Store.notice_end_date];
       rewrite !Hdates; repeat apply conj; reflexivity).
  - cbn [fst Reconcile.db].
    eexists; split; [eapply write_back_in; exact Hf|].
    cbn [Store.id Store.notice_start_date Store.notice_end_date].
    rewrite !Hdates. repeat apply conj; reflexivity.
Qed.

Lemma save_to_db_kept_or_filled {D} (session_ok : bool) (now : N)
      (db : list (Store.Case D)) (cd : CaseScraperStore.case_data D)
      (i : nat) (r : Store.Case D) :
  db !! i = Some r ->
  exists r', fst (CaseScraperStore.save_to_db session_ok now db cd) !! i = Some r' /\
    kept_or_filled (CaseScraperStore.get (CaseScraperStore.cd_notice_start_date cd) None)
                   (CaseScraperStore.get (CaseScraperStore.cd_notice_end_date cd) None) r r'.
Proof.
  intros Hi.
  destruct (save_to_db_monotone session_ok now db cd i r Hi)
    as (r' & Hr' & Hid & Hn & Hs & He & Hp).
  exists r'. split; [exact Hr'|]. unfold kept_or_filled. repeat apply conj; auto.
  - destruct Hs as [Hs|(H1 & H2 & H3)]; [left; exact Hs|]. right. rewrite H2. auto.
  - destruct He as [He|(H1 & H2 & H3)]; [left; exact He|]. right. rewrite H2. auto.
Qed.

(** C1, as stated, fails for [ShaanxiScraper.process_case]: a stored case
    whose start date is 8 April 2025, sighted again by the Shaanxi scraper
    on a detail page that gives 1 May 2025, has 1 May 2025 afterwards; and
    sighted on a page that gives no dates, it has none afterwards. *)
Lemma shaanxi_overwrites_stored_date :
  List.map Store.notice_start_date (Reconcile.db dated_state)
    = [Some (midnight 2025 4 8)]
  /\ List.map Store.notice_start_date
       (Reconcile.db (fst (Shaanxi.shaanxi_process_case shaanxi_other_dates_ctx dated_state
                             (Some (u "某案"))
                             (Some (u "https://snamr.shaanxi.gov.cn/1.html")))))
     = [Some (midnight 2025 5 1)]
  /\ List.map Store.notice_start_date
       (Reconcile.db (fst (Shaanxi.shaanxi_process_case shaanxi_no_dates_ctx dated_state
                             (Some (u "某案"))
                             (Some (u "https://snamr.shaanxi.gov.cn/1.html")))))
     = [None].
Proof. repeat apply conj; vm_compute; reflexivity. Qed.

(** The Shanghai and Shaanxi scrapers test the stored attachment path with
    Python truthiness: a path that is the empty string, though not null,
    counts as missing and is replaced. *)
Lemma shanghai_replaces_empty_path :
  List.map Store.attachment_path (Reconcile.db stored_empty_path_state) = [Some []]
  /\ List.map Store.attachment_path
       (Reconcile.db (fst (Reconcile.shanghai_process_case shanghai_attachment_ctx
                             stored_empty_path_state (u "某案")
                             (u "https://scjgj.sh.gov.cn/1.html"))))
     = [Some (u "data/attachments/附件.doc")].
Proof. split; vm_compute; reflexivity. Qed.

(** C1, amended.  Monotonic fill holds of [CaseScraper.save_to_db] and of
    [process_case] of the Beijing, Shanghai and Chongqing scrapers: one
    reconciliation keeps every stored row in its place, a start date or
    end date that is present stays what it is, whatever the sighting
    carries, and a date is set only when the stored one is null and the
    extracted one is not.  [save_to_db] and the Beijing and Chongqing
    scrapers never change a stored attachment path; the Shanghai scraper
    keeps one that is a non-empty string.  [ShaanxiScraper.process_case]
    updates an existing case with the latest data: it too keeps every row
    in its place and an attachment path that is a non-empty string, but
    the row of the case sighted gets both dates of the detail page, also
    in place of dates that were present and also when the page has
    none. *)
Theorem reconciliation_fills_monotonically :
  (forall (D : Type) (session_ok : bool) (now : N) (db : list (Store.Case D))
          (cd : CaseScraperStore.case_data D) (i : nat) (r : Store.Case D),
     db !! i = Some r ->
     exists r',
       fst (CaseScraperStore.save_to_db session_ok now db cd) !! i = Some r' /\
       kept_or_filled (CaseScraperStore.get (CaseScraperStore.cd_notice_start_date cd) None)
                      (CaseScraperStore.get (CaseScraperStore.cd_notice_end_date cd) None)
                      r r' /\
       (forall x, Store.notice_start_date r = Some x -> Store.notice_start_date r' = Some x) /\
       (forall x, Store.notice_end_date r = Some x -> Store.notice_end_date r' = Some x) /\
       (forall x, Store.attachment_path r = Some x -> Store.attachment_path r' = Some x))
  /\
  (forall (c : Reconcile.ctx) (st : Reconcile.state Datetime.datetime)
          (title url : str) (i : nat) (r : Store.Case Datetime.datetime),
     Reconcile.db st !! i = Some r ->
     exists r',
       Reconcile.db (fst (Reconcile.beijing_process_case c st title url)) !! i = Some r' /\
       monotone_fill (sighted_start c url) (sighted_end c url) r r' /\
       (forall x, Store.notice_start_date r = Some x -> Store.notice_start_date r' = Some x) /\
       (forall x, Store.notice_end_date r = Some x -> Store.notice_end_date r' = Some x) /\
       (forall x, Store.attachment_path r = Some x -> Store.attachment_path r' = Some x))
  /\
  (forall (derive : str -> str -> res str) (c : Reconcile.ctx)
          (st : Reconcile.state Datetime.datetime)
          (title url : str) (i : nat) (r : Store.Case Datetime.datetime),
     Reconcile.db st !! i = Some r ->
     exists r',
       Reconcile.db (fst (Chongqing.chongqing_process_case derive c st title url)) !! i
         = Some r' /\
       monotone_fill (sighted_start c url) (sighted_end c url) r r' /\
       (forall x, Store.notice_start_date r = Some x -> Store.notice_start_date r' = Some x) /\
       (forall x, Store.notice_end_date r = Some x -> Store.notice_end_date r' = Some x) /\
       (forall x, Store.attachment_path r = Some x -> Store.attachment_path r' = Some x))
  /\
  (forall (c : Reconcile.ctx) (st : Reconcile.state Datetime.datetime)
          (title url : str) (i : nat) (r : Store.Case Datetime.datetime),
     Reconcile.db st !! i = Some r ->
     exists r',
       Reconcile.db (fst (Reconcile.shanghai_process_case c st title url)) !! i = Some r' /\
       (Store.notice_start_date r' = Store.notice_start_date r \/
        (Store.notice_start_date r = None /\
         Store.notice_start_date r' = sighted_start c url /\ sighted_start c url <> None)) /\
       (Store.notice_end_date r' = Store.notice_end_date r \/
        (Store.notice_end_date r = None /\
         Store.notice_end_date r' = sighted_end c url /\ sighted_end c url <> None)) /\
       (forall x, Store.notice_start_date r = Some x -> Store.notice_start_date r' = Some x) /\
       (forall x, Store.notice_end_date r = Some x -> Store.notice_end_date r' = Some x) /\
       (forall x s, Store.attachment_path r = Some (x :: s) ->
                    Store.attachment_path r' = Some (x :: s)))
  /\
  (forall (c : Shaanxi.ctx) (st : Reconcile.state Datetime.datetime)
          (title url : option str) (i : nat) (r : Store.Case Datetime.datetime),
     Reconcile.db st !! i = Some r ->
     exists r',
       Reconcile.db (fst (Shaanxi.shaanxi_process_case c st title url)) !! i = Some r' /\
       (forall x s, Store.attachment_path r = Some (x :: s) ->
                    Store.attachment_path r' = Some (x :: s)) /\
       (r' = r \/
        exists v d, url = Some v /\ Shaanxi.parse_detail_page c v = Some d /\
                    Store.notice_start_date r' = Shaanxi.start_date d /\
                    Store.notice_end_date r' = Shaanxi.end_date d))
  /\
  (forall (c : Shaanxi.ctx) (st : Reconcile.state Datetime.datetime)
          (q v : str) (d : Shaanxi.detail) (ex : Store.Case Datetime.datetime),
     q <> [] -> v <> [] -> Shaanxi.commit_ok c = true ->
     Shaanxi.parse_detail_page c v = Some d ->
     Store.first_by_name (Some q) (Reconcile.db st) = Some ex ->
     exists ex',
       In ex' (Reconcile.db (fst (Shaanxi.shaanxi_process_case c st (Some q) (Some v)))) /\
       Store.id ex' = Store.id ex /\
       Store.notice_start_date ex' = Shaanxi.start_date d /\
       Store.notice_end_date ex' = Shaanxi.end_date d).
Proof.
  assert (Hm : forall D (a b : option D) (r r' : Store.Case D),
            monotone_fill a b r r' ->
            (forall x, Store.notice_start_date r = Some x -> Store.notice_start_date r' = Some x) /\
            (forall x, Store.notice_end_date r = Some x -> Store.notice_end_date r' = Some x) /\
            (forall x, Store.attachment_path r = Some x -> Store.attachment_path r' = Some x)).
  { intros D a b r r' (_ & _ & Hs & He & Hp). repeat apply conj; intros x Hx.
    - destruct Hs as [-> | [Hn _]]; congruence.
    - destruct He as [-> | [Hn _]]; congruence.
    - congruence. }
  repeat apply conj.
  - intros D session_ok now db cd i r Hi.
    destruct (save_to_db_monotone session_ok now db cd i r Hi) as (r' & Hr' & Hfill).
    destruct (save_to_db_kept_or_filled session_ok now db cd i r Hi) as (r2 & Hr2 & Hk).
    assert (r2 = r') by congruence. subst r2.
    exists r'. split; [exact Hr'|]. split; [exact Hk|]. exact (Hm _ _ _ _ _ Hfill).
  - intros c st title url i r Hi.
    destruct (beijing_monotone c st title url i r Hi) as (r' & Hr' & Hfill).
    exists r'. split; [exact Hr'|]. split; [exact Hfill|]. exact (Hm _ _ _ _ _ Hfill).
  - intros derive c st title url i r Hi.
    destruct (chongqing_monotone derive c st title url i r Hi) as (r' & Hr' & Hfill).
    exists r'. split; [exact Hr'|]. split; [exact Hfill|]. exact (Hm _ _ _ _ _ Hfill).
  - intros c st title url i r Hi.
    destruct (shanghai_monotone c st title url i r Hi) as (r' & Hr' & Hs & He & Hp).
    exists r'. repeat apply conj; auto.
    + intros x Hx. destruct Hs as [-> | [Hn _]]; congruence.
    + intros x Hx. destruct He as [-> | [Hn _]]; congruence.
  - intros c st title url i r Hi.
    exact (shaanxi_latest_dates c st title url i r Hi).
  - intros c st q v d ex Hq Hv Hc Hd Hf.
    exact (shaanxi_sets_dates c st q v d ex Hq Hv Hc Hd Hf).
Qed.

Lemma reconciliation_fills_monotonically_witness :
  (exists r',
     fst (CaseScraperStore.save_to_db true 7 [stored_text_dated_case] shanghai_sighting)
       !! 0%nat = Some r' /\
     CaseScraperStore.get (CaseScraperStore.cd_notice_start_date shanghai_sighting) None
       = Some (u "2025-04-08") /\
     Store.notice_start_date r' = Some (u "2025-03-01") /\
     Store.notice_end_date r' = Some (u "2025-03-10") /\
     Store.attachment_path r' = Some (u "data/attachments/old.doc")) /\
  (exists r',
     Reconcile.db (fst (Reconcile.beijing_process_case other_dates_ctx dated_state
                          (u "某案") (u "https://scjgj.beijing.gov.cn/1.html"))) !! 0%nat
       = Some r' /\
     sighted_start other_dates_ctx (u "https://scjgj.beijing.gov.cn/1.html")
       = Some (midnight 2025 5 1) /\
     Store.notice_start_date r' = Some (midnight 2025 4 8)) /\
  (exists r',
     Reconcile.db (fst (Reconcile.shanghai_process_case other_dates_ctx dated_state
                          (u "某案") (u "https://scjgj.sh.gov.cn/1.html"))) !! 0%nat
       = Some r' /\
     Store.notice_start_date r' = Some (midnight 2025 4 8)) /\
  (exists r',
     In r' (Reconcile.db (fst (Shaanxi.shaanxi_process_case shaanxi_other_dates_ctx
                                 dated_state (Some (u "某案"))
                                 (Some (u "https://snamr.shaanxi.gov.cn/1.html"))))) /\
     Store.id r' = 1%N /\
     Store.notice_start_date r' = Some (midnight 2025 5 1)).
Proof.
  repeat apply conj.
  - destruct (proj1 reconciliation_fills_monotonically str true 7 [stored_text_dated_case]
                shanghai_sighting 0%nat stored_text_dated_case eq_refl)
      as (r' & Hr' & _ & Hs & He & Hp).
    exists r'. repeat apply conj;
      [exact Hr' | reflexivity | exact (Hs _ eq_refl) | exact (He _ eq_refl)
      | exact (Hp _ eq_refl)].
  - destruct (proj1 (proj2 reconciliation_fills_monotonically) other_dates_ctx dated_state
                (u "某案") (u "https://scjgj.beijing.gov.cn/1.html") 0%nat stored_dated_case
                eq_refl)
      as (r' & Hr' & _ & Hs & _).
    exists r'. repeat apply conj; [exact Hr' | reflexivity | exact (Hs _ eq_refl)].
  - destruct (proj1 (proj2 (proj2 (proj2 reconciliation_fills_monotonically)))
                other_dates_ctx dated_state
                (u "某案") (u "https://scjgj.sh.gov.cn/1.html") 0%nat stored_dated_case
                eq_refl)
      as (r' & Hr' & _ & _ & Hs & _).
    exists r'. split; [exact Hr' | exact (Hs _ eq_refl)].
  - destruct (proj2 (proj2 (proj2 (proj2 (proj2 reconciliation_fills_monotonically))))
                shaanxi_other_dates_ctx dated_state (u "某案")
                (u "https://snamr.shaanxi.gov.cn/1.html")
                (Shaanxi.mkdetail (Some (u "某案")) (Some (midnight 2025 5 1))
                   (Some (midnight 2025 5 10)) None)
                stored_dated_case
                ltac:(vm_compute; discriminate) ltac:(vm_compute; discriminate)
                eq_refl eq_refl eq_refl)
      as (r' & Hin & Hid & Hs & _).
    exists r'. repeat apply conj; [exact Hin | exact Hid | exact Hs].
Defined.

(** ** Reconciliation: region *)

(** C2, as stated, fails for [CaseScraper.save_to_db]: a stored case whose
    region is Beijing, sighted again with region Shanghai, keeps Beijing. *)
Lemma save_to_db_keeps_mismatching_region :
  List.map Store.region
    (fst (CaseScraperStore.save_to_db true 7 [stored_beijing_case] shanghai_sighting))
    = [Some (u "北京")]
  /\ CaseScraperStore.get (CaseScraperStore.cd_region shanghai_sighting) (Some [])
     = Some (u "上海")
  /\ snd (CaseScraperStore.save_to_db true 7 [stored_beijing_case] shanghai_sighting) = true.
Proof. repeat apply conj; vm_compute; reflexivity. Qed.

Lemma differs_false (x : option str) (label : str) :
  Reconcile.differs x label = false -> x = Some label.
Proof.
  unfold Reconcile.differs. case_bool_decide as E; [intros _; exact E | discriminate].
Qed.

Lemma shanghai_corrects_region (c : Reconcile.ctx) (st : Reconcile.state Datetime.datetime)
      (title url : str) (ex : Store.Case Datetime.datetime) (d : Reconcile.detail) :
  Store.first_by_name (Some title) (Reconcile.db st) = Some ex ->
  Reconcile.parse_detail_page c url = Some d ->
  Reconcile.commit_ok c = true ->
  exists ex',
    Store.first_by_name (Some title)
      (Reconcile.db (fst (Reconcile.shanghai_process_case c st title url))) = Some ex' /\
    Store.id ex' = Store.id ex /\
    Store.region ex' = Some Reconcile.SHANGHAI.
Proof.
  intros Hf Hp Hc. unfold Reconcile.shanghai_process_case. rewrite Hp, Hf, Hc.
  destruct (match Reconcile.attachment_url d with Some ((_ :: _) as aurl) => _ | _ => _ end)
    as [w new_path].
  rewrite andb_true_r.
  destruct (Reconcile.differs (Store.region ex) Reconcile.SHANGHAI) eqn:Hd.
  - rewrite !orb_true_r. simpl. eexists. split.
    + unfold Store.first_by_name. eapply write_back_first; [exact Hf|].
      apply find_name_is in Hf. exact Hf.
    + split; reflexivity.
  - apply differs_false in Hd.
    match goal with |- context [if ?b then _ else _] => destruct b eqn:Hb end; simpl.
    + eexists. split.
      * unfold Store.first_by_name. eapply write_back_first; [exact Hf|].
        apply find_name_is in Hf. exact Hf.
      * split; [reflexivity | exact Hd].
    + exists ex. split; [exact Hf | split; [reflexivity | exact Hd]].
Qed.

Lemma beijing_corrects_region (c : Reconcile.ctx) (st : Reconcile.state Datetime.datetime)
      (title url : str) (ex : Store.Case Datetime.datetime) (d : Reconcile.detail) :
  Store.first_by_name (Some title) (Reconcile.db st) = Some ex ->
  Reconcile.parse_detail_page c url = Some d ->
  Reconcile.commit_ok c = true ->
  exists ex',
    Store.first_by_name (Some title)
      (Reconcile.db (fst (Reconcile.beijing_process_case c st title url))) = Some ex' /\
    Store.id ex' = Store.id ex /\
    Store.region ex' = Some Reconcile.BEIJING.
Proof.
  intros Hf Hp Hc. unfold Reconcile.beijing_process_case. rewrite Hp, Hf, Hc.
  destruct (match Reconcile.attachment_url d with Some ((_ :: _) as aurl) => _ | _ => _ end)
    as [w new_path].
  rewrite andb_true_r.
  destruct (Reconcile.differs (Store.region ex) Reconcile.BEIJING) eqn:Hd.
  - simpl. eexists. split.
    + unfold Store.first_by_name. eapply write_back_first; [exact Hf|].
      apply find_name_is in Hf. exact Hf.
    + split; reflexivity.
  - apply differs_false in Hd.
    match goal with |- context [if ?b then _ else _] => destruct b eqn:Hb end; simpl.
    + eexists. split.
      * unfold Store.first_by_name. eapply write_back_first; [exact Hf|].
        apply find_name_is in Hf. exact Hf.
      * split; [reflexivity | exact Hd].
    + exists ex. split; [exact Hf | split; [reflexivity | exact Hd]].
Qed.

(** C2, amended.  The regional reconcilers correct the region: when
    [ShanghaiScraper.process_case] (resp. [BeijingScraper.process_case])
    finds the case stored, its detail page parses and the commit succeeds,
    the stored region is afterwards the source's own, whatever it was.
    [CaseScraper.save_to_db] does not overwrite: on the rows of the sighted
    case it sets the region to the non-empty region of the source when
    the stored region is NULL or empty, and leaves a non-empty stored
    region unchanged. *)
Theorem region_correction_by_source :
  (forall (c : Reconcile.ctx) (st : Reconcile.state Datetime.datetime)
          (title url : str) (ex : Store.Case Datetime.datetime) (d : Reconcile.detail),
     Store.first_by_name (Some title) (Reconcile.db st) = Some ex ->
     Reconcile.parse_detail_page c url = Some d ->
     Reconcile.commit_ok c = true ->
     (exists ex',
        Store.first_by_name (Some title)
          (Reconcile.db (fst (Reconcile.shanghai_process_case c st title url))) = Some ex' /\
        Store.id ex' = Store.id ex /\ Store.region ex' = Some Reconcile.SHANGHAI) /\
     (exists ex',
        Store.first_by_name (Some title)
          (Reconcile.db (fst (Reconcile.beijing_process_case c st title url))) = Some ex' /\
        Store.id ex' = Store.id ex /\ Store.region ex' = Some Reconcile.BEIJING))
  /\
  (forall (D : Type) (now : N) (db : list (Store.Case D))
          (cd : CaseScraperStore.case_data D) (i : nat) (r : Store.Case D),
     db !! i = Some r ->
     Store.name_is (CaseScraperStore.get (CaseScraperStore.cd_title cd)
                      (CaseScraperStore.get (CaseScraperStore.cd_case_name cd) None)) r = true ->
     exists r',
       fst (CaseScraperStore.save_to_db true now db cd) !! i = Some r' /\
       (forall x s, Store.region r = Some (x :: s) -> Store.region r' = Some (x :: s)) /\
       (forall x s, (Store.region r = None \/ Store.region r = Some []) ->
                    CaseScraperStore.get (CaseScraperStore.cd_region cd) (Some []) = Some (x :: s) ->
                    Store.region r' = Some (x :: s))).
Proof.
  split.
  - intros c st title url ex d Hf Hp Hc. split.
    + exact (shanghai_corrects_region c st title url ex d Hf Hp Hc).
    + exact (beijing_corrects_region c st title url ex d Hf Hp Hc).
  - intros D now db cd i r Hi Hn. unfold CaseScraperStore.save_to_db. simpl.
    assert (He : existsb (Store.name_is (CaseScraperStore.get (CaseScraperStore.cd_title cd)
                      (CaseScraperStore.get (CaseScraperStore.cd_case_name cd) None))) db = true).
    { apply existsb_exists. exists r. split; [|exact Hn].
      apply list_elem_of_In. eapply list_elem_of_lookup_2. exact Hi. }
    rewrite He, list_lookup_fmap, Hi. simpl. rewrite Hn.
    eexists. split; [reflexivity|]. simpl. split.
    + intros x s Hr. rewrite Hr. simpl.
      destruct (CaseScraperStore.get (CaseScraperStore.cd_region cd) (Some [])) as [[|]|];
        reflexivity.
    + intros x s [Hr|Hr] Hv; rewrite Hr, Hv; reflexivity.
Qed.

Lemma region_correction_by_source_witness :
  (exists ex',
     Store.first_by_name (Some (u "某案"))
       (Reconcile.db (fst (Reconcile.shanghai_process_case other_dates_ctx dated_state
                             (u "某案") (u "https://scjgj.sh.gov.cn/1.html")))) = Some ex' /\
     Store.region ex' = Some Reconcile.SHANGHAI) /\
  (exists r',
     fst (CaseScraperStore.save_to_db true 7 [stored_beijing_case] shanghai_sighting) !! 0%nat
       = Some r' /\
     Store.region r' = Some (u "北京")).
Proof.
  split.
  - destruct (proj1 (proj1 region_correction_by_source other_dates_ctx dated_state
                       (u "某案") (u "https://scjgj.sh.gov.cn/1.html") stored_dated_case
                       (Reconcile.mkdetail (Some (midnight 2025 5 1)) (Some (midnight 2025 5 10))
                          None None)
                       eq_refl eq_refl eq_refl))
      as (ex' & Hex' & _ & Hr).
    exists ex'. split; [exact Hex' | exact Hr].
  - destruct (proj2 region_correction_by_source str 7 [stored_beijing_case]
                shanghai_sighting 0%nat stored_beijing_case eq_refl eq_refl)
      as (r' & Hr' & Hkeep & _).
    exists r'. split; [exact Hr'|].
    exact (Hkeep 21271 [20140] eq_refl).
Defined.

(** ** Dedup maintenance *)

(** C5, as stated, fails for rows that share an empty or a NULL
    [source_url]: step 2 of the pass counts only non-NULL, non-empty
    values, finds no duplicates and returns before deleting anything. *)
Lemma dedup_keeps_rows_sharing_empty_url :
  length (Dedup.group_of (Some []) two_rows_empty_url) = 2%nat
  /\ Dedup.deduplicate_by_source_url two_rows_empty_url = two_rows_empty_url
  /\ length (Dedup.group_of None two_rows_null_url) = 2%nat
  /\ Dedup.deduplicate_by_source_url two_rows_null_url = two_rows_null_url.
Proof. repeat apply conj; vm_compute; reflexivity. Qed.

Section DedupFacts.
Import Store Dedup.
Context {D : Type}.
Implicit Types (db rows : list (Case D)) (r : Case D).

Lemma max_rowid_ge rows r : In r rows -> (id r <= max_rowid rows)%N.
Proof.
  induction rows as [|a rows IH]; simpl; [intros []|].
  intros [->|Hin]; [lia | specialize (IH Hin); lia].
Qed.

Lemma max_rowid_attained rows :
  rows <> [] -> exists r, In r rows /\ id r = max_rowid rows.
Proof.
  induction rows as [|a rows IH]; [congruence|]. intros _. simpl.
  destruct rows as [|b rows].
  - exists a. split; [left; reflexivity | simpl; lia].
  - destruct IH as (r & Hin & Hr); [discriminate|].
    destruct (N.max_spec (id a) (max_rowid (b :: rows))) as [[_ Hm]|[_ Hm]].
    + exists r. split; [right; exact Hin | simpl in *; lia].
    + exists a. split; [left; reflexivity | simpl in *; lia].
Qed.

Lemma rowid_inj db r r' :
  List.NoDup (List.map id db) -> In r db -> In r' db -> id r = id r' -> r = r'.
Proof.
  induction db as [|a db IH]; simpl; [intros _ []|].
  intros Hnd. inversion Hnd as [|? ? Hni Hnd']; subst.
  intros [->|Hr] [->|Hr'] Hid.
  - reflexivity.
  - exfalso. apply Hni. rewrite Hid. apply in_map. exact Hr'.
  - exfalso. apply Hni. rewrite <- Hid. apply in_map. exact Hr.
  - exact (IH Hnd' Hr Hr' Hid).
Qed.

Lemma in_group key db r :
  In r (group_of key db) <-> In r db /\ source_url r = key.
Proof.
  unfold group_of, same_group. rewrite filter_In, bool_decide_eq_true.
  split; intros [H1 H2]; split; congruence.
Qed.

(** A row survives the DELETE exactly when it carries the largest rowid
    of its own group. *)
Lemma survives_iff db r :
  List.NoDup (List.map id db) -> In r db ->
  existsb (N.eqb (id r)) (max_rowids db) = true
  <-> id r = max_rowid (group_of (source_url r) db).
Proof.
  intros Hnd Hr. rewrite existsb_exists. split.
  - intros (m & Hm & Heq). apply N.eqb_eq in Heq. subst m.
    unfold max_rowids in Hm. apply in_map_iff in Hm. destruct Hm as (r2 & Hmax & Hr2).
    destruct (max_rowid_attained (group_of (source_url r2) db)) as (r3 & Hr3 & Hid).
    { intros Hnil. assert (Hin : In r2 (group_of (source_url r2) db))
        by (apply in_group; split; [exact Hr2 | reflexivity]).
      rewrite Hnil in Hin. exact Hin. }
    apply in_group in Hr3. destruct Hr3 as [Hr3 Hurl].
    assert (r = r3) by (apply (rowid_inj db); [exact Hnd | exact Hr | exact Hr3 | congruence]).
    subst r3. rewrite Hurl. symmetry. exact Hmax.
  - intros Hid. exists (max_rowid (group_of (source_url r) db)). split.
    + unfold max_rowids. apply in_map_iff. exists r. split; [reflexivity | exact Hr].
    + apply N.eqb_eq. exact Hid.
Qed.

Lemma filter_none {A} (f : A -> bool) (l : list A) :
  (forall x, In x l -> f x = false) -> List.filter f l = [].
Proof.
  induction l as [|a l IH]; simpl; [reflexivity|]. intros H.
  rewrite (H a (or_introl eq_refl)). apply IH. intros x Hx. apply H. right. exact Hx.
Qed.

Lemma filter_only db (f : Case D -> bool) keep :
  List.NoDup (List.map id db) -> In keep db ->
  (forall r, In r db -> f r = true <-> id r = id keep) ->
  List.filter f db = [keep].
Proof.
  induction db as [|a db IH]; simpl; [intros _ []|].
  intros Hnd Hin Hf. inversion Hnd as [|? ? Hni Hnd']; subst.
  destruct Hin as [->|Hin].
  - rewrite (proj2 (Hf keep (or_introl eq_refl)) eq_refl). f_equal.
    apply filter_none. intros x Hx. destruct (f x) eqn:E; [|reflexivity].
    exfalso. apply Hni. apply (Hf x (or_intror Hx)) in E. rewrite <- E.
    apply in_map. exact Hx.
  - destruct (f a) eqn:E.
    + exfalso. apply Hni. apply (Hf a (or_introl eq_refl)) in E. rewrite E.
      apply in_map. exact Hin.
    + apply IH; [exact Hnd' | exact Hin |]. intros r Hr. apply Hf. right. exact Hr.
Qed.

Lemma filter_twice {A} (f g : A -> bool) (l : list A) :
  List.filter f (List.filter g l) = List.filter (fun x => g x && f x) l.
Proof.
  induction l as [|a l IH]; simpl; [reflexivity|].
  destruct (g a); simpl; [destruct (f a)|]; rewrite IH; reflexivity.
Qed.

Lemma dedup_sublist db r : In r (deduplicate_by_source_url db) -> In r db.
Proof.
  unfold deduplicate_by_source_url, delete_not_max. destruct db as [|a db]; [tauto|].
  destruct (num_duplicate_urls_positive (a :: db)); [|tauto].
  intros H. apply filter_In in H. tauto.
Qed.

Lemma duplicates_found db (url : str) :
  url <> [] -> (2 <= length (group_of (Some url) db))%nat ->
  deduplicate_by_source_url db = delete_not_max db.
Proof.
  intros Hne Hlen. unfold deduplicate_by_source_url.
  destruct db as [|a db]; [simpl in Hlen; lia|].
  assert (Hdup : num_duplicate_urls_positive (a :: db) = true).
  { destruct (group_of (Some url) (a :: db)) as [|r0 g] eqn:Hg; [simpl in Hlen; lia|].
    assert (Hr0 : In r0 (group_of (Some url) (a :: db))) by (rewrite Hg; left; reflexivity).
    apply in_group in Hr0. destruct Hr0 as [Hin Hurl].
    unfold num_duplicate_urls_positive. apply existsb_exists. exists r0. split; [exact Hin|].
    unfold is_duplicated. rewrite Hurl. destruct url as [|x s]; [congruence|].
    rewrite Hg. apply Nat.ltb_lt. simpl in Hlen. simpl. lia. }
  rewrite Hdup. reflexivity.
Qed.

Lemma dedup_keeps_max db (url : str) :
  List.NoDup (List.map id db) -> url <> [] ->
  (2 <= length (group_of (Some url) db))%nat ->
  exists keep,
    In keep db /\ source_url keep = Some url /\
    (forall r, In r db -> source_url r = Some url -> (id r <= id keep)%N) /\
    group_of (Some url) (deduplicate_by_source_url db) = [keep].
Proof.
  intros Hnd Hne Hlen. rewrite (duplicates_found db url Hne Hlen).
  destruct (max_rowid_attained (group_of (Some url) db)) as (keep & Hk & Hid).
  { intros Hnil. rewrite Hnil in Hlen. simpl in Hlen. lia. }
  apply in_group in Hk. destruct Hk as [Hk Hurl].
  exists keep. split; [exact Hk|]. split; [exact Hurl|]. split.
  - intros r Hr Hu. rewrite Hid. apply max_rowid_ge. apply in_group. split; assumption.
  - unfold delete_not_max. unfold group_of at 1. rewrite filter_twice.
    apply filter_only; [exact Hnd | exact Hk |]. intros r Hr.
    rewrite andb_true_iff, (survives_iff db r Hnd Hr).
    unfold same_group. rewrite bool_decide_eq_true. split.
    + intros [Hmax Hu]. rewrite Hmax, <- Hu. exact (eq_sym Hid).
    + intros Hrid. assert (r = keep) by (apply (rowid_inj db); assumption). subst r.
      split; [rewrite Hurl; exact Hid | symmetry; exact Hurl].
Qed.

Lemma dedup_keeps_unshared db r :
  In r db -> group_of (source_url r) db = [r] -> In r (deduplicate_by_source_url db).
Proof.
  intros Hr Hg. unfold deduplicate_by_source_url. destruct db as [|a db]; [exact Hr|].
  destruct (num_duplicate_urls_positive (a :: db)); [|exact Hr].
  unfold delete_not_max. apply filter_In. split; [exact Hr|].
  apply existsb_exists. exists (id r). split; [|apply N.eqb_refl].
  unfold max_rowids. apply in_map_iff. exists r. split; [|exact Hr].
  rewrite Hg. simpl. lia.
Qed.

End DedupFacts.

(** C5, amended.  In a table with distinct rowids, of N >= 2 rows that
    share one non-NULL, non-empty [source_url] the dedup pass keeps exactly
    one, the row with the highest rowid, and deletes the other N-1; the
    pass adds no row; and a row that shares its [source_url] with no other
    row is not deleted. *)
Theorem dedup_keeps_highest_rowid :
  forall (D : Type) (db : list (Store.Case D)),
    (forall url : str,
       List.NoDup (List.map Store.id db) ->
       url <> [] ->
       (2 <= length (Dedup.group_of (Some url) db))%nat ->
       exists keep,
         In keep db /\ Store.source_url keep = Some url /\
         (forall r, In r db -> Store.source_url r = Some url ->
                    (Store.id r <= Store.id keep)%N) /\
         Dedup.group_of (Some url) (Dedup.deduplicate_by_source_url db) = [keep])
    /\ (forall r, In r (Dedup.deduplicate_by_source_url db) -> In r db)
    /\ (forall r, In r db -> Dedup.group_of (Store.source_url r) db = [r] ->
                  In r (Dedup.deduplicate_by_source_url db)).
Proof.
  intros D db. split; [|split].
  - intros url Hnd Hne Hlen. exact (dedup_keeps_max db url Hnd Hne Hlen).
  - intros r. apply dedup_sublist.
  - intros r. apply dedup_keeps_unshared.
Qed.

Lemma dedup_keeps_highest_rowid_witness :
  (exists keep,
     Store.id keep = 4 /\
     Dedup.group_of (Some (u "https://scjgj.sh.gov.cn/1.html"))
       (Dedup.deduplicate_by_source_url three_duplicates) = [keep])
  /\ In (row_with_url 2 (Some (u "https://scjgj.sh.gov.cn/2.html")))
        (Dedup.deduplicate_by_source_url three_duplicates).
Proof.
  split.
  - destruct (proj1 (dedup_keeps_highest_rowid str three_duplicates)
                (u "https://scjgj.sh.gov.cn/1.html"))
      as (keep & Hin & Hurl & Hmax & Hg).
    + vm_compute. repeat constructor; simpl; intuition discriminate.
    + vm_compute. discriminate.
    + vm_compute. lia.
    + exists keep. split; [|exact Hg].
      assert (H4 : (4 <= Store.id keep)%N).
      { apply (Hmax (row_with_url 4 (Some (u "https://scjgj.sh.gov.cn/1.html")))).
        - vm_compute. tauto.
        - reflexivity. }
      assert (Hle : (Store.id keep <= 4)%N).
      { vm_compute in Hin. intuition (subst; vm_compute; discriminate). }
      lia.
  - apply (proj2 (proj2 (dedup_keeps_highest_rowid str three_duplicates))).
    + vm_compute. tauto.
    + vm_compute. reflexivity.
Defined.

(** ** Attachment fetchers *)

Section Files.
Import Env Fetch.

Lemma exists_write (w : world) (p : str) (b : list N) : exists_ (write w p b) p = true.
Proof.
  unfold exists_, write. simpl. apply bool_decide_eq_true.
  rewrite lookup_insert_eq. eexists. reflexivity.
Qed.

Lemma exists_open (w : world) (p : str) : exists_ (open_wb w p) p = true.
Proof.
  unfold exists_, open_wb. simpl. apply bool_decide_eq_true.
  rewrite lookup_insert_eq. eexists. reflexivity.
Qed.

Lemma exists_cleanup (w : world) (p : str) : exists_ (cleanup w p) p = false.
Proof.
  unfold cleanup. destruct (exists_ w p) eqn:E; [|exact E].
  unfold exists_, remove. simpl. apply bool_decide_eq_false.
  rewrite lookup_delete_eq. intros [x Hx]. discriminate Hx.
Qed.

Lemma exists_write_chunks (e : env) (p : str) (chunks : list (list N)) (w w' : world) :
  exists_ w p = true -> write_chunks e w p chunks = (w', true) -> exists_ w' p = true.
Proof.
  revert w. induction chunks as [|c cs IH]; intros w Hw; simpl.
  - intros [= <-]. exact Hw.
  - destruct c as [|x c]; [apply IH; exact Hw|].
    destruct (disk_ok e); [|discriminate]. apply IH. apply exists_write.
Qed.

(** The two regional fetchers leave no file behind when they fail. *)
Lemma beijing_failure_leaves_no_file (e : env) (w w' : world) (url p : str) :
  beijing_download_attachment e w url p = (w', false) -> exists_ w' p = false.
Proof.
  unfold beijing_download_attachment, get.
  destruct (makedirs e (dirname p)); cbn [negb]; [|intros [= <-]; apply exists_cleanup].
  destruct (net e url) as [|status total chunks broken].
  - intros [= <-]. apply exists_cleanup.
  - destruct (status_raises status); [intros [= <-]; apply exists_cleanup|].
    destruct (open_ok e p); cbn [negb]; [|intros [= <-]; apply exists_cleanup].
    destruct (total =? 0)%N.
    + destruct broken; [intros [= <-]; apply exists_cleanup|].
      destruct (disk_ok e); [discriminate | intros [= <-]; apply exists_cleanup].
    + destruct (write_chunks e _ p chunks) as [w1 [|]].
      * destruct broken; [intros [= <-]; apply exists_cleanup | discriminate].
      * intros [= <-]. apply exists_cleanup.
Qed.

Lemma shanghai_failure_leaves_no_file (e : env) (w w' : world) (url p : str) :
  shanghai_download_attachment e w url p = (w', false) -> exists_ w' p = false.
Proof.
  unfold shanghai_download_attachment, get.
  destruct (exists_ w p); [discriminate|].
  destruct (makedirs e (dirname p)); cbn [negb]; [|intros [= <-]; apply exists_cleanup].
  destruct (net e url) as [|status total chunks broken].
  - intros [= <-]. apply exists_cleanup.
  - destruct (status_raises status); [intros [= <-]; apply exists_cleanup|].
    destruct (open_ok e p); cbn [negb]; [|intros [= <-]; apply exists_cleanup].
    destruct (write_chunks e _ p chunks) as [w1 [|]].
    + destruct broken; [intros [= <-]; apply exists_cleanup | discriminate].
    + intros [= <-]. apply exists_cleanup.
Qed.

Lemma casescraper_skips_existing (dir : str) (e : env) (w : world) (url case_name : str) :
  exists_ w (path_join dir (file_name url case_name)) = true ->
  casescraper_download_attachment dir e w url case_name
    = (w, Some (file_name url case_name)).
Proof. intros H. unfold casescraper_download_attachment. rewrite H. reflexivity. Qed.

Lemma casescraper_success_file (dir : str) (e : env) (w w1 : world)
      (url case_name r1 : str) :
  casescraper_download_attachment dir e w url case_name = (w1, Some r1) ->
  r1 = file_name url case_name /\
  exists_ w1 (path_join dir (file_name url case_name)) = true /\
  (exists_ w (path_join dir (file_name url case_name)) = false ->
   requests w1 = requests w ++ [url]).
Proof.
  unfold casescraper_download_attachment, get. simpl.
  destruct (exists_ w (path_join dir (file_name url case_name))) eqn:E.
  - intros [= <- <-]. repeat split; [exact E | discriminate].
  - destruct (net e url) as [|status total chunks broken]; [discriminate|].
    destruct (status =? 200)%N; [|discriminate].
    destruct (open_ok e _); cbn [negb]; [|discriminate].
    destruct broken; [discriminate|]. destruct (disk_ok e); [|discriminate].
    intros [= <- <-]. repeat split. apply exists_write.
Qed.

Lemma requests_write_chunks (e : env) (p : str) (chunks : list (list N))
      (w w' : world) (ok : bool) :
  write_chunks e w p chunks = (w', ok) -> requests w' = requests w.
Proof.
  revert w. induction chunks as [|c cs IH]; intros w; simpl.
  - intros [= <- _]. reflexivity.
  - destruct c as [|x c]; [apply IH|].
    destruct (disk_ok e); [|intros [= <- _]; reflexivity].
    intros H. apply IH in H. exact H.
Qed.

Lemma shanghai_success_file (e : env) (w w1 : world) (url p : str) :
  shanghai_download_attachment e w url p = (w1, true) ->
  exists_ w1 p = true /\ (exists_ w p = false -> requests w1 = requests w ++ [url]).
Proof.
  unfold shanghai_download_attachment, get.
  destruct (exists_ w p) eqn:E.
  - intros [= <-]. split; [exact E | discriminate].
  - destruct (makedirs e (dirname p)); cbn [negb]; [|discriminate].
    destruct (net e url) as [|status total chunks broken]; [discriminate|].
    destruct (status_raises status); [discriminate|].
    destruct (open_ok e p); cbn [negb]; [|discriminate].
    destruct (write_chunks e _ p chunks) as [w2 [|]] eqn:Hw; [|discriminate].
    destruct broken; [discriminate|]. intros [= <-]. split.
    + eapply exists_write_chunks; [|exact Hw]. apply exists_open.
    + intros _. apply requests_write_chunks in Hw. exact Hw.
Qed.

End Files.

(** C6.  Attachment fetch idempotence, for [CaseScraper.download_attachment]
    and [ShanghaiScraper.download_attachment].  When a file exists at the
    derived path the call returns at once with the derived name (resp.
    with success for that path), the files untouched and no request
    issued, whatever the URL serves.  Hence after one successful
    acquisition, which issued exactly one request when the file was not
    there, a further call for any URL and case name with the same derived
    file name returns the same result without a request. *)
Theorem attachment_fetch_idempotent :
  (forall (dir : str) (e : Env.env) (w : Env.world) (url case_name : str),
     Env.exists_ w (Env.path_join dir (Fetch.file_name url case_name)) = true ->
     Fetch.casescraper_download_attachment dir e w url case_name
       = (w, Some (Fetch.file_name url case_name)))
  /\
  (forall (e : Env.env) (w : Env.world) (url save_path : str),
     Env.exists_ w save_path = true ->
     Fetch.shanghai_download_attachment e w url save_path = (w, true))
  /\
  (forall (dir : str) (e e' : Env.env) (w w1 : Env.world)
          (url case_name url' case_name' r1 : str),
     Fetch.casescraper_download_attachment dir e w url case_name = (w1, Some r1) ->
     Fetch.file_name url' case_name' = Fetch.file_name url case_name ->
     Fetch.casescraper_download_attachment dir e' w1 url' case_name' = (w1, Some r1) /\
     (Env.exists_ w (Env.path_join dir (Fetch.file_name url case_name)) = false ->
      Env.requests w1 = Env.requests w ++ [url]))
  /\
  (forall (e e' : Env.env) (w w1 : Env.world) (url url' save_path : str),
     Fetch.shanghai_download_attachment e w url save_path = (w1, true) ->
     Fetch.shanghai_download_attachment e' w1 url' save_path = (w1, true) /\
     (Env.exists_ w save_path = false -> Env.requests w1 = Env.requests w ++ [url])).
Proof.
  repeat apply conj.
  - intros dir e w url case_name H. exact (casescraper_skips_existing dir e w url case_name H).
  - intros e w url save_path H. unfold Fetch.shanghai_download_attachment.
    rewrite H. reflexivity.
  - intros dir e e' w w1 url case_name url' case_name' r1 H Hname.
    destruct (casescraper_success_file dir e w w1 url case_name r1 H) as (-> & Hex & Hreq).
    split; [|exact Hreq].
    rewrite <- Hname in Hex |- *.
    exact (casescraper_skips_existing dir e' w1 url' case_name' Hex).
  - intros e e' w w1 url url' save_path H.
    destruct (shanghai_success_file e w w1 url save_path H) as (Hex & Hreq).
    split; [|exact Hreq].
    unfold Fetch.shanghai_download_attachment. rewrite Hex. reflexivity.
Qed.

Lemma attachment_fetch_idempotent_witness :
  let first := Fetch.casescraper_download_attachment attachments_dir sound_env
                 empty_world doc_url some_case in
  first = (Env.mkworld {[ some_case_path := [37; 80; 68; 70] ]} [doc_url],
           Some some_case_doc)
  /\ Fetch.casescraper_download_attachment attachments_dir breaking_env (fst first)
       doc_url some_case = (fst first, Some some_case_doc)
  /\ Env.requests (fst first) = [doc_url]
  /\ Fetch.shanghai_download_attachment breaking_env (fst first) doc_url some_case_path
     = (fst first, true).
Proof.
  assert (H1 : Fetch.casescraper_download_attachment attachments_dir sound_env
                 empty_world doc_url some_case
               = (Env.mkworld {[ some_case_path := [37; 80; 68; 70] ]} [doc_url],
                  Some some_case_doc)).
  { vm_compute. reflexivity. }
  cbv zeta. rewrite H1. cbn [fst]. split; [reflexivity|].
  destruct (proj1 (proj2 (proj2 attachment_fetch_idempotent))
              attachments_dir sound_env breaking_env empty_world _
              doc_url some_case doc_url some_case some_case_doc H1 eq_refl)
    as [H2 H3].
  split; [exact H2|]. split; [apply H3; vm_compute; reflexivity|].
  apply (proj1 (proj2 attachment_fetch_idempotent)). vm_compute. reflexivity.
Defined.

(** C7.  The claim holds of the two regional fetchers (the two lemmas on
    [beijing_download_attachment] and [shanghai_download_attachment]
    above) and fails elsewhere.  When the server breaks off after the
    file was opened, [CaseScraper.download_attachment] returns [None] and
    leaves the empty file, which the next call takes for the attachment
    without any request; [AttachmentDownloader.download_attachment]
    leaves the file when the write fails; and
    [BeijingScraper.process_case] stores the attachment path of a new
    case although its fetcher failed and removed the file. *)
Theorem attachment_failure_not_cleaned :
  Fetch.casescraper_download_attachment attachments_dir breaking_env empty_world
    doc_url some_case
    = (Env.mkworld {[ some_case_path := [] ]} [doc_url], None)
  /\ Fetch.casescraper_download_attachment attachments_dir sound_env
       (Env.mkworld {[ some_case_path := [] ]} [doc_url]) doc_url some_case
     = (Env.mkworld {[ some_case_path := [] ]} [doc_url], Some some_case_doc)
  /\ Fetch.downloader_download_attachment attachments_dir full_disk_env empty_world
       (Some doc_url) some_case (u "上海")
     = (Env.mkworld {[ u "data/attachments/上海/某公司收购某公司股权案.doc" := [] ]} [doc_url],
        None)
  /\ Fetch.beijing_download_attachment breaking_env empty_world doc_url some_case_path
     = (Env.mkworld ∅ [doc_url], false)
  /\ Reconcile.beijing_process_case beijing_new_case_ctx empty_state some_case
       (u "https://scjgj.beijing.gov.cn/1.html")
     = (Reconcile.mkstate
          [Store.mkCase 1 (Some some_case) None None
             (Some (u "https://scjgj.beijing.gov.cn/1.html")) (Some (u "北京"))
             (Some some_case_path) (Some 7)]
          (Env.mkworld ∅ [doc_url]),
        true)
  /\ Env.exists_ (Env.mkworld ∅ [doc_url]) some_case_path = false.
Proof. repeat apply conj; vm_compute; reflexivity. Qed.

(** ** Pagination *)

Section Stall.
Import Pagination.
Variable page : Type.
Variable first_title : page -> res (option str).
Variable next_button : page -> res bool.
Variable click_next : page -> page * bool.
Variable wait_content : page -> res unit.
Variable goto : str -> page -> page * bool.
Variable case_links : page -> res (list (str * str)).

Lemma str_eqb_refl (t : str) : str_eqb t t = true.
Proof. unfold str_eqb. apply bool_decide_eq_true. reflexivity. Qed.

Lemma stall_fails_turn (s : scraper page) (p' : page) (t : str) :
  stalls first_title next_button click_next wait_content (pg page s) p' t ->
  _turn_to_next_page page first_title next_button click_next wait_content s
    = (mkscraper page p' None (S (clicks page s)), false).
Proof.
  intros (H1 & H2 & H3 & H4 & H5). unfold _turn_to_next_page.
  rewrite H1, H2, H3. simpl. rewrite H4, H5, str_eqb_refl. reflexivity.
Qed.

(** A failed page transition ends the walk, at whichever step it
    occurs. *)
Lemma failed_turn_ends_walk (n j : nat) (s0 s s' : scraper page) :
  (j < n)%nat ->
  turn_times page first_title next_button click_next wait_content j s0 = (s, true) ->
  _turn_to_next_page page first_title next_button click_next wait_content s = (s', false) ->
  turn_times page first_title next_button click_next wait_content n s0 = (s', false).
Proof.
  revert n s0. induction j as [|j IH]; intros n s0 Hlt Hw Ht.
  - cbn [turn_times] in Hw. injection Hw as ->.
    destruct n as [|n]; [lia|]. cbn [turn_times]. rewrite Ht. reflexivity.
  - destruct n as [|n]; [lia|]. cbn [turn_times] in *.
    destruct (_turn_to_next_page page first_title next_button click_next wait_content s0)
      as [s1 [|]]; [|discriminate Hw].
    apply (IH n s1); [lia | exact Hw | exact Ht].
Qed.

(** A failed page transition ends the request at once, with whatever
    number of retries is left. *)
Lemma failed_turn_ends_request (retries : nat) (s s' : scraper page) (url : str)
      (page_no cur : nat) :
  current_page page s = Some cur -> (cur < page_no)%nat ->
  _turn_to_next_page page first_title next_button click_next wait_content s = (s', false) ->
  list_page_loop page first_title next_button click_next wait_content
    goto case_links (S retries) url page_no s = (s', None).
Proof.
  intros Hc Hlt Ht. cbn [list_page_loop].
  rewrite Hc. apply Nat.ltb_lt in Hlt. rewrite Hlt, Ht. reflexivity.
Qed.

Lemma failed_walk_ends_request (retries : nat) (s0 : scraper page) (p0 : page)
      (s' : scraper page) (url : str) (page_no : nat) :
  current_page page s0 = None -> goto url (pg page s0) = (p0, true) ->
  turn_times page first_title next_button click_next wait_content (page_no - 1)
    (mkscraper page p0 (Some 1%nat) (clicks page s0)) = (s', false) ->
  list_page_loop page first_title next_button click_next wait_content
    goto case_links (S retries) url page_no s0 = (s', None).
Proof.
  intros Hc Hg Hw. cbn [list_page_loop]. rewrite Hc, Hg. cbn [negb].
  rewrite Hw. reflexivity.
Qed.

Lemma failed_goto_uses_retry (retries : nat) (s0 : scraper page) (p0 : page)
      (url : str) (page_no : nat) :
  current_page page s0 = None -> goto url (pg page s0) = (p0, false) ->
  list_page_loop page first_title next_button click_next wait_content
    goto case_links (S retries) url page_no s0
  = list_page_loop page first_title next_button click_next wait_content
      goto case_links retries url page_no (mkscraper page p0 None (clicks page s0)).
Proof. intros Hc Hg. cbn [list_page_loop]. rewrite Hc, Hg. reflexivity. Qed.

End Stall.

(** C8.  Stalled pagination.  When the next-page action is performed and
    the first listed title afterwards equals the one before,
    [_turn_to_next_page] reports failure (and forgets the page number).
    The walk from the first page to the requested one ends there, at
    whichever of its clicks the stall occurs, and
    [parse_list_page_playwright] returns the failure value for that
    request with the stalled click as its last one, without retrying,
    whatever number of retries is left: both when it advances one page
    from the current one and when it walks from the first page.  A failed
    [goto] before the walk only uses up one retry, so the same holds of a
    later attempt of the request. *)
Theorem stalled_pagination_detected :
  forall (page : Type)
         (first_title : page -> res (option str)) (next_button : page -> res bool)
         (click_next : page -> page * bool) (wait_content : page -> res unit)
         (goto : str -> page -> page * bool)
         (case_links : page -> res (list (str * str)))
         (s : Pagination.scraper page) (p' : page) (t : str),
    stalls first_title next_button click_next wait_content (Pagination.pg page s) p' t ->
    Pagination._turn_to_next_page page first_title next_button click_next wait_content s
      = (Pagination.mkscraper page p' None (S (Pagination.clicks page s)), false)
    /\ (forall (n j : nat) (s0 : Pagination.scraper page),
          (j < n)%nat ->
          Pagination.turn_times page first_title next_button click_next wait_content j s0
            = (s, true) ->
          Pagination.turn_times page first_title next_button click_next wait_content n s0
            = (Pagination.mkscraper page p' None (S (Pagination.clicks page s)), false))
    /\ (forall (retries : nat) (url : str) (page_no cur : nat),
          Pagination.current_page page s = Some cur -> (cur < page_no)%nat ->
          Pagination.list_page_loop page first_title next_button click_next
            wait_content goto case_links (S retries) url page_no s
            = (Pagination.mkscraper page p' None (S (Pagination.clicks page s)), None))
    /\ (forall (retries : nat) (url : str) (page_no j : nat)
               (s0 : Pagination.scraper page) (p0 : page),
          Pagination.current_page page s0 = None ->
          goto url (Pagination.pg page s0) = (p0, true) ->
          (j < page_no - 1)%nat ->
          Pagination.turn_times page first_title next_button click_next wait_content j
            (Pagination.mkscraper page p0 (Some 1%nat) (Pagination.clicks page s0))
            = (s, true) ->
          Pagination.list_page_loop page first_title next_button click_next
            wait_content goto case_links (S retries) url page_no s0
            = (Pagination.mkscraper page p' None (S (Pagination.clicks page s)), None))
    /\ (forall (url : str) (page_no cur : nat),
          Pagination.current_page page s = Some cur -> (cur < page_no)%nat ->
          Pagination.parse_list_page_playwright page first_title next_button click_next
            wait_content goto case_links url page_no s
            = (Pagination.mkscraper page p' None (S (Pagination.clicks page s)), None))
    /\ (forall (url : str) (page_no j : nat)
               (s0 : Pagination.scraper page) (p0 : page),
          Pagination.current_page page s0 = None ->
          goto url (Pagination.pg page s0) = (p0, true) ->
          (j < page_no - 1)%nat ->
          Pagination.turn_times page first_title next_button click_next wait_content j
            (Pagination.mkscraper page p0 (Some 1%nat) (Pagination.clicks page s0))
            = (s, true) ->
          Pagination.parse_list_page_playwright page first_title next_button click_next
            wait_content goto case_links url page_no s0
            = (Pagination.mkscraper page p' None (S (Pagination.clicks page s)), None))
    /\ (forall (retries : nat) (url : str) (page_no : nat)
               (s0 : Pagination.scraper page) (p0 : page),
          Pagination.current_page page s0 = None ->
          goto url (Pagination.pg page s0) = (p0, false) ->
          Pagination.list_page_loop page first_title next_button click_next
            wait_content goto case_links (S retries) url page_no s0
          = Pagination.list_page_loop page first_title next_button click_next
              wait_content goto case_links retries url page_no
              (Pagination.mkscraper page p0 None (Pagination.clicks page s0))).
Proof.
  intros page first_title next_button click_next wait_content goto case_links s p' t Hst.
  pose proof (stall_fails_turn _ _ _ _ _ s p' t Hst) as Hturn.
  assert (Hwalk : forall (n j : nat) (s0 : Pagination.scraper page),
             (j < n)%nat ->
             Pagination.turn_times page first_title next_button click_next wait_content j s0
               = (s, true) ->
             Pagination.turn_times page first_title next_button click_next wait_content n s0
               = (Pagination.mkscraper page p' None (S (Pagination.clicks page s)), false)).
  { intros n j s0 Hlt Hw.
    exact (failed_turn_ends_walk _ _ _ _ _ n j s0 s _ Hlt Hw Hturn). }
  repeat apply conj.
  - exact Hturn.
  - exact Hwalk.
  - intros retries url page_no cur Hc Hlt.
    exact (failed_turn_ends_request _ _ _ _ _ goto case_links retries s _ url page_no cur
             Hc Hlt Hturn).
  - intros retries url page_no j s0 p0 Hc Hg Hlt Hw.
    exact (failed_walk_ends_request _ _ _ _ _ goto case_links retries s0 p0 _ url page_no
             Hc Hg (Hwalk _ j _ Hlt Hw)).
  - intros url page_no cur Hc Hlt.
    exact (failed_turn_ends_request _ _ _ _ _ goto case_links 2 s _ url page_no cur
             Hc Hlt Hturn).
  - intros url page_no j s0 p0 Hc Hg Hlt Hw.
    exact (failed_walk_ends_request _ _ _ _ _ goto case_links 2 s0 p0 _ url page_no
             Hc Hg (Hwalk _ j _ Hlt Hw)).
  - intros retries url page_no s0 p0 Hc Hg.
    exact (failed_goto_uses_retry _ _ _ _ _ goto case_links retries s0 p0 url page_no Hc Hg).
Qed.

Lemma stalled_pagination_detected_witness :
  Pagination._turn_to_next_page nat late_first_title stuck_next_button stuck_click_next
    stuck_wait_content (Pagination.mkscraper nat 1%nat (Some 2%nat) 1%nat)
    = (Pagination.mkscraper nat 2%nat None 2%nat, false)
  /\ Pagination.parse_list_page_playwright nat late_first_title stuck_next_button
       stuck_click_next stuck_wait_content stuck_goto stuck_case_links
       (u "https://www.samr.gov.cn/fldes/ajgs/jyaj/") 15
       (Pagination.mkscraper nat 0%nat None 0%nat)
     = (Pagination.mkscraper nat 2%nat None 2%nat, None)
  /\ Pagination.parse_list_page_playwright nat late_first_title stuck_next_button
       stuck_click_next stuck_wait_content stuck_goto stuck_case_links
       (u "https://www.samr.gov.cn/fldes/ajgs/jyaj/") 3
       (Pagination.mkscraper nat 1%nat (Some 2%nat) 1%nat)
     = (Pagination.mkscraper nat 2%nat None 2%nat, None).
Proof.
  destruct (stalled_pagination_detected nat late_first_title stuck_next_button
              stuck_click_next stuck_wait_content stuck_goto stuck_case_links
              (Pagination.mkscraper nat 1%nat (Some 2%nat) 1%nat) 2%nat (u "乙案"))
    as (H1 & _ & _ & _ & H5 & H6 & _).
  - repeat split.
  - repeat apply conj.
    + exact H1.
    + apply (H6 _ 15%nat 1%nat (Pagination.mkscraper nat 0%nat None 0%nat) 0%nat);
        [reflexivity | reflexivity | cbn; lia | vm_compute; reflexivity].
    + apply (H5 _ 3%nat 2%nat); [reflexivity | lia].
Defined.

(** ** Further facts on the code paths beside the cited ones *)

(** [BaseParser] itself, whose three methods raise NotImplementedError,
    parses nothing. *)
Lemma abstract_base_parse_fails (Soup D : Type) (soup : Soup) :
  @BaseParser.parse Soup D (BaseParser.abstract_base Soup D) soup = None.
Proof. reflexivity. Qed.

(** The general scraper's caller takes the [None] of its fetcher for a
    missing attachment: the case is stored with a NULL path and the call
    succeeds. *)
Lemma casescraper_caller_stores_null_path :
  let out := CaseScraper.process_case casescraper_new_case_ctx empty_text_state
               some_case (u "https://www.samr.gov.cn/fldes/1.html") in
  List.map Store.attachment_path (Reconcile.db (fst out)) = [None]
  /\ List.map Store.case_name (Reconcile.db (fst out)) = [Some some_case]
  /\ (exists cd, snd out = Some cd).
Proof.
  cbv zeta. repeat apply conj; [vm_compute; reflexivity | vm_compute; reflexivity |].
  eexists. vm_compute. reflexivity.
Qed.

(* ===================================================================== *)
(** * Further properties of the code *)
(* ===================================================================== *)

(** ** [CaseScraper.save_to_db] as an upsert by name *)

Section Upsert.
Import Store CaseScraperStore.
Context {D : Type}.
Implicit Types (db : list (Case D)) (cd : case_data D) (r : Case D).

Lemma name_is_refl (n : str) r : case_name r = Some n -> name_is (Some n) r = true.
Proof.
  intros H. unfold name_is. rewrite H. unfold str_eqb. apply bool_decide_eq_true. reflexivity.
Qed.

Lemma name_is_name (name : option str) r :
  name_is name r = true -> case_name r = name /\ name <> None.
Proof.
  unfold name_is. destruct name as [n|]; [|discriminate].
  destruct (case_name r) as [m|]; [|discriminate].
  unfold str_eqb. intros H. apply bool_decide_eq_true in H. subst. split; [reflexivity | discriminate].
Qed.

Lemma name_is_none r : name_is None r = false.
Proof. reflexivity. Qed.

Lemma find_existsb {A} (p : A -> bool) (l : list A) :
  existsb p l = true <-> exists x, List.find p l = Some x.
Proof.
  induction l as [|a l IH]; simpl.
  - split; [discriminate | intros [x Hx]; discriminate].
  - destruct (p a); simpl; [split; [intros _; eexists; reflexivity | reflexivity] | exact IH].
Qed.

Lemma find_app_fresh {A} (p : A -> bool) (l : list A) (x : A) :
  existsb p l = false -> p x = true -> List.find p (l ++ [x]) = Some x.
Proof.
  induction l as [|a l IH]; simpl; intros He Hp; [rewrite Hp; reflexivity|].
  destruct (p a); simpl in *; [discriminate | exact (IH He Hp)].
Qed.

Lemma find_map_preserving {A} (p : A -> bool) (f : A -> A) (l : list A) (x : A) :
  (forall y, p (f y) = p y) -> List.find p l = Some x ->
  List.find p (List.map f l) = Some (f x).
Proof.
  intros Hp. induction l as [|a l IH]; simpl; [discriminate|].
  rewrite Hp. destruct (p a); [intros [= ->]; reflexivity | exact IH].
Qed.

Lemma map_id_when {A} (f : A -> A) (l : list A) :
  (forall x, In x l -> f x = x) -> List.map f l = l.
Proof.
  induction l as [|a l IH]; simpl; intros H; [reflexivity|].
  rewrite (H a (or_introl eq_refl)), IH; [reflexivity|]. intros x Hx. apply H. right. exact Hx.
Qed.

Lemma fill_null_idem {A} (col v : option A) : fill_null (fill_null col v) v = fill_null col v.
Proof. destruct col, v; reflexivity. Qed.

Lemma fill_region_idem (col v : option str) :
  fill_region (fill_region col v) v = fill_region col v.
Proof. destruct col as [[|x s]|], v as [[|y t]|]; reflexivity. Qed.

Lemma fill_null_self {A} (v : option A) : fill_null v v = v.
Proof. destruct v; reflexivity. Qed.

Lemma fill_region_self (v : option str) : fill_region v v = v.
Proof. destruct v as [[|x s]|]; reflexivity. Qed.

End Upsert.

(** X1.  [save_to_db] is an upsert by name.  When the sighting has a
    name and the session works, the call succeeds, the case can afterwards
    be looked up by that name, and the table has grown by one row exactly
    when no row had the name before; in that case the row found has the
    next rowid, the name, the source URL, the region and the attachment
    path of the sighting in its text columns and the time of the call,
    and each of its two dates is NULL exactly when the sighting has none
    (what a DateTime column makes of a date that is bound is not stated).
    When the session fails the table is as before and the call returns
    False. *)
Theorem save_to_db_upsert :
  forall (D : Type) (now : N) (db : list (Store.Case D))
         (cd : CaseScraperStore.case_data D) (name : str),
    db_case_name cd = Some name ->
    CaseScraperStore.save_to_db false now db cd = (db, false) /\
    snd (CaseScraperStore.save_to_db true now db cd) = true /\
    (exists r, Store.first_by_name (Some name)
                 (fst (CaseScraperStore.save_to_db true now db cd)) = Some r /\
               Store.case_name r = Some name) /\
    length (fst (CaseScraperStore.save_to_db true now db cd))
      = (length db + (if existsb (Store.name_is (Some name)) db then 0 else 1))%nat /\
    (Store.first_by_name (Some name) db = None ->
     exists r,
       Store.first_by_name (Some name) (fst (CaseScraperStore.save_to_db true now db cd))
         = Some r /\
       Store.id r = Store.next_id db /\
       Store.case_name r = Some name /\
       Store.source_url r = db_source_url cd /\
       Store.region r = db_region cd /\
       Store.attachment_path r = db_attachment_path cd /\
       Store.created_at r = Some now /\
       (Store.notice_start_date r = None <-> db_start cd = None) /\
       (Store.notice_end_date r = None <-> db_end cd = None)).
Proof.
  intros D now db cd name Hname. unfold db_case_name in Hname.
  unfold CaseScraperStore.save_to_db. rewrite Hname. cbn [fst snd].
  split; [reflexivity|]. split; [reflexivity|].
  destruct (existsb (Store.name_is (Some name)) db) eqn:He.
  - split; [|split].
    + apply find_existsb in He. destruct He as [x Hx].
      unfold Store.first_by_name.
      erewrite find_map_preserving; [| |exact Hx].
      * eexists. split; [reflexivity|].
        apply find_some in Hx. destruct Hx as [_ Hp]. cbv beta. rewrite Hp. simpl.
        apply name_is_name in Hp. tauto.
      * intros r. cbv beta. destruct (Store.name_is (Some name) r) eqn:Er; [|exact Er].
        exact Er.
    + rewrite length_map. lia.
    + intros Hnone. apply find_existsb in He. destruct He as [x Hx].
      unfold Store.first_by_name in Hnone. congruence.
  - split; [|split].
    + eexists. split.
      * unfold Store.first_by_name. apply find_app_fresh; [exact He|].
        apply name_is_refl. reflexivity.
      * reflexivity.
    + rewrite length_app. simpl. lia.
    + intros _. eexists. split.
      * unfold Store.first_by_name. apply find_app_fresh; [exact He|].
        apply name_is_refl. reflexivity.
      * cbn. repeat apply conj; try reflexivity; tauto.
Qed.

Lemma save_to_db_upsert_witness :
  length (fst (CaseScraperStore.save_to_db true 7 [stored_beijing_case] shanghai_sighting))
    = 1%nat
  /\ exists r,
       Store.first_by_name (Some (u "某案"))
         (fst (CaseScraperStore.save_to_db true 7 [] shanghai_sighting)) = Some r
       /\ Store.region r = Some (u "上海") /\ Store.created_at r = Some 7%N.
Proof.
  split.
  - destruct (save_to_db_upsert str 7 [stored_beijing_case] shanghai_sighting (u "某案")
                eq_refl) as (_ & _ & _ & Hlen & _).
    rewrite Hlen. vm_compute. reflexivity.
  - destruct (save_to_db_upsert str 7 [] shanghai_sighting (u "某案") eq_refl)
      as (_ & _ & _ & _ & Hnew).
    destruct (Hnew eq_refl) as (r & Hr & _ & _ & _ & Hreg & _ & Hnow & _).
    exists r. repeat apply conj; [exact Hr | exact Hreg | exact Hnow].
Defined.

(** X2.  Saving the same named sighting a second time changes nothing:
    no second row, no field altered, whatever the time of the second
    call. *)
Theorem save_to_db_idempotent :
  forall (D : Type) (now now' : N) (db : list (Store.Case D))
         (cd : CaseScraperStore.case_data D),
    db_case_name cd <> None ->
    fst (CaseScraperStore.save_to_db true now'
           (fst (CaseScraperStore.save_to_db true now db cd)) cd)
      = fst (CaseScraperStore.save_to_db true now db cd).
Proof.
  intros D now now' db cd Hname. unfold db_case_name in Hname.
  unfold CaseScraperStore.save_to_db. cbn [fst snd].
  destruct (CaseScraperStore.get (CaseScraperStore.cd_title cd)
              (CaseScraperStore.get (CaseScraperStore.cd_case_name cd) None))
    as [name|] eqn:En; [clear Hname | congruence].
  destruct (existsb (Store.name_is (Some name)) db) eqn:He.
  - assert (He' : existsb (Store.name_is (Some name))
                    (List.map (fun r => if Store.name_is (Some name) r
                       then Store.mkCase (Store.id r) (Store.case_name r)
                              (CaseScraperStore.fill_null (Store.notice_start_date r)
                                 (CaseScraperStore.get (CaseScraperStore.cd_notice_start_date cd) None))
                              (CaseScraperStore.fill_null (Store.notice_end_date r)
                                 (CaseScraperStore.get (CaseScraperStore.cd_notice_end_date cd) None))
                              (Store.source_url r)
                              (CaseScraperStore.fill_region (Store.region r)
                                 (CaseScraperStore.get (CaseScraperStore.cd_region cd) (Some [])))
                              (Store.attachment_path r) (Store.created_at r)
                       else r) db) = true).
    { apply existsb_exists in He. destruct He as (x & Hin & Hp).
      apply existsb_exists. eexists. split; [apply in_map; exact Hin|].
      rewrite Hp. exact Hp. }
    rewrite He'. rewrite map_map. apply map_ext. intros r.
    destruct (Store.name_is (Some name) r) eqn:Er.
    + change (Store.name_is (Some name) (Store.mkCase (Store.id r) (Store.case_name r) _ _ _ _ _ _))
        with (Store.name_is (Some name) r).
      rewrite Er. cbn [Store.id Store.case_name Store.notice_start_date
        Store.notice_end_date Store.source_url Store.region Store.attachment_path
        Store.created_at].
      rewrite !fill_null_idem, fill_region_idem. reflexivity.
    + rewrite Er. reflexivity.
  - rewrite existsb_app. cbn [existsb].
    assert (Hn : Store.name_is (Some name)
                   (Store.mkCase (Store.next_id db) (Some name)
                      (CaseScraperStore.get (CaseScraperStore.cd_notice_start_date cd) None)
                      (CaseScraperStore.get (CaseScraperStore.cd_notice_end_date cd) None)
                      (CaseScraperStore.get (CaseScraperStore.cd_url cd)
                         (CaseScraperStore.get (CaseScraperStore.cd_source_url cd) None))
                      (CaseScraperStore.get (CaseScraperStore.cd_region cd) (Some []))
                      (CaseScraperStore.get (CaseScraperStore.cd_attachment_path cd) None)
                      (Some now)) = true) by (apply name_is_refl; reflexivity).
    rewrite Hn, orb_true_r. rewrite map_app. cbn [List.map]. rewrite Hn.
    cbn [Store.id Store.case_name Store.notice_start_date
      Store.notice_end_date Store.source_url Store.region Store.attachment_path
      Store.created_at].
    rewrite !fill_null_self, fill_region_self. f_equal.
    apply map_id_when. intros x Hx.
    destruct (Store.name_is (Some name) x) eqn:Ex; [|reflexivity].
    exfalso. assert (existsb (Store.name_is (Some name)) db = true)
      by (apply existsb_exists; exists x; split; assumption). congruence.
Qed.

Lemma save_to_db_idempotent_witness :
  fst (CaseScraperStore.save_to_db true 9
         (fst (CaseScraperStore.save_to_db true 7 [] shanghai_sighting)) shanghai_sighting)
    = fst (CaseScraperStore.save_to_db true 7 [] shanghai_sighting).
Proof.
  apply (save_to_db_idempotent str 7 9 [] shanghai_sighting). vm_compute. discriminate.
Defined.

(** X3.  A sighting that has neither a title nor a case name is never
    recognised: NULL equals no stored name, so every save of it appends
    one more row. *)
Theorem save_to_db_nameless_appends :
  forall (D : Type) (now : N) (db : list (Store.Case D))
         (cd : CaseScraperStore.case_data D),
    db_case_name cd = None ->
    exists r,
      fst (CaseScraperStore.save_to_db true now db cd) = db ++ [r] /\
      Store.case_name r = None /\ Store.id r = Store.next_id db.
Proof.
  intros D now db cd Hname. unfold db_case_name in Hname.
  unfold CaseScraperStore.save_to_db. rewrite Hname. simpl.
  assert (He : existsb (Store.name_is (D := D) None) db = false).
  { induction db as [|a db IH]; [reflexivity | simpl; exact IH]. }
  rewrite He. eexists. split; [reflexivity | split; reflexivity].
Qed.

Lemma save_to_db_nameless_appends_witness :
  exists r,
    fst (CaseScraperStore.save_to_db true 9
           (fst (CaseScraperStore.save_to_db true 7 [] nameless_sighting)) nameless_sighting)
      = fst (CaseScraperStore.save_to_db true 7 [] nameless_sighting) ++ [r]
    /\ Store.case_name r = None.
Proof.
  destruct (save_to_db_nameless_appends str 9
              (fst (CaseScraperStore.save_to_db true 7 [] nameless_sighting))
              nameless_sighting eq_refl) as (r & Hr & Hn & _).
  exists r. split; [exact Hr | exact Hn].
Defined.

(** ** The regional reconcilers as operations on the table *)

Section ReconcileFacts.
Import Store Env Fetch Reconcile Datetime.
Implicit Types (c : ctx) (st : state datetime) (d : detail).

Lemma write_back_length {D} (p : Case D -> bool) (r' : Case D) (db : list (Case D)) :
  length (write_back p r' db) = length db.
Proof.
  induction db as [|a db IH]; simpl; [reflexivity|].
  destruct (p a); simpl; [reflexivity | rewrite IH; reflexivity].
Qed.

Lemma differs_same (label : str) : differs (Some label) label = false.
Proof. unfold differs. rewrite bool_decide_eq_true_2; reflexivity. Qed.

Lemma differs_fixed (x : option str) (label : str) :
  differs (if differs x label then Some label else x) label = false.
Proof.
  destruct (differs x label) eqn:E; [apply differs_same | exact E].
Qed.

Lemma fill_settles {A} (stored new : option A) :
  negb (set_ (if negb (set_ stored) && set_ new then new else stored)) && set_ new = false.
Proof. destruct stored, new; reflexivity. Qed.

Lemma fill_own {A} (v : option A) : negb (set_ v) && set_ v = false.
Proof. destruct v; reflexivity. Qed.

Lemma first_by_name_fresh (title : str) (db : list (Case datetime)) (r : Case datetime) :
  first_by_name (Some title) db = None -> case_name r = Some title ->
  first_by_name (Some title) (db ++ [r]) = Some r.
Proof.
  intros Hn Hr. unfold first_by_name in *. apply find_app_fresh.
  - destruct (existsb (name_is (Some title)) db) eqn:E; [|reflexivity].
    apply find_existsb in E. destruct E as [x Hx]. congruence.
  - apply name_is_refl. exact Hr.
Qed.

Lemma beijing_length c st (title url : str) :
  length (db (fst (beijing_process_case c st title url)))
    = (length (db st) + (if snd (beijing_process_case c st title url) then 1 else 0))%nat.
Proof.
  unfold beijing_process_case.
  destruct (parse_detail_page c url) as [d|]; [|simpl; lia].
  destruct (match attachment_url d with Some ((_ :: _) as aurl) => _ | _ => _ end)
    as [w new_path].
  destruct (first_by_name (Some title) (db st)) as [ex|].
  - match goal with |- context [if ?b then _ else _] => destruct b end; simpl;
      [rewrite write_back_length|]; lia.
  - destruct (commit_ok c); simpl; [rewrite length_app; simpl|]; lia.
Qed.

Lemma shanghai_length c st (title url : str) :
  length (db (fst (shanghai_process_case c st title url)))
    = (length (db st) + (if snd (shanghai_process_case c st title url) then 1 else 0))%nat.
Proof.
  unfold shanghai_process_case.
  destruct (parse_detail_page c url) as [d|]; [|simpl; lia].
  destruct (first_by_name (Some title) (db st)) as [ex|].
  - destruct (match attachment_url d with Some ((_ :: _) as aurl) => _ | _ => _ end)
      as [w new_path].
    match goal with |- context [if ?b then _ else _] => destruct b end; simpl;
      [rewrite write_back_length|]; lia.
  - destruct (match attachment_url d with Some ((_ :: _) as aurl) => _ | _ => _ end)
      as [w new_path].
    destruct (commit_ok c); simpl; [rewrite length_app; simpl|]; lia.
Qed.

End ReconcileFacts.

(** X4.  The regional reconcilers never delete a row, and the Boolean
    they return tells whether a row was added: after
    [BeijingScraper.process_case] or [ShanghaiScraper.process_case] the
    table has one row more when the call returned True and the same
    number of rows when it returned False. *)
Theorem process_case_counts_new_rows :
  forall (c : Reconcile.ctx) (st : Reconcile.state Datetime.datetime) (title url : str),
    length (Reconcile.db (fst (Reconcile.beijing_process_case c st title url)))
      = (length (Reconcile.db st)
         + (if snd (Reconcile.beijing_process_case c st title url) then 1 else 0))%nat
    /\ length (Reconcile.db (fst (Reconcile.shanghai_process_case c st title url)))
       = (length (Reconcile.db st)
          + (if snd (Reconcile.shanghai_process_case c st title url) then 1 else 0))%nat.
Proof.
  intros c st title url. split; [apply beijing_length | apply shanghai_length].
Qed.

(** X5.  Re-running [BeijingScraper.process_case] on the same sighting,
    with the source and the store behaving as before, leaves the table as
    the first run left it and reports no new case. *)
Theorem beijing_process_case_rerun :
  forall (c : Reconcile.ctx) (st : Reconcile.state Datetime.datetime) (title url : str),
    let st1 := fst (Reconcile.beijing_process_case c st title url) in
    Reconcile.db (fst (Reconcile.beijing_process_case c st1 title url)) = Reconcile.db st1
    /\ snd (Reconcile.beijing_process_case c st1 title url) = false.
Proof.
  intros c st title url. cbv zeta.
  destruct (Reconcile.beijing_process_case c st title url) as [st1 b1] eqn:H1. cbn [fst].
  unfold Reconcile.beijing_process_case in H1 |- *. unfold Store.first_by_name in *.
  destruct (Reconcile.parse_detail_page c url) as [d|] eqn:Hp.
  2:{ injection H1 as <- _. split; reflexivity. }
  destruct (match Reconcile.attachment_url d with Some ((_ :: _) as aurl) => _ | _ => _ end)
    as [w new_path] in H1.
  destruct (match Reconcile.attachment_url d with Some ((_ :: _) as aurl) => _ | _ => _ end)
    as [w2 new_path2].
  destruct (find (Store.name_is (Some title)) (Reconcile.db st)) as [ex|] eqn:Hf.
  - match type of H1 with context [if ?b then _ else _] => destruct b eqn:Hb end;
      injection H1 as <- _; cbn [Reconcile.db].
    + match goal with
      | |- context [Store.write_back _ ?e _] =>
          rewrite (write_back_first (Store.name_is (Some title)) ex e (Reconcile.db st) Hf
                     (find_name_is _ _ _ Hf))
      end.
      cbn [Store.region Store.notice_start_date Store.notice_end_date].
      rewrite differs_fixed, !fill_settles. cbn [orb andb fst snd Reconcile.db].
      split; reflexivity.
    + rewrite Hf, Hb. cbn [fst snd Reconcile.db]. split; reflexivity.
  - destruct (Reconcile.commit_ok c) eqn:Hc; injection H1 as <- _; cbn [Reconcile.db].
    + pose proof (first_by_name_fresh title (Reconcile.db st)
                    (Store.mkCase (Store.next_id (Reconcile.db st)) (Some title)
                       (Reconcile.start_date d) (Reconcile.end_date d) (Some url)
                       (Some Reconcile.BEIJING) new_path (Some (Reconcile.now c)))
                    Hf eq_refl) as Hnew.
      unfold Store.first_by_name in Hnew. rewrite Hnew.
      cbn [Store.region Store.notice_start_date Store.notice_end_date].
      rewrite differs_same, !fill_own. cbn [orb andb fst snd Reconcile.db].
      split; reflexivity.
    + rewrite Hf. cbn [fst snd Reconcile.db]. split; reflexivity.
Qed.

Section ShanghaiRerun.
Import Store Env Fetch Reconcile Datetime.
Implicit Types (c : ctx) (st : state datetime) (d : detail)
         (db : list (Case datetime)) (ex : Case datetime).

Lemma shanghai_process_case_steps c st (title url : str) :
  shanghai_process_case c st title url =
  match parse_detail_page c url with
  | None => (st, false)
  | Some d =>
    (mkstate
       (fst (shanghai_store c (db st) title url d
               (snd (shanghai_attach c (world_ st)
                       (first_by_name (Some title) (db st)) d))))
       (fst (shanghai_attach c (world_ st) (first_by_name (Some title) (db st)) d)),
     snd (shanghai_store c (db st) title url d
            (snd (shanghai_attach c (world_ st)
                    (first_by_name (Some title) (db st)) d))))
  end.
Proof.
  unfold shanghai_process_case, shanghai_store.
  destruct (parse_detail_page c url) as [d|]; [|reflexivity].
  change (match attachment_url d with
          | Some [] => (world_ st, None)
          | Some (n :: l) =>
              match attachment_name d with
              | Some [] => (world_ st, None)
              | Some (n0 :: l0) => _
              | None => (world_ st, None)
              end
          | None => (world_ st, None)
          end)
    with (shanghai_attach c (world_ st) (first_by_name (Some title) (db st)) d).
  destruct (shanghai_attach c (world_ st) (first_by_name (Some title) (db st)) d)
    as [w new_path].
  cbn [fst snd].
  destruct (first_by_name (Some title) (db st)) as [ex|].
  - match goal with |- context [if ?b then _ else _] => destruct b end; reflexivity.
  - destruct (commit_ok c); reflexivity.
Qed.

Lemma path_join_length (a b : str) : (length b <= length (path_join a b))%nat.
Proof.
  unfold path_join.
  repeat match goal with
         | |- context [match ?x with _ => _ end] => destruct x
         end; rewrite ?length_app; simpl; lia.
Qed.

Lemma path_join_truthy (a : str) (x : N) (s : str) :
  truthy (Some (path_join a (x :: s))) = true.
Proof.
  pose proof (path_join_length a (x :: s)) as H.
  destruct (path_join a (x :: s)); [simpl in H; lia | reflexivity].
Qed.

Lemma write_chunks_outcome (e : env) (p : str) (chunks : list (list N)) (w w' : world) :
  snd (write_chunks e w p chunks) = snd (write_chunks e w' p chunks).
Proof.
  revert w w'. induction chunks as [|ch cs IH]; intros w w'; simpl; [reflexivity|].
  destruct ch as [|x ch]; [apply IH|]. destruct (disk_ok e); [apply IH | reflexivity].
Qed.

(** A download that failed fails again while the server and the disk
    behave the same. *)
Lemma shanghai_download_fails_again (e : env) (w w1 : world) (url p : str) :
  shanghai_download_attachment e w url p = (w1, false) ->
  snd (shanghai_download_attachment e w1 url p) = false.
Proof.
  intros H. pose proof (shanghai_failure_leaves_no_file e w w1 url p H) as Hno.
  unfold shanghai_download_attachment, get in H |- *. rewrite Hno.
  destruct (exists_ w p); [discriminate|]. cbn [fst snd] in *.
  destruct (makedirs e (dirname p)); cbn [negb] in *; [|reflexivity].
  destruct (net e url) as [|status total chunks broken]; [reflexivity|].
  destruct (status_raises status); [reflexivity|].
  destruct (open_ok e p); cbn [negb] in *; [|reflexivity].
  match type of H with
  | context [write_chunks e ?w0 p chunks] =>
      match goal with
      | |- context [write_chunks e ?w0' p chunks] =>
          pose proof (write_chunks_outcome e p chunks w0 w0') as Hout
      end
  end.
  destruct (write_chunks e _ p chunks) as [wa [|]] in H, Hout;
    destruct (write_chunks e _ p chunks) as [wb [|]]; cbn [snd] in Hout;
    try discriminate; try reflexivity.
  destruct broken; [reflexivity | discriminate].
Qed.

Lemma attach_none_or_truthy c (w : world) (e : option (Case datetime)) d :
  snd (shanghai_attach c w e d) = None \/ truthy (snd (shanghai_attach c w e d)) = true.
Proof.
  unfold shanghai_attach.
  destruct (attachment_url d) as [[|x aurl]|]; try (left; reflexivity).
  destruct (attachment_name d) as [[|y nm]|]; try (left; reflexivity).
  match goal with |- context [if ?b then _ else _] => destruct b end;
    [|left; reflexivity].
  destruct (shanghai_download_attachment _ _ _ _) as [w' [|]]; [|left; reflexivity].
  right. apply path_join_truthy.
Qed.

Lemma attach_skip c (w : world) ex d :
  truthy (attachment_path ex) = true -> shanghai_attach c w (Some ex) d = (w, None).
Proof.
  intros H. unfold shanghai_attach. rewrite H.
  destruct (attachment_url d) as [[|x aurl]|]; try reflexivity.
  destruct (attachment_name d) as [[|y nm]|]; reflexivity.
Qed.

Lemma attach_again c (w : world) (e1 e2 : option (Case datetime)) d :
  match e1 with None => True | Some ex => truthy (attachment_path ex) = false end ->
  snd (shanghai_attach c w e1 d) = None ->
  snd (shanghai_attach c (fst (shanghai_attach c w e1 d)) e2 d) = None.
Proof.
  intros Hcond. unfold shanghai_attach.
  destruct (attachment_url d) as [[|x aurl]|]; try reflexivity.
  destruct (attachment_name d) as [[|y nm]|]; try reflexivity.
  assert (Hc : match e1 with None => true | Some ex => negb (truthy (attachment_path ex)) end
               = true).
  { destruct e1 as [ex|]; [rewrite Hcond|]; reflexivity. }
  rewrite Hc.
  destruct (shanghai_download_attachment (dl c) w (x :: aurl)
              (path_join (attachment_dir c) (y :: nm))) as [w1 [|]] eqn:Hd;
    cbn [fst snd]; [discriminate|]. intros _.
  destruct (match e2 with None => true | Some ex => negb (truthy (attachment_path ex)) end);
    [|reflexivity].
  pose proof (shanghai_download_fails_again _ _ _ _ _ Hd) as Hagain.
  destruct (shanghai_download_attachment (dl c) w1 (x :: aurl)
              (path_join (attachment_dir c) (y :: nm))) as [w2 [|]];
    [discriminate Hagain | reflexivity].
Qed.

Lemma store_no_commit c db (title url : str) d (np : option str) :
  commit_ok c = false -> shanghai_store c db title url d np = (db, false).
Proof.
  intros H. unfold shanghai_store. rewrite H.
  destruct (first_by_name (Some title) db); [rewrite andb_false_r|]; reflexivity.
Qed.

Lemma store_settled c db (title url : str) d (np : option str) ex :
  first_by_name (Some title) db = Some ex ->
  differs (region ex) SHANGHAI = false ->
  negb (set_ (notice_start_date ex)) && set_ (start_date d) = false ->
  negb (set_ (notice_end_date ex)) && set_ (end_date d) = false ->
  np = None \/ truthy (attachment_path ex) = true ->
  shanghai_store c db title url d np = (db, false).
Proof.
  intros Hf Hr Hs He Hp. unfold shanghai_store. rewrite Hf, Hr, Hs, He.
  assert (Hfp : truthy np && negb (truthy (attachment_path ex)) = false).
  { destruct Hp as [-> | ->]; [reflexivity | apply andb_false_r]. }
  rewrite Hfp. reflexivity.
Qed.

Lemma shanghai_rerun_store c db (w : world) (title url : str) d :
  let e1 := first_by_name (Some title) db in
  let a1 := shanghai_attach c w e1 d in
  let db1 := fst (shanghai_store c db title url d (snd a1)) in
  let e2 := first_by_name (Some title) db1 in
  shanghai_store c db1 title url d (snd (shanghai_attach c (fst a1) e2 d)) = (db1, false).
Proof.
  cbv zeta.
  destruct (commit_ok c) eqn:Hc.
  2:{ rewrite !(store_no_commit c _ title url d _ Hc). reflexivity. }
  destruct (first_by_name (Some title) db) as [ex|] eqn:Hf.
  - (* the case is stored *)
    destruct (truthy (attachment_path ex)) eqn:Hpath.
    + (* it has an attachment: the attachment step is skipped *)
      rewrite (attach_skip c w ex d Hpath). cbn [fst snd].
      remember (shanghai_store c db title url d None) as S1 eqn:HS1.
      unfold shanghai_store in HS1. rewrite Hf in HS1. cbn [truthy andb] in HS1.
      rewrite !orb_false_r, Hc, andb_true_r in HS1.
      match type of HS1 with context [if ?b then _ else _] => destruct b eqn:Hb end;
        subst S1; cbn [fst].
      * match goal with
        | |- context [write_back _ ?e _] =>
            pose proof (write_back_first (name_is (Some title)) ex e db Hf
                          (find_name_is _ _ _ Hf)) as Hf2
        end.
        eapply store_settled; [exact Hf2 | cbn [region]; apply differs_fixed
                              | cbn [notice_start_date]; apply fill_settles
                              | cbn [notice_end_date]; apply fill_settles
                              | right; exact Hpath].
      * apply orb_false_iff in Hb. destruct Hb as [Hb Hr].
        apply orb_false_iff in Hb. destruct Hb as [Hs He].
        eapply store_settled; [exact Hf | exact Hr | exact Hs | exact He | right; exact Hpath].
    + (* it has none *)
      destruct (attach_none_or_truthy c w (Some ex) d) as [Hn | Ht].
      * pose proof (fun e2 => attach_again c w (Some ex) e2 d Hpath Hn) as Hag.
        rewrite Hn.
        remember (shanghai_store c db title url d None) as S1 eqn:HS1.
        unfold shanghai_store in HS1. rewrite Hf in HS1. cbn [truthy andb] in HS1.
        rewrite !orb_false_r, Hc, andb_true_r in HS1.
        match type of HS1 with context [if ?b then _ else _] => destruct b eqn:Hb end;
          subst S1; cbn [fst].
        -- match goal with
           | |- context [write_back _ ?e _] =>
               pose proof (write_back_first (name_is (Some title)) ex e db Hf
                             (find_name_is _ _ _ Hf)) as Hf2
           end.
           eapply store_settled; [exact Hf2 | cbn [region]; apply differs_fixed
                                 | cbn [notice_start_date]; apply fill_settles
                                 | cbn [notice_end_date]; apply fill_settles
                                 | left; apply Hag].
        -- apply orb_false_iff in Hb. destruct Hb as [Hb Hr].
           apply orb_false_iff in Hb. destruct Hb as [Hs He].
           eapply store_settled; [exact Hf | exact Hr | exact Hs | exact He | left; apply Hag].
      * (* the download succeeded: the path is recorded *)
        remember (shanghai_store c db title url d
                    (snd (shanghai_attach c w (Some ex) d))) as S1 eqn:HS1.
        unfold shanghai_store in HS1. rewrite Hf, Ht, Hpath in HS1. cbn [negb andb] in HS1.
        rewrite !orb_true_r, Hc in HS1. cbn [andb] in HS1. subst S1. cbn [fst].
        match goal with
        | |- context [write_back _ ?e _] =>
            pose proof (write_back_first (name_is (Some title)) ex e db Hf
                          (find_name_is _ _ _ Hf)) as Hf2
        end.
        eapply store_settled; [exact Hf2 | cbn [region]; apply differs_fixed
                              | cbn [notice_start_date]; apply fill_settles
                              | cbn [notice_end_date]; apply fill_settles
                              | right; cbn [attachment_path]; exact Ht].
  - (* the case is new *)
    remember (shanghai_store c db title url d (snd (shanghai_attach c w None d)))
      as S1 eqn:HS1.
    unfold shanghai_store in HS1. rewrite Hf, Hc in HS1. subst S1. cbn [fst].
    match goal with
    | |- context [db ++ [?r]] =>
        pose proof (first_by_name_fresh title db r Hf eq_refl) as Hf2
    end.
    eapply store_settled; [exact Hf2 | apply differs_same | apply fill_own | apply fill_own |].
    cbn [attachment_path].
    destruct (attach_none_or_truthy c w None d) as [Hn | Ht]; [left | right; exact Ht].
    apply attach_again; [exact I | exact Hn].
Qed.

End ShanghaiRerun.

(** X6.  Re-running [ShanghaiScraper.process_case] on the same sighting,
    with the source, the server and the store behaving as before, leaves
    the table as the first run left it and reports no new case, also
    when the first run could not download the attachment. *)
Theorem shanghai_process_case_rerun :
  forall (c : Reconcile.ctx) (st : Reconcile.state Datetime.datetime) (title url : str),
    let st1 := fst (Reconcile.shanghai_process_case c st title url) in
    Reconcile.db (fst (Reconcile.shanghai_process_case c st1 title url)) = Reconcile.db st1
    /\ snd (Reconcile.shanghai_process_case c st1 title url) = false.
Proof.
  intros c st title url. cbv zeta.
  rewrite (shanghai_process_case_steps c st title url).
  destruct (Reconcile.parse_detail_page c url) as [d|] eqn:Hp; cbn [fst].
  - rewrite shanghai_process_case_steps, Hp. cbn [fst snd Reconcile.db Reconcile.world_].
    rewrite (shanghai_rerun_store c (Reconcile.db st) (Reconcile.world_ st) title url d).
    split; reflexivity.
  - rewrite shanghai_process_case_steps, Hp. split; reflexivity.
Qed.

Section ShanghaiPaths.
Import Store Env Fetch Reconcile Datetime.

Lemma attach_path_exists (c : ctx) (w : world) (e : option (Case datetime)) (d : detail)
      (p : str) :
  snd (shanghai_attach c w e d) = Some p ->
  exists_ (fst (shanghai_attach c w e d)) p = true.
Proof.
  unfold shanghai_attach.
  destruct (attachment_url d) as [[|x aurl]|]; try discriminate.
  destruct (attachment_name d) as [[|y nm]|]; try discriminate.
  match goal with |- context [if ?b then _ else _] => destruct b end; [|discriminate].
  destruct (shanghai_download_attachment _ _ _ _) as [w' [|]] eqn:Hd; [|discriminate].
  cbn [fst snd]. intros [= <-].
  exact (proj1 (shanghai_success_file _ _ _ _ _ Hd)).
Qed.

Lemma write_back_origin {D} (p : Case D -> bool) (ex ex' : Case D) (db : list (Case D))
      (i : nat) (r' : Case D) :
  List.find p db = Some ex -> write_back p ex' db !! i = Some r' ->
  db !! i = Some r' \/ (db !! i = Some ex /\ r' = ex').
Proof.
  intros Hf Hi.
  assert (Hlt : (i < length db)%nat).
  { rewrite <- (write_back_length p ex' db). eapply lookup_lt_Some. exact Hi. }
  destruct (lookup_lt_is_Some_2 db i Hlt) as [r Hr].
  destruct (write_back_lookup p ex ex' db i r Hf Hr) as (r2 & Hr2 & [-> | [-> ->]]).
  - left. congruence.
  - right. split; [exact Hr | congruence].
Qed.

End ShanghaiPaths.

(** X7.  [ShanghaiScraper.process_case] records an attachment path only
    for a file that is there: every row of the table after the call has
    the attachment path it had before, or none, or the path of a file
    that exists when the call returns. *)
Theorem shanghai_records_existing_files :
  forall (c : Reconcile.ctx) (st : Reconcile.state Datetime.datetime) (title url : str)
         (i : nat) (r' : Store.Case Datetime.datetime),
    Reconcile.db (fst (Reconcile.shanghai_process_case c st title url)) !! i = Some r' ->
    (exists r, Reconcile.db st !! i = Some r /\
               Store.attachment_path r' = Store.attachment_path r)
    \/ Store.attachment_path r' = None
    \/ (exists p, Store.attachment_path r' = Some p /\
                  Env.exists_ (Reconcile.world_
                                 (fst (Reconcile.shanghai_process_case c st title url))) p
                  = true).
Proof.
  intros c st title url i r'. rewrite shanghai_process_case_steps.
  destruct (Reconcile.parse_detail_page c url) as [d|]; cbn [fst Reconcile.db Reconcile.world_].
  2:{ intros H. left. exists r'. split; [exact H | reflexivity]. }
  pose proof (attach_path_exists c (Reconcile.world_ st)
                (Store.first_by_name (Some title) (Reconcile.db st)) d) as Hex.
  destruct (shanghai_attach c (Reconcile.world_ st)
              (Store.first_by_name (Some title) (Reconcile.db st)) d) as [w np].
  cbn [fst snd] in *. unfold shanghai_store.
  destruct (Store.first_by_name (Some title) (Reconcile.db st)) as [ex|] eqn:Hf.
  - match goal with |- context [if ?b then _ else _] => destruct b end; cbn [fst].
    + intros H. unfold Store.first_by_name in Hf.
      destruct (write_back_origin _ ex _ _ i r' Hf H) as [Hsame | [Hi ->]].
      * left. exists r'. split; [exact Hsame | reflexivity].
      * cbn [Store.attachment_path].
        destruct (truthy np && negb (truthy (Store.attachment_path ex))) eqn:Hfp.
        -- destruct np as [p|]; [|discriminate Hfp].
           right. right. exists p. split; [reflexivity | apply Hex; reflexivity].
        -- left. exists ex. split; [exact Hi | reflexivity].
    + intros H. left. exists r'. split; [exact H | reflexivity].
  - destruct (Reconcile.commit_ok c); cbn [fst].
    + intros H. apply lookup_app_Some in H.
      destruct H as [Hold | [Hge Hnew]].
      * left. exists r'. split; [exact Hold | reflexivity].
      * destruct (i - length (Reconcile.db st))%nat as [|k]; [|discriminate Hnew].
        injection Hnew as <-. cbn [Store.attachment_path].
        destruct np as [p|]; [|right; left; reflexivity].
        right. right. exists p. split; [reflexivity | apply Hex; reflexivity].
    + intros H. left. exists r'. split; [exact H | reflexivity].
Qed.

Lemma shanghai_records_existing_files_witness :
  exists p,
    List.map Store.attachment_path
      (Reconcile.db (fst (Reconcile.shanghai_process_case shanghai_new_case_ctx empty_state
                            some_case (u "https://scjgj.sh.gov.cn/1.html")))) = [Some p]
    /\ Env.exists_ (Reconcile.world_
                      (fst (Reconcile.shanghai_process_case shanghai_new_case_ctx empty_state
                              some_case (u "https://scjgj.sh.gov.cn/1.html")))) p = true.
Proof.
  assert (Hrow : exists r',
            Reconcile.db (fst (Reconcile.shanghai_process_case shanghai_new_case_ctx
                                 empty_state some_case (u "https://scjgj.sh.gov.cn/1.html")))
              = [r'] /\ Store.attachment_path r' = Some (u "data/attachments/公示表.doc")).
  { eexists. split; vm_compute; reflexivity. }
  destruct Hrow as (r' & Hdb & Hpath).
  destruct (shanghai_records_existing_files shanghai_new_case_ctx empty_state some_case
              (u "https://scjgj.sh.gov.cn/1.html") 0%nat r')
    as [(r & Hr & _) | [Hnone | (p & Hp & Hex)]].
  - rewrite Hdb. reflexivity.
  - discriminate Hr.
  - congruence.
  - exists p. split; [rewrite Hdb; simpl; rewrite Hp; reflexivity | exact Hex].
Defined.

(** X8.  A case that is not yet stored is inserted and can be looked up by
    its title at once.  When no row has the title, the detail page parses
    and the commit succeeds, [BeijingScraper.process_case] and
    [ShanghaiScraper.process_case] return True, and the row then found
    under the title has a rowid larger than every older one, the listing
    URL as source, the dates of the detail page and the region of the
    scraper. *)
Theorem process_case_insert_lookup :
  forall (c : Reconcile.ctx) (st : Reconcile.state Datetime.datetime) (title url : str)
         (d : Reconcile.detail),
    Store.first_by_name (Some title) (Reconcile.db st) = None ->
    Reconcile.parse_detail_page c url = Some d ->
    Reconcile.commit_ok c = true ->
    (snd (Reconcile.beijing_process_case c st title url) = true /\
     exists r,
       Store.first_by_name (Some title)
         (Reconcile.db (fst (Reconcile.beijing_process_case c st title url))) = Some r /\
       Store.source_url r = Some url /\ Store.region r = Some Reconcile.BEIJING /\
       Store.notice_start_date r = Reconcile.start_date d /\
       Store.notice_end_date r = Reconcile.end_date d /\
       Forall (fun r0 => (Store.id r0 < Store.id r)%N) (Reconcile.db st))
    /\
    (snd (Reconcile.shanghai_process_case c st title url) = true /\
     exists r,
       Store.first_by_name (Some title)
         (Reconcile.db (fst (Reconcile.shanghai_process_case c st title url))) = Some r /\
       Store.source_url r = Some url /\ Store.region r = Some Reconcile.SHANGHAI /\
       Store.notice_start_date r = Reconcile.start_date d /\
       Store.notice_end_date r = Reconcile.end_date d /\
       Forall (fun r0 => (Store.id r0 < Store.id r)%N) (Reconcile.db st)).
Proof.
  intros c st title url d Hf Hp Hc.
  assert (Hfresh : Forall (fun r0 : Store.Case Datetime.datetime =>
                     (Store.id r0 < Store.next_id (Reconcile.db st))%N) (Reconcile.db st)).
  { unfold Store.next_id. generalize (Reconcile.db st). intros l.
    induction l as [|a l IH]; constructor.
    - simpl. lia.
    - eapply Forall_impl; [exact IH|]. intros r0 Hr0. simpl in *. lia. }
  split.
  - unfold Reconcile.beijing_process_case. rewrite Hp, Hf, Hc.
    destruct (match Reconcile.attachment_url d with Some ((_ :: _) as aurl) => _ | _ => _ end)
      as [w new_path].
    cbn [fst snd Reconcile.db]. split; [reflexivity|].
    eexists. split; [apply first_by_name_fresh; [exact Hf | reflexivity]|].
    cbn [Store.source_url Store.region Store.notice_start_date Store.notice_end_date Store.id].
    repeat apply conj; try reflexivity. exact Hfresh.
  - unfold Reconcile.shanghai_process_case. rewrite Hp, Hf, Hc.
    destruct (match Reconcile.attachment_url d with Some ((_ :: _) as aurl) => _ | _ => _ end)
      as [w new_path].
    cbn [fst snd Reconcile.db]. split; [reflexivity|].
    eexists. split; [apply first_by_name_fresh; [exact Hf | reflexivity]|].
    cbn [Store.source_url Store.region Store.notice_start_date Store.notice_end_date Store.id].
    repeat apply conj; try reflexivity. exact Hfresh.
Qed.

Lemma process_case_insert_lookup_witness :
  snd (Reconcile.shanghai_process_case shanghai_new_case_ctx empty_state some_case
         (u "https://scjgj.sh.gov.cn/1.html")) = true.
Proof.
  apply (proj2 (process_case_insert_lookup shanghai_new_case_ctx empty_state some_case
                  (u "https://scjgj.sh.gov.cn/1.html")
                  (Reconcile.mkdetail (Some (midnight 2025 4 8)) (Some (midnight 2025 4 17))
                     (Some doc_url) (Some (u "公示表.doc")))
                  eq_refl eq_refl eq_refl)).
Defined.

(** ** [CaseScraper.process_case] *)

Section GeneralScraper.
Import Store CaseScraperStore.
Context {D : Type}.

Lemma save_finds_name (now : N) (db : list (Case D)) (cd : case_data D) (name : str) :
  db_case_name cd = Some name ->
  exists r, first_by_name (Some name) (fst (save_to_db true now db cd)) = Some r /\
            case_name r = Some name /\
            (first_by_name (Some name) db = None -> region r = db_region cd).
Proof.
  intros Hname. unfold db_case_name in Hname. unfold save_to_db. rewrite Hname. cbn [fst].
  destruct (existsb (name_is (Some name)) db) eqn:He.
  - apply find_existsb in He. destruct He as [x Hx]. unfold first_by_name.
    erewrite find_map_preserving; [| |exact Hx].
    + eexists. split; [reflexivity|].
      pose proof (find_some _ _ Hx) as [_ Hp]. cbv beta. rewrite Hp.
      cbn [case_name]. split; [apply name_is_name in Hp; tauto|].
      intros Hnone. congruence.
    + intros r. cbv beta. destruct (name_is (Some name) r) eqn:Er; exact Er.
  - eexists. split; [unfold first_by_name; apply find_app_fresh;
                     [exact He | apply name_is_refl; reflexivity]|].
    split; [reflexivity|]. intros _. reflexivity.
Qed.

Lemma save_length (ok : bool) (now : N) (db : list (Case D)) (cd : case_data D) :
  (length db <= length (fst (save_to_db ok now db cd)) <= S (length db))%nat.
Proof.
  unfold save_to_db. destruct ok; cbn [fst]; [|lia].
  destruct (existsb _ db); [rewrite length_map | rewrite length_app; simpl]; lia.
Qed.

End GeneralScraper.

Lemma resolved_region_label (url t : str) :
  CaseScraperResolver.get_page_type url = Some t ->
  In (t, CaseScraperResolver.get_region_name (Some t)) CaseScraperResolver.region_map /\
  CaseScraperResolver.get_region_name (Some t) <> u "未知".
Proof.
  unfold CaseScraperResolver.get_page_type, CaseScraperResolver.domain_map,
    CaseScraperResolver.scan.
  repeat match goal with
         | |- context [if contains ?d url then _ else _] => destruct (contains d url)
         end; intros [= <-]; (split; [vm_compute; tauto | vm_compute; discriminate]).
Qed.

Lemma casescraper_requests_extend (dir : str) (e : Env.env) (w : Env.world)
      (url case_name : str) :
  exists more,
    Env.requests (fst (Fetch.casescraper_download_attachment dir e w url case_name))
    = Env.requests w ++ more.
Proof.
  unfold Fetch.casescraper_download_attachment, Env.get.
  destruct (Env.exists_ w _); [exists []; cbn; rewrite app_nil_r; reflexivity|].
  destruct (Env.net e url) as [|status total chunks broken];
    [exists [url]; reflexivity|].
  destruct (status =? 200)%N; [|exists [url]; reflexivity].
  destruct (Env.open_ok e _); cbn [negb]; [|exists [url]; reflexivity].
  destruct broken; [exists [url]; reflexivity|].
  destruct (Env.disk_ok e); exists [url]; reflexivity.
Qed.

(** X9.  What [CaseScraper.process_case] does and stores.  It requests
    the detail page first, whatever the URL.  When the page cannot be
    fetched, or the URL is of none of the known sites, that request is all
    that happens: nothing is stored, no file is touched and the result is
    None.  When the call succeeds, the case can be looked up under the
    title of the listing page (not the title parsed from the detail page),
    the region handed to the store is the label of the resolved site in
    [region_map], never the unknown label, and the table has grown by at
    most one row. *)
Theorem casescraper_process_case_stores :
  forall (D : Type) (c : @CaseScraper.ctx D) (st st' : Reconcile.state D)
         (title url : str) (cd : CaseScraperStore.case_data D),
    (exists more,
       Env.requests (Reconcile.world_ (fst (CaseScraper.process_case c st title url)))
       = Env.requests (Reconcile.world_ st) ++ [url] ++ more)
    /\
    (CaseScraper.page_fetched c url = false \/
     CaseScraperResolver.get_page_type url = None ->
     CaseScraper.process_case c st title url
     = (Reconcile.mkstate (Reconcile.db st)
          (Env.mkworld (Env.files (Reconcile.world_ st))
                       (Env.requests (Reconcile.world_ st) ++ [url])),
        None))
    /\
    (CaseScraper.process_case c st title url = (st', Some cd) ->
     (exists r, Store.first_by_name (Some title) (Reconcile.db st') = Some r /\
                Store.case_name r = Some title /\
                (Store.first_by_name (Some title) (Reconcile.db st) = None ->
                 Store.region r = db_region cd)) /\
     (exists t, CaseScraperResolver.get_page_type url = Some t /\
                db_region cd = Some (CaseScraperResolver.get_region_name (Some t)) /\
                In (t, CaseScraperResolver.get_region_name (Some t))
                   CaseScraperResolver.region_map /\
                CaseScraperResolver.get_region_name (Some t) <> u "未知") /\
     (length (Reconcile.db st) <= length (Reconcile.db st') <= S (length (Reconcile.db st)))%nat).
Proof.
  intros D c st st' title url cd. repeat apply conj.
  - unfold CaseScraper.process_case, CaseScraper.fetch_page.
    destruct (CaseScraper.page_fetched c url); cbn [negb];
      [|exists []; reflexivity].
    destruct (CaseScraperResolver.get_page_type url) as [t|]; [|exists []; reflexivity].
    destruct (CaseScraper.detail_of c url) as [det|]; [|exists []; reflexivity].
    assert (Hw : exists more,
               Env.requests
                 (fst (match Store.first_by_name (Some (BaseParser.case_name D det))
                               (Reconcile.db st) with
                       | Some r =>
                           (Env.mkworld (Env.files (Reconcile.world_ st))
                              (Env.requests (Reconcile.world_ st) ++ [url]),
                            CaseScraperStore.Present (Store.attachment_path r))
                       | None =>
                           match BaseParser.attachment_url D det with
                           | Some ((_ :: _) as aurl) =>
                               let (w, p) :=
                                 Fetch.casescraper_download_attachment
                                   (CaseScraper.download_path c) (CaseScraper.dl c)
                                   (Env.mkworld (Env.files (Reconcile.world_ st))
                                      (Env.requests (Reconcile.world_ st) ++ [url]))
                                   aurl (BaseParser.case_name D det) in
                               (w, CaseScraperStore.Present p)
                           | _ =>
                               (Env.mkworld (Env.files (Reconcile.world_ st))
                                  (Env.requests (Reconcile.world_ st) ++ [url]),
                                CaseScraperStore.Absent)
                           end
                       end))
               = Env.requests (Reconcile.world_ st) ++ [url] ++ more).
    { destruct (Store.first_by_name _ (Reconcile.db st)); [exists []; reflexivity|].
      destruct (BaseParser.attachment_url D det) as [[|x aurl]|];
        try (exists []; reflexivity).
      destruct (casescraper_requests_extend (CaseScraper.download_path c) (CaseScraper.dl c)
                  (Env.mkworld (Env.files (Reconcile.world_ st))
                     (Env.requests (Reconcile.world_ st) ++ [url]))
                  (x :: aurl) (BaseParser.case_name D det)) as [more Hm].
      exists more.
      destruct (Fetch.casescraper_download_attachment _ _ _ _ _) as [w p].
      cbn [fst Env.requests] in *. rewrite Hm, <- app_assoc. reflexivity. }
    destruct Hw as [more Hw]. exists more.
    destruct (match Store.first_by_name _ (Reconcile.db st) with Some r => _ | None => _ end)
      as [w path].
    cbn [fst] in Hw.
    destruct (CaseScraperStore.save_to_db _ _ _ _) as [db' [|]]; exact Hw.
  - intros [H|H]; unfold CaseScraper.process_case, CaseScraper.fetch_page.
    + rewrite H. reflexivity.
    + rewrite H. destruct (CaseScraper.page_fetched c url); reflexivity.
  - unfold CaseScraper.process_case.
    destruct (CaseScraper.page_fetched c url); cbn [negb]; [|discriminate].
    destruct (CaseScraperResolver.get_page_type url) as [t|] eqn:Ht; [|discriminate].
    destruct (CaseScraper.detail_of c url) as [det|]; [|discriminate].
    destruct (match Store.first_by_name _ (Reconcile.db st) with Some r => _ | None => _ end)
      as [w path].
    match goal with
    | |- context [CaseScraperStore.save_to_db _ _ _ ?x] => set (data := x)
    end.
    destruct (CaseScraper.session_ok c) eqn:Hs.
    2:{ unfold CaseScraperStore.save_to_db. discriminate. }
    pose proof (save_finds_name (CaseScraper.now c) (Reconcile.db st) data title eq_refl)
      as Hfind.
    pose proof (save_length true (CaseScraper.now c) (Reconcile.db st) data) as Hlen.
    destruct (CaseScraperStore.save_to_db true (CaseScraper.now c) (Reconcile.db st) data)
      as [db' [|]] eqn:Hsave; [|discriminate].
    intros [= <- <-]. cbn [fst Reconcile.db] in *.
    split; [exact Hfind|]. split; [|exact Hlen].
    exists t. split; [reflexivity|]. split; [reflexivity|].
    exact (resolved_region_label url t Ht).
Qed.

Lemma casescraper_process_case_stores_witness :
  CaseScraper.process_case casescraper_new_case_ctx empty_text_state some_case
    (u "https://example.org/1.html")
  = (Reconcile.mkstate [] (Env.mkworld ∅ [u "https://example.org/1.html"]), None)
  /\ exists r,
       Store.first_by_name (Some some_case)
         (Reconcile.db (fst (CaseScraper.process_case casescraper_new_case_ctx
                               empty_text_state some_case
                               (u "https://www.samr.gov.cn/fldes/1.html")))) = Some r
       /\ Store.case_name r = Some some_case.
Proof.
  split.
  - apply (proj1 (proj2 (casescraper_process_case_stores str casescraper_new_case_ctx
                    empty_text_state empty_text_state some_case
                    (u "https://example.org/1.html")
                    nameless_sighting))).
    right. vm_compute. reflexivity.
  - destruct (CaseScraper.process_case casescraper_new_case_ctx empty_text_state some_case
                (u "https://www.samr.gov.cn/fldes/1.html")) as [st' [cd|]] eqn:H.
    + destruct (proj2 (proj2 (casescraper_process_case_stores str casescraper_new_case_ctx
                         empty_text_state st' some_case
                         (u "https://www.samr.gov.cn/fldes/1.html") cd)) H)
        as ((r & Hr & Hn & _) & _).
      exists r. split; [exact Hr | exact Hn].
    + exfalso. vm_compute in H. discriminate H.
Defined.

(** ** The dedup pass as a whole *)

Section DedupWhole.
Import Store Dedup.
Context {D : Type}.
Implicit Types (db rows : list (Case D)) (r : Case D).

Lemma nodup_filter_ids (f : Case D -> bool) db :
  List.NoDup (List.map id db) -> List.NoDup (List.map id (List.filter f db)).
Proof.
  induction db as [|a db IH]; simpl; intros Hnd; [constructor|].
  inversion Hnd as [|? ? Hni Hnd']; subst.
  destruct (f a); simpl; [constructor|]; auto.
  intros Hin. apply Hni. apply in_map_iff in Hin. destruct Hin as (x & Hx & Hin).
  apply in_map_iff. exists x. split; [exact Hx|]. apply filter_In in Hin. tauto.
Qed.

(** After the DELETE every group has one row: the one with the largest
    rowid. *)
Lemma delete_leaves_one_per_group db (key : option str) :
  List.NoDup (List.map id db) -> group_of key db <> [] ->
  exists keep, In keep db /\ source_url keep = key /\
               id keep = max_rowid (group_of key db) /\
               group_of key (delete_not_max db) = [keep].
Proof.
  intros Hnd Hne.
  destruct (max_rowid_attained (group_of key db) Hne) as (keep & Hk & Hid).
  apply in_group in Hk. destruct Hk as [Hk Hurl].
  exists keep. split; [exact Hk|]. split; [exact Hurl|]. split; [exact Hid|].
  unfold delete_not_max. unfold group_of at 1. rewrite filter_twice.
  apply filter_only; [exact Hnd | exact Hk |]. intros r Hr.
  rewrite andb_true_iff, (survives_iff db r Hnd Hr).
  unfold same_group. rewrite bool_decide_eq_true. split.
  - intros [Hmax Hu]. rewrite Hmax, <- Hu. exact (eq_sym Hid).
  - intros Hrid. assert (r = keep) by (apply (rowid_inj db); assumption). subst r.
    split; [rewrite Hurl; exact Hid | symmetry; exact Hurl].
Qed.

Lemma delete_groups_small db (key : option str) :
  List.NoDup (List.map id db) ->
  (length (group_of key (delete_not_max db)) <= 1)%nat.
Proof.
  intros Hnd. destruct (group_of key db) as [|a g] eqn:Hg.
  - assert (Hnil : group_of key (delete_not_max db) = []).
    { apply filter_none. intros x Hx. unfold delete_not_max in Hx. apply filter_In in Hx.
      destruct Hx as [Hx _]. destruct (same_group key (source_url x)) eqn:E; [|reflexivity].
      assert (Hin : In x (group_of key db)).
      { apply in_group. split; [exact Hx|]. unfold same_group in E.
        apply bool_decide_eq_true in E. congruence. }
      rewrite Hg in Hin. destruct Hin. }
    rewrite Hnil. simpl. lia.
  - destruct (delete_leaves_one_per_group db key Hnd) as (keep & _ & _ & _ & Hone).
    + rewrite Hg. discriminate.
    + rewrite Hone. simpl. lia.
Qed.

Lemma delete_keeps_groups_empty db (key : option str) :
  group_of key db = [] -> group_of key (delete_not_max db) = [].
Proof.
  intros Hg. apply filter_none. intros x Hx. unfold delete_not_max in Hx.
  apply filter_In in Hx. destruct Hx as [Hx _].
  destruct (same_group key (source_url x)) eqn:E; [|reflexivity].
  assert (Hin : In x (group_of key db)).
  { apply in_group. split; [exact Hx|]. unfold same_group in E.
    apply bool_decide_eq_true in E. congruence. }
  rewrite Hg in Hin. destruct Hin.
Qed.

Lemma dedup_subset db r : In r (deduplicate_by_source_url db) -> In r db.
Proof.
  unfold deduplicate_by_source_url. destruct db as [|a db]; [tauto|].
  destruct (num_duplicate_urls_positive (a :: db)); [|tauto].
  unfold delete_not_max. intros H. apply filter_In in H. tauto.
Qed.

Lemma no_duplicates_when_groups_small db :
  (forall key, (length (group_of key db) <= 1)%nat) ->
  num_duplicate_urls_positive db = false.
Proof.
  intros H. unfold num_duplicate_urls_positive.
  destruct (existsb (is_duplicated db) db) eqn:E; [|reflexivity].
  apply existsb_exists in E. destruct E as (r & _ & Hr). unfold is_duplicated in Hr.
  destruct (source_url r) as [[|x s]|] eqn:Hu; try discriminate.
  apply Nat.ltb_lt in Hr. specialize (H (Some (x :: s))). lia.
Qed.

Lemma dedup_result_clean db :
  List.NoDup (List.map id db) ->
  num_duplicate_urls_positive (deduplicate_by_source_url db) = false.
Proof.
  intros Hnd. unfold deduplicate_by_source_url. destruct db as [|a db]; [reflexivity|].
  destruct (num_duplicate_urls_positive (a :: db)) eqn:E; [|exact E].
  apply no_duplicates_when_groups_small. intros key.
  apply delete_groups_small. exact Hnd.
Qed.

End DedupWhole.

(** X10.  After the dedup pass no non-NULL, non-empty [source_url] occurs
    in two rows, and every row left was there before.  When the pass
    found no such duplicate it leaves the table as it is.  When it found
    one and ran its DELETE, every group of the GROUP BY that had a row has
    been cut down to exactly one row, the one whose rowid is the highest
    of the group (the newest), so rows that share a NULL or an empty
    [source_url] are deleted as well, all but the newest; no group comes
    into being. *)
Theorem dedup_leaves_no_duplicates :
  forall (D : Type) (db : list (Store.Case D)),
    List.NoDup (List.map Store.id db) ->
    Dedup.num_duplicate_urls_positive (Dedup.deduplicate_by_source_url db) = false
    /\ (forall r, In r (Dedup.deduplicate_by_source_url db) -> In r db)
    /\ (Dedup.num_duplicate_urls_positive db = false ->
        Dedup.deduplicate_by_source_url db = db)
    /\ (Dedup.num_duplicate_urls_positive db = true ->
        forall key : option str,
          (Dedup.group_of key db = [] ->
           Dedup.group_of key (Dedup.deduplicate_by_source_url db) = [])
          /\ (Dedup.group_of key db <> [] ->
              exists keep,
                In keep db /\ Store.source_url keep = key /\
                (forall r, In r db -> Store.source_url r = key ->
                           (Store.id r <= Store.id keep)%N) /\
                Dedup.group_of key (Dedup.deduplicate_by_source_url db) = [keep])).
Proof.
  intros D db Hnd. repeat apply conj.
  - apply dedup_result_clean. exact Hnd.
  - intros r. apply dedup_subset.
  - intros Hno. unfold Dedup.deduplicate_by_source_url.
    destruct db as [|a db]; [reflexivity|]. rewrite Hno. reflexivity.
  - intros Hdup key.
    assert (Hrun : Dedup.deduplicate_by_source_url db = Dedup.delete_not_max db).
    { unfold Dedup.deduplicate_by_source_url.
      destruct db as [|a db]; [discriminate Hdup|]. rewrite Hdup. reflexivity. }
    rewrite Hrun. split.
    + apply delete_keeps_groups_empty.
    + intros Hne.
      destruct (delete_leaves_one_per_group db key Hnd Hne)
        as (keep & Hk & Hurl & Hid & Hone).
      exists keep. repeat apply conj; [exact Hk | exact Hurl | | exact Hone].
      intros r Hr Hu. rewrite Hid. apply max_rowid_ge. apply in_group. tauto.
Qed.

Lemma dedup_leaves_no_duplicates_witness :
  List.map Store.id (Dedup.deduplicate_by_source_url mixed_table) = [3; 4; 5]
  /\ (exists keep,
        Dedup.group_of None (Dedup.deduplicate_by_source_url mixed_table) = [keep]
        /\ Store.source_url keep = None
        /\ (Store.id (row_with_url 1 None) <= Store.id keep)%N
        /\ (Store.id (row_with_url 3 None) <= Store.id keep)%N).
Proof.
  split; [vm_compute; reflexivity|].
  destruct (proj2 (proj2 (proj2 (dedup_leaves_no_duplicates str mixed_table
              ltac:(vm_compute; repeat constructor; simpl; intuition discriminate))))
              ltac:(vm_compute; reflexivity) None) as [_ H].
  destruct H as (keep & _ & Hurl & Hmax & Hone); [vm_compute; discriminate|].
  exists keep. repeat apply conj; [exact Hone | exact Hurl | |];
    apply Hmax; try reflexivity; vm_compute; tauto.
Defined.

(** X11.  The dedup pass is idempotent: run on its own result it deletes
    nothing more. *)
Theorem dedup_idempotent :
  forall (D : Type) (db : list (Store.Case D)),
    List.NoDup (List.map Store.id db) ->
    Dedup.deduplicate_by_source_url (Dedup.deduplicate_by_source_url db)
      = Dedup.deduplicate_by_source_url db.
Proof.
  intros D db Hnd. pose proof (dedup_result_clean db Hnd) as Hclean.
  unfold Dedup.deduplicate_by_source_url at 1.
  destruct (Dedup.deduplicate_by_source_url db) as [|a l]; [reflexivity|].
  rewrite Hclean. reflexivity.
Qed.

Lemma dedup_idempotent_witness :
  Dedup.deduplicate_by_source_url (Dedup.deduplicate_by_source_url mixed_table)
    = Dedup.deduplicate_by_source_url mixed_table.
Proof.
  apply (dedup_idempotent str mixed_table).
  vm_compute. repeat constructor; simpl; intuition discriminate.
Defined.

(** ** The fetchers and the file system *)

Section FetchFrame.
Import Env Fetch.
Implicit Types (e : env) (w : world) (p q url : str).

Lemma files_open_ne w p q : q <> p -> files (open_wb w p) !! q = files w !! q.
Proof. intros H. unfold open_wb. simpl. apply lookup_insert_ne. congruence. Qed.

Lemma files_write_ne w p q b : q <> p -> files (write w p b) !! q = files w !! q.
Proof. intros H. unfold write. simpl. apply lookup_insert_ne. congruence. Qed.

Lemma files_cleanup_ne w p q : q <> p -> files (cleanup w p) !! q = files w !! q.
Proof.
  intros H. unfold cleanup, remove. destruct (exists_ w p); [|reflexivity].
  simpl. apply lookup_delete_ne. congruence.
Qed.

Lemma files_write_chunks_ne e w w' p q chunks (ok : bool) :
  q <> p -> write_chunks e w p chunks = (w', ok) -> files w' !! q = files w !! q.
Proof.
  intros H. revert w. induction chunks as [|c cs IH]; intros w; simpl.
  - intros [= <- _]. reflexivity.
  - destruct c as [|x c]; [apply IH|].
    destruct (disk_ok e); [|intros [= <- _]; reflexivity].
    intros Hw. rewrite (IH _ Hw). apply files_write_ne. exact H.
Qed.

Lemma requests_cleanup w p : requests (cleanup w p) = requests w.
Proof. unfold cleanup, remove. destruct (exists_ w p); reflexivity. Qed.

Lemma files_write_chunks_eq e w w' p chunks (old : list N) :
  files w !! p = Some old ->
  write_chunks e w p chunks = (w', true) ->
  files w' !! p = Some (old ++ concat chunks).
Proof.
  revert w old. induction chunks as [|c cs IH]; intros w old Hold; simpl.
  - intros [= <-]. rewrite app_nil_r. exact Hold.
  - destruct c as [|x c]; [apply IH; exact Hold|].
    destruct (disk_ok e); [|discriminate].
    intros Hw. apply (IH (write w p (x :: c)) (old ++ x :: c)) in Hw.
    + rewrite Hw, <- app_assoc. reflexivity.
    + unfold write. simpl. rewrite lookup_insert_eq, Hold. reflexivity.
Qed.

Lemma files_open_eq w p : files (open_wb w p) !! p = Some [].
Proof. unfold open_wb. simpl. apply lookup_insert_eq. Qed.

Lemma beijing_frame e w url p q :
  q <> p -> files (fst (beijing_download_attachment e w url p)) !! q = files w !! q.
Proof.
  intros H. unfold beijing_download_attachment, get.
  destruct (makedirs e (dirname p)); cbn [negb fst snd];
    [|rewrite files_cleanup_ne by exact H; reflexivity].
  destruct (net e url) as [|status total chunks broken]; cbn [fst].
  - rewrite files_cleanup_ne by exact H. reflexivity.
  - destruct (status_raises status); cbn [fst];
      [rewrite files_cleanup_ne by exact H; reflexivity|].
    destruct (open_ok e p); cbn [negb fst];
      [|rewrite files_cleanup_ne by exact H; reflexivity].
    destruct (total =? 0)%N.
    + destruct broken; [|destruct (disk_ok e)]; cbn [fst];
        rewrite ?files_cleanup_ne, ?files_write_ne, ?files_open_ne by exact H; reflexivity.
    + destruct (write_chunks e _ p chunks) as [w1 [|]] eqn:Hw;
        [destruct broken|]; cbn [fst];
        rewrite ?files_cleanup_ne by exact H;
        rewrite (files_write_chunks_ne _ _ _ _ _ _ _ H Hw), files_open_ne by exact H;
        reflexivity.
Qed.

Lemma shanghai_frame e w url p q :
  q <> p -> files (fst (shanghai_download_attachment e w url p)) !! q = files w !! q.
Proof.
  intros H. unfold shanghai_download_attachment, get.
  destruct (exists_ w p); [reflexivity|].
  destruct (makedirs e (dirname p)); cbn [negb fst snd];
    [|rewrite files_cleanup_ne by exact H; reflexivity].
  destruct (net e url) as [|status total chunks broken]; cbn [fst].
  - rewrite files_cleanup_ne by exact H. reflexivity.
  - destruct (status_raises status); cbn [fst];
      [rewrite files_cleanup_ne by exact H; reflexivity|].
    destruct (open_ok e p); cbn [negb fst];
      [|rewrite files_cleanup_ne by exact H; reflexivity].
    destruct (write_chunks e _ p chunks) as [w1 [|]] eqn:Hw;
      [destruct broken|]; cbn [fst];
      rewrite ?files_cleanup_ne by exact H;
      rewrite (files_write_chunks_ne _ _ _ _ _ _ _ H Hw), files_open_ne by exact H;
      reflexivity.
Qed.

Lemma casescraper_frame (dir : str) e w url (case_name : str) q :
  q <> casescraper_target dir url case_name ->
  files (fst (casescraper_download_attachment dir e w url case_name)) !! q = files w !! q.
Proof.
  intros H. unfold casescraper_target in H.
  unfold casescraper_download_attachment, get.
  destruct (exists_ w _); [reflexivity|]. cbn [fst snd].
  destruct (net e url) as [|status total chunks broken]; [reflexivity|].
  destruct (status =? 200)%N; [|reflexivity].
  destruct (open_ok e _); cbn [negb]; [|reflexivity].
  destruct broken; [|destruct (disk_ok e)]; cbn [fst];
    rewrite ?files_write_ne, ?files_open_ne by exact H; reflexivity.
Qed.

Lemma downloader_frame (dir : str) e w (url : option str) (case_name region : str) q :
  q <> downloader_target dir case_name region ->
  files (fst (downloader_download_attachment dir e w url case_name region)) !! q
    = files w !! q.
Proof.
  intros H. unfold downloader_target in H. unfold downloader_download_attachment, get.
  destruct url as [[|x url]|]; try reflexivity.
  destruct (makedirs e _); cbn [negb fst snd]; [|reflexivity].
  destruct (net e (x :: url)) as [|status total chunks broken]; [reflexivity|].
  destruct broken; [reflexivity|].
  destruct (status =? 200)%N; [|reflexivity].
  destruct (open_ok e _); cbn [negb]; [|reflexivity].
  destruct (disk_ok e); cbn [fst];
    rewrite ?files_write_ne, ?files_open_ne by exact H; reflexivity.
Qed.

End FetchFrame.

(** X12.  A fetcher touches no file but its target: whatever the server
    and the disk do, after a call of any of the four
    [download_attachment] functions every other path holds what it held
    before. *)
Theorem fetchers_touch_only_target :
  forall (e : Env.env) (w : Env.world) (url q : str),
    (forall p, q <> p ->
       Env.files (fst (Fetch.beijing_download_attachment e w url p)) !! q = Env.files w !! q)
    /\ (forall p, q <> p ->
          Env.files (fst (Fetch.shanghai_download_attachment e w url p)) !! q
            = Env.files w !! q)
    /\ (forall dir case_name, q <> casescraper_target dir url case_name ->
          Env.files (fst (Fetch.casescraper_download_attachment dir e w url case_name)) !! q
            = Env.files w !! q)
    /\ (forall dir case_name region, q <> downloader_target dir case_name region ->
          Env.files (fst (Fetch.downloader_download_attachment dir e w (Some url)
                            case_name region)) !! q
            = Env.files w !! q).
Proof.
  intros e w url q. repeat apply conj.
  - intros p H. apply beijing_frame. exact H.
  - intros p H. apply shanghai_frame. exact H.
  - intros dir case_name H. apply casescraper_frame. exact H.
  - intros dir case_name region H. apply downloader_frame. exact H.
Qed.

Lemma fetchers_touch_only_target_witness :
  Env.files (fst (Fetch.beijing_download_attachment breaking_env world_with_other_file
                    doc_url some_case_path)) !! u "data/attachments/other.pdf"
    = Some [1; 2; 3].
Proof.
  rewrite (proj1 (fetchers_touch_only_target breaking_env world_with_other_file doc_url
                    (u "data/attachments/other.pdf")) some_case_path).
  - vm_compute. reflexivity.
  - vm_compute. discriminate.
Defined.

Section FetchOutcome.
Import Env Fetch.
Implicit Types (e : env) (w : world) (p q url : str).

Lemma beijing_success_content e w w' url p status total chunks broken :
  net e url = Resp status total chunks broken ->
  beijing_download_attachment e w url p = (w', true) ->
  files w' !! p = Some (concat chunks).
Proof.
  intros Hn. unfold beijing_download_attachment, get.
  destruct (makedirs e (dirname p)); cbn [negb]; [|discriminate].
  rewrite Hn.
  destruct (status_raises status); [discriminate|].
  destruct (open_ok e p); cbn [negb]; [|discriminate].
  destruct (total =? 0)%N.
  - destruct broken; [discriminate|]. destruct (disk_ok e); [|discriminate].
    intros [= <-]. unfold write, open_wb. simpl.
    rewrite lookup_insert_eq, lookup_insert_eq. reflexivity.
  - destruct (write_chunks e _ p chunks) as [w1 [|]] eqn:Hw; [|discriminate].
    destruct broken; [discriminate|]. intros [= <-].
    eapply (files_write_chunks_eq e _ _ p chunks []); [| exact Hw]; apply files_open_eq.
Qed.

Lemma shanghai_success_content e w w' url p status total chunks broken :
  net e url = Resp status total chunks broken ->
  exists_ w p = false ->
  shanghai_download_attachment e w url p = (w', true) ->
  files w' !! p = Some (concat chunks).
Proof.
  intros Hn Hex. unfold shanghai_download_attachment, get. rewrite Hex.
  destruct (makedirs e (dirname p)); cbn [negb]; [|discriminate].
  rewrite Hn.
  destruct (status_raises status); [discriminate|].
  destruct (open_ok e p); cbn [negb]; [|discriminate].
  destruct (write_chunks e _ p chunks) as [w1 [|]] eqn:Hw; [|discriminate].
  destruct broken; [discriminate|]. intros [= <-].
  eapply (files_write_chunks_eq e _ _ p chunks []); [| exact Hw]; apply files_open_eq.
Qed.

Lemma casescraper_success_content (dir : str) e w w' url (case_name name : str)
      status total chunks broken :
  net e url = Resp status total chunks broken ->
  exists_ w (casescraper_target dir url case_name) = false ->
  casescraper_download_attachment dir e w url case_name = (w', Some name) ->
  files w' !! casescraper_target dir url case_name = Some (concat chunks).
Proof.
  intros Hn Hex. unfold casescraper_target in *.
  unfold casescraper_download_attachment, get. rewrite Hex, Hn.
  destruct (status =? 200)%N; [|discriminate].
  destruct (open_ok e _); cbn [negb]; [|discriminate].
  destruct broken; [discriminate|]. destruct (disk_ok e); [|discriminate].
  intros [= <- _]. unfold write, open_wb. simpl.
  rewrite lookup_insert_eq, lookup_insert_eq. reflexivity.
Qed.

Lemma downloader_success_content (dir : str) e w w' url (case_name region path : str)
      status total chunks broken :
  net e url = Resp status total chunks broken ->
  downloader_download_attachment dir e w (Some url) case_name region = (w', Some path) ->
  path = downloader_target dir case_name region /\ files w' !! path = Some (concat chunks).
Proof.
  intros Hn. unfold downloader_target, downloader_download_attachment, get.
  destruct url as [|x url]; [discriminate|].
  destruct (makedirs e _); cbn [negb]; [|discriminate].
  rewrite Hn.
  destruct broken; [discriminate|]. destruct (status =? 200)%N; [|discriminate].
  destruct (open_ok e _); cbn [negb]; [|discriminate].
  destruct (disk_ok e); [|discriminate].
  intros [= <- <-]. split; [reflexivity|]. unfold write, open_wb. simpl.
  rewrite lookup_insert_eq, lookup_insert_eq. reflexivity.
Qed.

Lemma beijing_requests e w url p :
  requests (fst (beijing_download_attachment e w url p))
    = if makedirs e (dirname p) then requests w ++ [url] else requests w.
Proof.
  unfold beijing_download_attachment, get.
  destruct (makedirs e (dirname p)); cbn [negb fst]; [|apply requests_cleanup].
  destruct (net e url) as [|status total chunks broken]; cbn [fst];
    [apply requests_cleanup|].
  destruct (status_raises status); cbn [fst]; [apply requests_cleanup|].
  destruct (open_ok e p); cbn [negb fst]; [|apply requests_cleanup].
  destruct (total =? 0)%N.
  - destruct broken; [|destruct (disk_ok e)]; cbn [fst];
      rewrite ?requests_cleanup; reflexivity.
  - destruct (write_chunks e _ p chunks) as [w1 [|]] eqn:Hw;
      [destruct broken|]; cbn [fst]; rewrite ?requests_cleanup;
      rewrite (requests_write_chunks _ _ _ _ _ _ Hw); reflexivity.
Qed.

Lemma shanghai_requests e w url p :
  requests (fst (shanghai_download_attachment e w url p))
    = if exists_ w p then requests w
      else if makedirs e (dirname p) then requests w ++ [url] else requests w.
Proof.
  unfold shanghai_download_attachment, get.
  destruct (exists_ w p); [reflexivity|].
  destruct (makedirs e (dirname p)); cbn [negb fst]; [|apply requests_cleanup].
  destruct (net e url) as [|status total chunks broken]; cbn [fst];
    [apply requests_cleanup|].
  destruct (status_raises status); cbn [fst]; [apply requests_cleanup|].
  destruct (open_ok e p); cbn [negb fst]; [|apply requests_cleanup].
  destruct (write_chunks e _ p chunks) as [w1 [|]] eqn:Hw;
    [destruct broken|]; cbn [fst]; rewrite ?requests_cleanup;
    rewrite (requests_write_chunks _ _ _ _ _ _ Hw); reflexivity.
Qed.

Lemma casescraper_requests (dir : str) e w url (case_name : str) :
  requests (fst (casescraper_download_attachment dir e w url case_name))
    = if exists_ w (casescraper_target dir url case_name)
      then requests w else requests w ++ [url].
Proof.
  unfold casescraper_target, casescraper_download_attachment, get.
  destruct (exists_ w _); [reflexivity|].
  destruct (net e url) as [|status total chunks broken]; [reflexivity|].
  destruct (status =? 200)%N; [|reflexivity].
  destruct (open_ok e _); cbn [negb]; [|reflexivity].
  destruct broken; [|destruct (disk_ok e)]; reflexivity.
Qed.

Lemma downloader_requests (dir : str) e w (url : option str) (case_name region : str) :
  requests (fst (downloader_download_attachment dir e w url case_name region))
    = if truthy url && makedirs e (path_join dir region)
      then requests w ++ [default [] url] else requests w.
Proof.
  unfold downloader_download_attachment, get.
  destruct url as [[|x url]|]; try reflexivity. cbn [truthy default fst andb].
  change (truthy (Some (x :: url))) with true. cbn [andb].
  destruct (makedirs e _); cbn [negb]; [|reflexivity].
  destruct (net e (x :: url)) as [|status total chunks broken]; [reflexivity|].
  destruct broken; [reflexivity|].
  destruct (status =? 200)%N; [|reflexivity].
  destruct (open_ok e _); cbn [negb]; [|reflexivity].
  destruct (disk_ok e); reflexivity.
Qed.

End FetchOutcome.

(** X13.  A download that succeeds stores exactly the bytes served, all
    chunks in order.  [BeijingScraper.download_attachment] replaces what
    was at the path; the other three start from no file
    ([AttachmentDownloader] also replaces), and [AttachmentDownloader]
    returns the path it derived from the download directory, the region
    and the case name. *)
Theorem successful_download_stores_body :
  forall (e : Env.env) (w w' : Env.world) (url : str)
         (status total : N) (chunks : list (list N)) (broken : bool),
    Env.net e url = Env.Resp status total chunks broken ->
    (forall p,
       Fetch.beijing_download_attachment e w url p = (w', true) ->
       Env.files w' !! p = Some (concat chunks))
    /\ (forall p,
          Env.exists_ w p = false ->
          Fetch.shanghai_download_attachment e w url p = (w', true) ->
          Env.files w' !! p = Some (concat chunks))
    /\ (forall dir case_name name,
          Env.exists_ w (casescraper_target dir url case_name) = false ->
          Fetch.casescraper_download_attachment dir e w url case_name = (w', Some name) ->
          Env.files w' !! casescraper_target dir url case_name = Some (concat chunks))
    /\ (forall dir case_name region path,
          Fetch.downloader_download_attachment dir e w (Some url) case_name region
            = (w', Some path) ->
          path = downloader_target dir case_name region /\
          Env.files w' !! path = Some (concat chunks)).
Proof.
  intros e w w' url status total chunks broken Hn. repeat apply conj.
  - intros p. exact (beijing_success_content e w w' url p _ _ _ _ Hn).
  - intros p. exact (shanghai_success_content e w w' url p _ _ _ _ Hn).
  - intros dir case_name name.
    exact (casescraper_success_content dir e w w' url case_name name _ _ _ _ Hn).
  - intros dir case_name region path.
    exact (downloader_success_content dir e w w' url case_name region path _ _ _ _ Hn).
Qed.

Lemma successful_download_stores_body_witness :
  Env.files (fst (Fetch.beijing_download_attachment sound_env world_with_other_file
                    doc_url some_case_path)) !! some_case_path
    = Some [37; 80; 68; 70].
Proof.
  destruct (Fetch.beijing_download_attachment sound_env world_with_other_file
              doc_url some_case_path) as [w' ok] eqn:H.
  assert (Hok : ok = true).
  { apply (f_equal snd) in H. vm_compute in H. congruence. }
  subst ok.
  exact (proj1 (successful_download_stores_body sound_env world_with_other_file w' doc_url
                  200 4 [[37; 80]; [68; 70]] false eq_refl) some_case_path H).
Defined.

(** X14.  Network use of the fetchers.  Each creates its directory
    before it asks the server, and asks at most once.
    [BeijingScraper.download_attachment] issues exactly one GET, for the
    URL given, when [os.makedirs] on the directory part of the path
    succeeds, and none when it raises (as it does for a path with no
    directory part).  The Shanghai fetcher issues none when a file is at
    the target path or [os.makedirs] raises, and exactly one otherwise.
    [CaseScraper.download_attachment] issues none when a file is at the
    target path and exactly one otherwise.
    [AttachmentDownloader.download_attachment] issues none for a missing
    or empty URL or when the region's directory cannot be created, and
    exactly one otherwise.  No outcome of the request leads to a second
    one. *)
Theorem fetchers_issue_one_request :
  forall (e : Env.env) (w : Env.world),
    (forall url p,
       Env.requests (fst (Fetch.beijing_download_attachment e w url p))
         = if Env.makedirs e (Env.dirname p)
           then Env.requests w ++ [url] else Env.requests w)
    /\ (forall url,
          Env.requests (fst (Fetch.beijing_download_attachment e w url (u "a.pdf")))
            = Env.requests w)
    /\ (forall url p,
          Env.requests (fst (Fetch.shanghai_download_attachment e w url p))
            = if Env.exists_ w p then Env.requests w
              else if Env.makedirs e (Env.dirname p)
                   then Env.requests w ++ [url] else Env.requests w)
    /\ (forall dir url case_name,
          Env.requests (fst (Fetch.casescraper_download_attachment dir e w url case_name))
            = if Env.exists_ w (casescraper_target dir url case_name)
              then Env.requests w else Env.requests w ++ [url])
    /\ (forall dir (url : option str) case_name region,
          Env.requests (fst (Fetch.downloader_download_attachment dir e w url
                               case_name region))
            = if truthy url && Env.makedirs e (Env.path_join dir region)
              then Env.requests w ++ [default [] url] else Env.requests w).
Proof.
  intros e w. repeat apply conj.
  - intros url p. apply beijing_requests.
  - intros url. rewrite beijing_requests. reflexivity.
  - intros url p. apply shanghai_requests.
  - intros dir url case_name. apply casescraper_requests.
  - intros dir url case_name region. apply downloader_requests.
Qed.

(** ** File names *)

Section FileNames.

Lemma in_replace1 (x c : N) (new s : str) :
  In x (replace1 c new s) -> In x new \/ (In x s /\ x <> c).
Proof.
  induction s as [|a s IH]; simpl; [tauto|].
  destruct (a =? c)%N eqn:E.
  - rewrite in_app_iff. intros [H|H]; [left; exact H|].
    destruct (IH H) as [H'|[H' Hne]]; [left; exact H' | right; tauto].
  - simpl. intros [->|H].
    + right. split; [left; reflexivity|]. apply N.eqb_neq. exact E.
    + destruct (IH H) as [H'|[H' Hne]]; [left; exact H' | right; tauto].
Qed.

Lemma in_fold_replace (x : N) (new cs s : str) :
  In x (fold_left (fun t c => replace1 c new t) cs s) ->
  In x new \/ (In x s /\ ~ In x cs).
Proof.
  revert s. induction cs as [|c cs IH]; intros s; simpl; [tauto|].
  intros H. destruct (IH _ H) as [H'|[H' Hn]]; [left; exact H'|].
  destruct (in_replace1 _ _ _ _ H') as [H''|[H'' Hne]]; [left; exact H''|].
  right. split; [exact H''|]. intros [Hc|Hc]; [congruence | contradiction].
Qed.

Lemma in_lstrip (x : N) (s : str) : In x (lstrip s) -> In x s.
Proof.
  induction s as [|a s IH]; simpl; [tauto|].
  destruct (is_space a); [intros H; right; exact (IH H) | simpl; tauto].
Qed.

Lemma in_strip (x : N) (s : str) : In x (strip s) -> In x s.
Proof.
  unfold strip, rstrip. intros H. apply in_rev in H. apply in_lstrip in H.
  apply in_rev in H. apply in_lstrip in H. exact H.
Qed.

Lemma in_firstn {A} (x : A) (n : nat) (l : list A) : In x (firstn n l) -> In x l.
Proof.
  revert l. induction n as [|n IH]; intros [|a l]; simpl; try tauto.
  intros [->|H]; [left; reflexivity | right; exact (IH _ H)].
Qed.

Lemma safe_title_clean (case_name : str) (x : N) :
  In x (Fetch.safe_title case_name) -> ~ In x Fetch.illegal_chars.
Proof.
  unfold Fetch.safe_title.
  set (t := strip (fold_left _ Fetch.illegal_chars case_name)).
  assert (Ht : forall y, In y t -> ~ In y Fetch.illegal_chars).
  { intros y Hy. unfold t in Hy. apply in_strip in Hy.
    destruct (in_fold_replace _ _ _ _ Hy) as [[]|[_ Hn]]. exact Hn. }
  destruct (100 <? length t)%nat; [|apply Ht].
  rewrite in_app_iff. intros [H|H].
  - apply Ht. eapply in_firstn. exact H.
  - vm_compute in H. vm_compute. intuition (subst; discriminate).
Qed.

Lemma safe_title_short (case_name : str) :
  (length (Fetch.safe_title case_name) <= 100)%nat.
Proof.
  unfold Fetch.safe_title.
  set (t := strip (fold_left _ Fetch.illegal_chars case_name)).
  destruct (100 <? length t)%nat eqn:E.
  - apply Nat.ltb_lt in E. rewrite length_app, length_firstn.
    change (length (u "...")) with 3%nat. lia.
  - apply Nat.ltb_ge in E. exact E.
Qed.

Lemma file_ext_cases (url : str) :
  Fetch.file_ext url = u ".docx" \/ Fetch.file_ext url = u ".pdf"
  \/ Fetch.file_ext url = u ".doc".
Proof.
  unfold Fetch.file_ext.
  destruct (endswith (u ".docx") (lower url)); [tauto|].
  destruct (endswith (u ".pdf") (lower url)); tauto.
Qed.

Lemma file_name_head (url case_name : str) :
  exists x s, Fetch.file_name url case_name = x :: s /\ x <> 47%N.
Proof.
  unfold Fetch.file_name.
  destruct (Fetch.safe_title case_name) as [|x s] eqn:E.
  - destruct (file_ext_cases url) as [H|[H|H]]; rewrite H;
      eexists _, _; (split; [vm_compute; reflexivity | discriminate]).
  - exists x, (s ++ Fetch.file_ext url). split; [reflexivity|].
    intros ->. apply (safe_title_clean case_name 47%N).
    + rewrite E. left. reflexivity.
    + vm_compute. tauto.
Qed.

Lemma path_join_relative (a : str) (x : N) (s : str) :
  x <> 47%N -> startswith a (Env.path_join a (x :: s)) = true.
Proof.
  intros Hx. unfold Env.path_join.
  assert (Hm : forall (T : Type) (u1 u2 : T),
             match x with 47%N => u1 | _ => u2 end = u2).
  { intros T u1 u2.
    repeat match goal with
           | |- context [match ?y with _ => _ end] => destruct y; try reflexivity
           end; congruence. }
  rewrite Hm.
  destruct a as [|a0 a]; [reflexivity|].
  destruct (endswith [47%N] (a0 :: a)); apply startswith_spec; eexists; reflexivity.
Qed.

Lemma sub_illegal_clean (name : str) (x : N) :
  In x (Reconcile.sub_illegal name) ->
  ~ In x [92; 47; 58; 42; 63; 34; 60; 62; 124]%N.
Proof.
  unfold Reconcile.sub_illegal. intros H. apply in_map_iff in H.
  destruct H as (c & Hc & _).
  destruct (existsb (N.eqb c) [92; 47; 58; 42; 63; 34; 60; 62; 124]%N) eqn:E.
  - subst x. vm_compute. intuition discriminate.
  - subst x. intros Hin.
    assert (existsb (N.eqb c) [92; 47; 58; 42; 63; 34; 60; 62; 124]%N = true).
    { apply existsb_exists. exists c. split; [exact Hin | apply N.eqb_refl]. }
    congruence.
Qed.

Lemma split_acc_fields (c : N) (cur s f : str) :
  ~ In c cur -> In f (split_acc c cur s) -> ~ In c f.
Proof.
  revert cur. induction s as [|x s IH]; intros cur Hc; simpl.
  - intros [<-|[]]. rewrite <- in_rev. exact Hc.
  - destruct (N.eqb_spec x c) as [->|Hne].
    + intros [<-|H]; [rewrite <- in_rev; exact Hc|].
      apply (IH []); [intros [] | exact H].
    + apply IH. intros [E|H]; [congruence | exact (Hc H)].
Qed.

Lemma last_in_or_default {A} (l : list A) (d : A) : l = [] \/ In (List.last l d) l.
Proof.
  induction l as [|a l IH]; [left; reflexivity|]. right.
  destruct l as [|b l]; [left; reflexivity|].
  destruct IH as [IH|IH]; [discriminate|]. right. exact IH.
Qed.

Lemma lower_cp_dot (c : N) : lower_cp c = 46%N -> c = 46%N.
Proof.
  unfold lower_cp. destruct ((65 <=? c) && (c <=? 90))%N eqn:E; [|tauto].
  apply andb_true_iff in E. destruct E as [E1 E2].
  apply N.leb_le in E1. lia.
Qed.

Lemma last_field_no_dot (aurl : str) : ~ In 46%N (Reconcile.last_field aurl).
Proof.
  unfold Reconcile.last_field, lower, split. intros H.
  apply in_map_iff in H. destruct H as (c & Hc & Hin).
  apply lower_cp_dot in Hc. subst c.
  destruct (last_in_or_default (split_acc 46 [] aurl) []) as [E|Hl].
  - rewrite E in Hin. exact Hin.
  - exact (split_acc_fields 46 [] aurl _ (fun F => F) Hl Hin).
Qed.

Lemma sub_illegal_dot (c : N) :
  (if existsb (N.eqb c) [92; 47; 58; 42; 63; 34; 60; 62; 124]%N then 95%N else c) = 46%N ->
  c = 46%N.
Proof.
  destruct (existsb _ _); [discriminate | tauto].
Qed.

Lemma path_join_cases (a b : str) :
  relative b -> b <> [] ->
  exists sep, (sep = [] \/ sep = [47%N]) /\ Env.path_join a b = a ++ sep ++ b.
Proof.
  unfold relative. intros Hb Hne. destruct b as [|x b]; [congruence|]. simpl in Hb.
  unfold Env.path_join.
  assert (Hm : forall (T : Type) (u1 u2 : T),
             match x with 47%N => u1 | _ => u2 end = u2).
  { intros T u1 u2.
    repeat match goal with
           | |- context [match ?y with _ => _ end] => destruct y; try reflexivity
           end; congruence. }
  rewrite Hm.
  destruct a as [|a0 a]; [exists []; split; [left|]; reflexivity|].
  destruct (endswith [47%N] (a0 :: a));
    [exists [] | exists [47%N]]; split; auto.
Qed.

End FileNames.

(** X15.  The file name [CaseScraper.download_attachment] derives holds
    none of the ten characters it strips from the case name (so no slash
    and no blank) before its extension, that part is at most 100
    characters long, the extension is one of .doc, .docx and .pdf, and the
    target path lies under the download directory. *)
Theorem casescraper_file_name_safe :
  forall (dir url case_name : str),
    Forall (fun x => ~ In x Fetch.illegal_chars) (Fetch.safe_title case_name)
    /\ (length (Fetch.safe_title case_name) <= 100)%nat
    /\ Fetch.file_name url case_name = Fetch.safe_title case_name ++ Fetch.file_ext url
    /\ In (Fetch.file_ext url) [u ".docx"; u ".pdf"; u ".doc"]
    /\ startswith dir (casescraper_target dir url case_name) = true.
Proof.
  intros dir url case_name. repeat apply conj.
  - apply Forall_forall. intros x Hx. apply (safe_title_clean case_name).
    apply list_elem_of_In. exact Hx.
  - apply safe_title_short.
  - reflexivity.
  - destruct (file_ext_cases url) as [H|[H|H]]; rewrite H; simpl; tauto.
  - unfold casescraper_target.
    destruct (file_name_head url case_name) as (x & s & -> & Hx).
    apply path_join_relative. exact Hx.
Qed.

(** X16.  The file name [BeijingScraper.process_case] derives from the
    case title and the URL holds none of the nine characters it replaces,
    in particular no slash, and is as long as title, dot and extension
    together.  It is therefore one path component, not empty, and the
    target path is the attachment directory, a separator when the
    directory needs one, and that component.  The component is one of the
    names [.] and [..], which stand for the directory itself and for its
    parent, exactly when the title is empty or a single dot and the URL
    has nothing after its last dot; so a title [.] with a URL that ends in
    a dot gives the path data/attachments/[..]. *)
Theorem beijing_file_name_safe :
  forall (dir title aurl : str),
    let name := Reconcile.sub_illegal (title ++ [46%N] ++ Reconcile.last_field aurl) in
    Forall (fun x => ~ In x [92; 47; 58; 42; 63; 34; 60; 62; 124]%N) name
    /\ length name = (length title + 1 + length (Reconcile.last_field aurl))%nat
    /\ name <> [] /\ ~ In 47%N name
    /\ (exists sep, (sep = [] \/ sep = [47%N]) /\
                    beijing_target dir title aurl = dir ++ sep ++ name)
    /\ (name = [46%N] \/ name = [46%N; 46%N] <->
        Reconcile.last_field aurl = [] /\ (title = [] \/ title = [46%N]))
    /\ beijing_target (u "data/attachments") (u ".") (u "http://scjgj.beijing.gov.cn/a.")
       = u "data/attachments/..".
Proof.
  intros dir title aurl name.
  assert (Hclean : forall x, In x name ->
                      ~ In x [92; 47; 58; 42; 63; 34; 60; 62; 124]%N).
  { intros x Hx.
    exact (sub_illegal_clean (title ++ [46%N] ++ Reconcile.last_field aurl) x Hx). }
  assert (Hlen : length name
                 = (length title + 1 + length (Reconcile.last_field aurl))%nat).
  { unfold name, Reconcile.sub_illegal. rewrite length_map, !length_app. simpl. lia. }
  assert (Hne : name <> []).
  { intros E. rewrite E in Hlen. simpl in Hlen. lia. }
  assert (Hslash : ~ In 47%N name).
  { intros H. apply (Hclean _ H). vm_compute. tauto. }
  repeat apply conj.
  - apply Forall_forall. intros x Hx. apply Hclean. apply list_elem_of_In. exact Hx.
  - exact Hlen.
  - exact Hne.
  - exact Hslash.
  - unfold beijing_target. fold name. apply path_join_cases; [|exact Hne].
    unfold relative. destruct name as [|x t]; [congruence|]. simpl.
    intros ->. apply Hslash. left. reflexivity.
  - intros H.
    assert (Hl : (length title + 1 + length (Reconcile.last_field aurl) <= 2)%nat).
    { rewrite <- Hlen. destruct H as [H|H]; rewrite H; simpl; lia. }
    pose proof (last_field_no_dot aurl) as Hdot.
    unfold name, Reconcile.sub_illegal in H. clear Hclean Hlen Hne Hslash.
    destruct (Reconcile.last_field aurl) as [|y [|z ext]].
    + split; [reflexivity|].
      destruct title as [|a [|b t]]; [left; reflexivity | | simpl in Hl; lia].
      right. destruct H as [H|H]; [discriminate H|].
      apply (f_equal (fun l => nth 0 l 0%N)) in H. cbn [app List.map nth] in H.
      apply sub_illegal_dot in H. subst a. reflexivity.
    + exfalso. destruct title as [|a t]; [|simpl in Hl; lia].
      destruct H as [H|H]; [discriminate H|].
      apply (f_equal (fun l => nth 1 l 0%N)) in H. cbn [app List.map nth] in H.
      apply sub_illegal_dot in H. apply Hdot. left. exact H.
    + simpl in Hl. lia.
  - intros [Hext [Ht|Ht]]; unfold name; rewrite Hext, Ht;
      [left | right]; reflexivity.
  - vm_compute. reflexivity.
Qed.

Section Paths.

Lemma path_join_under (a b : str) :
  relative b -> exists t, Env.path_join a b = a ++ t.
Proof.
  unfold relative. intros Hb.
  destruct b as [|x b].
  { unfold Env.path_join. destruct a as [|a0 a]; [exists []; reflexivity|].
    destruct (endswith [47%N] (a0 :: a)); eexists; reflexivity. }
  simpl in Hb.
  pose proof (path_join_relative a x b Hb) as H.
  apply startswith_spec in H. exact H.
Qed.

Lemma lstrip_fixed (s : str) :
  (forall x t, s = x :: t -> is_space x = false) -> lstrip s = s.
Proof.
  destruct s as [|x t]; [reflexivity|]. intros H. simpl.
  rewrite (H x t eq_refl). reflexivity.
Qed.

Lemma strip_fixed (s : str) : trimmed s -> strip s = s.
Proof.
  intros [Hl Hr]. unfold strip, rstrip. rewrite (lstrip_fixed s Hl).
  rewrite lstrip_fixed; [apply rev_involutive|].
  intros x t E. apply (Hr x (rev t)).
  rewrite <- (rev_involutive s), E. reflexivity.
Qed.

Lemma lstrip_head (s : str) (x : N) (t : str) :
  lstrip s = x :: t -> is_space x = false.
Proof.
  induction s as [|a s IH]; simpl; [discriminate|].
  destruct (is_space a) eqn:E; [exact IH|]. intros [= <- _]. exact E.
Qed.

Lemma lstrip_suffix (s : str) : exists p, s = p ++ lstrip s.
Proof.
  induction s as [|a s [p IH]]; simpl; [exists []; reflexivity|].
  destruct (is_space a); [|exists []; reflexivity].
  exists (a :: p). simpl. f_equal. exact IH.
Qed.

Lemma strip_head (s : str) (x : N) (t : str) :
  strip s = x :: t -> is_space x = false.
Proof.
  unfold strip, rstrip. intros E.
  destruct (lstrip_suffix (rev (lstrip s))) as [p Hp].
  apply (f_equal (@rev N)) in Hp. rewrite rev_involutive, rev_app_distr, E in Hp.
  simpl in Hp. exact (lstrip_head s x _ Hp).
Qed.

Lemma replace1_fixed (c : N) (new s : str) : ~ In c s -> replace1 c new s = s.
Proof.
  induction s as [|a s IH]; simpl; [reflexivity|]. intros H.
  destruct (a =? c)%N eqn:E.
  - apply N.eqb_eq in E. tauto.
  - rewrite IH; [reflexivity | tauto].
Qed.

Lemma fold_replace_fixed (new cs s : str) :
  (forall c, In c cs -> ~ In c s) ->
  fold_left (fun t c => replace1 c new t) cs s = s.
Proof.
  induction cs as [|c cs IH]; simpl; [reflexivity|]. intros H.
  rewrite replace1_fixed; [|apply H; left; reflexivity].
  apply IH. intros c' Hc'. apply H. right. exact Hc'.
Qed.

End Paths.

(** X17.  [AttachmentDownloader.download_attachment] uses the region and
    the case name as they come.  With a server that answers 200 in full,
    the download succeeds exactly when the region's directory can be
    created, the file can be opened at the path derived from directory,
    region and case name (it cannot when a slash inside the case name
    names a directory that is not there) and the write succeeds; the path
    is then returned and holds the body, and in every other case the
    result is None.  A case name that begins with a slash makes that path
    the case name's own absolute path plus .doc, whatever the directory
    and the region are. *)
Theorem downloader_path_follows_case_name :
  forall (dir : str) (e : Env.env) (w : Env.world) (url case_name region : str)
         (total : N) (chunks : list (list N)),
    url <> [] ->
    Env.net e url = Env.Resp 200 total chunks false ->
    let r := Fetch.downloader_download_attachment dir e w (Some url) case_name region in
    let path := downloader_target dir case_name region in
    snd r = (if Env.makedirs e (Env.path_join dir region)
                && Env.open_ok e path && Env.disk_ok e
             then Some path else None)
    /\ (snd r = Some path -> Env.files (fst r) !! path = Some (concat chunks))
    /\ (forall rest, case_name = 47 :: rest -> path = case_name ++ u ".doc").
Proof.
  intros dir e w url case_name region total chunks Hurl Hn r path.
  unfold r, path, Fetch.downloader_download_attachment, Env.get, downloader_target.
  destruct url as [|c url]; [congruence|].
  destruct (Env.makedirs e (Env.path_join dir region)); cbn [negb andb];
    [|repeat apply conj; [reflexivity | discriminate | intros rest ->; reflexivity]].
  rewrite Hn. change (200 =? 200)%N with true. cbn iota.
  destruct (Env.open_ok e _); cbn [negb andb];
    [|repeat apply conj; [reflexivity | discriminate | intros rest ->; reflexivity]].
  destruct (Env.disk_ok e);
    [|repeat apply conj; [reflexivity | discriminate | intros rest ->; reflexivity]].
  repeat apply conj; [reflexivity | | intros rest ->; reflexivity].
  intros _. unfold Env.write, Env.open_wb. cbn [fst Env.files].
  rewrite lookup_insert_eq, lookup_insert_eq. reflexivity.
Qed.

Lemma downloader_path_follows_case_name_witness :
  snd (Fetch.downloader_download_attachment (u "data/attachments") sound_env empty_world
         (Some doc_url) (u "/tmp/x") (u "北京"))
  = Some (u "/tmp/x.doc").
Proof.
  destruct (downloader_path_follows_case_name (u "data/attachments") sound_env
              empty_world doc_url (u "/tmp/x") (u "北京") 4 [[37; 80]; [68; 70]]
              ltac:(vm_compute; discriminate) eq_refl) as (H1 & _ & H3).
  rewrite H1, (H3 (u "tmp/x") eq_refl). vm_compute. reflexivity.
Defined.

(** X18.  [FileHandler.sanitize_filename]: the result holds none of the
    nine invalid characters, is at most 255 characters long and does not
    begin with white space; a name that holds no invalid character, has
    no white space at either end and is at most 255 characters long comes
    back unchanged. *)
Theorem sanitize_filename_safe :
  forall (filename : str),
    Forall (fun x => ~ In x FileHandler.invalid_chars)
           (FileHandler.sanitize_filename filename)
    /\ (length (FileHandler.sanitize_filename filename) <= 255)%nat
    /\ (forall x t, FileHandler.sanitize_filename filename = x :: t -> is_space x = false)
    /\ ((forall c, In c FileHandler.invalid_chars -> ~ In c filename) ->
        trimmed filename -> (length filename <= 255)%nat ->
        FileHandler.sanitize_filename filename = filename).
Proof.
  intros filename. unfold FileHandler.sanitize_filename. repeat apply conj.
  - apply Forall_forall. intros x Hx. apply list_elem_of_In in Hx.
    apply in_firstn, in_strip in Hx.
    destruct (in_fold_replace _ _ _ _ Hx) as [H|[_ H]]; [|exact H].
    destruct H as [<-|[]]. vm_compute. intuition discriminate.
  - rewrite length_firstn. lia.
  - intros x t E.
    destruct (strip _) as [|y s] eqn:Es; [discriminate|].
    simpl in E. injection E as -> _. exact (strip_head _ _ _ Es).
  - intros Hc Ht Hl. rewrite fold_replace_fixed by exact Hc.
    rewrite strip_fixed by exact Ht. apply firstn_all2. exact Hl.
Qed.

Lemma sanitize_filename_safe_witness :
  FileHandler.sanitize_filename some_case_doc = some_case_doc.
Proof.
  apply (proj2 (proj2 (proj2 (sanitize_filename_safe some_case_doc)))).
  - intros c Hc Hin. vm_compute in Hc, Hin. intuition (subst; discriminate).
  - split; intros x t E.
    + vm_compute in E. injection E as <- _. reflexivity.
    + apply (f_equal (@rev N)) in E. rewrite rev_app_distr in E. vm_compute in E.
      injection E as <- _. reflexivity.
  - apply Nat.leb_le. vm_compute. reflexivity.
Defined.

Lemma ends_doc_only (r : str) :
  endswith (u ".doc") r = true ->
  endswith (u ".docx") r = false /\ endswith (u ".pdf") r = false.
Proof.
  unfold endswith.
  change (rev (u ".doc")) with [99; 111; 100; 46]%N.
  change (rev (u ".docx")) with [120; 99; 111; 100; 46]%N.
  change (rev (u ".pdf")) with [102; 100; 112; 46]%N.
  destruct (rev r) as [|a t]; [discriminate|].
  cbn [startswith]. destruct (N.eqb_spec 99 a) as [<-|]; [|discriminate].
  intros _. split; reflexivity.
Qed.

(** X19.  [FileHandler.get_file_extension] and the extension choice inside
    [CaseScraper.download_attachment] agree on every URL, although they
    test the endings in different orders; the result is the ending of the
    lower-cased URL when that is .doc, .docx or .pdf, and .doc otherwise. *)
Theorem file_extension_choices_agree :
  forall (url : str),
    FileHandler.get_file_extension url = Fetch.file_ext url
    /\ In (FileHandler.get_file_extension url) FileHandler.extensions
    /\ (forall ext, In ext FileHandler.extensions ->
          endswith ext (lower url) = true ->
          FileHandler.get_file_extension url = ext)
    /\ ((forall ext, In ext FileHandler.extensions -> endswith ext (lower url) = false) ->
          FileHandler.get_file_extension url = u ".doc").
Proof.
  intros url.
  unfold FileHandler.get_file_extension, FileHandler.extensions, Fetch.file_ext.
  cbn [FileHandler.first_extension].
  destruct (endswith (u ".doc") (lower url)) eqn:Edoc.
  - destruct (ends_doc_only _ Edoc) as [Ex Ep]. rewrite Ex, Ep.
    repeat apply conj.
    + reflexivity.
    + left. reflexivity.
    + intros ext [<-|[<-|[<-|[]]]] H; [reflexivity | congruence | congruence].
    + intros H. reflexivity.
  - destruct (endswith (u ".docx") (lower url)) eqn:Ex.
    + repeat apply conj.
      * reflexivity.
      * right. left. reflexivity.
      * intros ext [<-|[<-|[<-|[]]]] H; [congruence | reflexivity |].
        exfalso. revert Ex H. unfold endswith.
        change (rev (u ".docx")) with [120; 99; 111; 100; 46]%N.
        change (rev (u ".pdf")) with [102; 100; 112; 46]%N.
        destruct (rev (lower url)) as [|a t]; [discriminate|].
        cbn [startswith]. destruct (N.eqb_spec 120 a) as [<-|]; discriminate.
      * intros H. specialize (H (u ".docx")). rewrite Ex in H.
        discriminate H. right. left. reflexivity.
    + destruct (endswith (u ".pdf") (lower url)) eqn:Ep.
      * repeat apply conj.
        -- reflexivity.
        -- right. right. left. reflexivity.
        -- intros ext [<-|[<-|[<-|[]]]] H; [congruence | congruence | reflexivity].
        -- intros H. specialize (H (u ".pdf")). rewrite Ep in H.
           discriminate H. right. right. left. reflexivity.
      * repeat apply conj.
        -- reflexivity.
        -- left. reflexivity.
        -- intros ext [<-|[<-|[<-|[]]]] H; congruence.
        -- intros H. reflexivity.
Qed.

(** ** Splitting and stripping *)

Section SplitFacts.

Lemma split_acc_length (c : N) (cur s : str) :
  length (split_acc c cur s) = S (occurrences c s).
Proof.
  revert cur. induction s as [|x s IH]; intros cur; [reflexivity|].
  unfold occurrences in *. simpl. rewrite (N.eqb_sym c x).
  destruct (x =? c)%N; simpl; rewrite IH; reflexivity.
Qed.

Lemma split_acc_none (c : N) (cur s : str) :
  ~ In c s -> split_acc c cur s = [rev cur ++ s].
Proof.
  revert cur. induction s as [|x s IH]; intros cur H; simpl.
  - rewrite app_nil_r. reflexivity.
  - destruct (N.eqb_spec x c) as [->|Hne]; [exfalso; apply H; left; reflexivity|].
    rewrite IH by (intros Hin; apply H; right; exact Hin).
    simpl. rewrite <- app_assoc. reflexivity.
Qed.

Lemma split_acc_one (c : N) (cur a b : str) :
  ~ In c a -> split_acc c cur (a ++ c :: b) = (rev cur ++ a) :: split_acc c [] b.
Proof.
  revert cur. induction a as [|x a IH]; intros cur H; simpl.
  - rewrite N.eqb_refl, app_nil_r. reflexivity.
  - destruct (N.eqb_spec x c) as [->|Hne]; [exfalso; apply H; left; reflexivity|].
    rewrite IH by (intros Hin; apply H; right; exact Hin).
    simpl. rewrite <- app_assoc. reflexivity.
Qed.

Lemma occurrences_zero (c : N) (s : str) : occurrences c s = 0%nat <-> ~ In c s.
Proof.
  unfold occurrences. induction s as [|x s IH]; simpl; [tauto|].
  destruct (N.eqb_spec c x) as [->|Hne]; simpl.
  - split; [discriminate | intros H; exfalso; apply H; left; reflexivity].
  - rewrite IH. split; [intros H [E|Hin]; [congruence | tauto] | tauto].
Qed.

Lemma contains_char (c : N) (s : str) : contains [c] s = true <-> In c s.
Proof.
  induction s as [|x s IH]; simpl.
  - split; [discriminate | tauto].
  - rewrite orb_true_iff, andb_true_r, N.eqb_eq, IH.
    split; (intros [H|H]; [left; congruence | right; exact H]).
Qed.

Lemma strip_trimmed (s : str) : trimmed (strip s).
Proof.
  split; intros x t E.
  - exact (strip_head s x t E).
  - unfold strip, rstrip in E. apply (f_equal (@rev N)) in E.
    rewrite rev_involutive, rev_app_distr in E. simpl in E.
    exact (lstrip_head _ _ _ E).
Qed.

Lemma strip_idem (s : str) : strip (strip s) = strip s.
Proof. apply strip_fixed, strip_trimmed. Qed.

Lemma parse_date_string_strip (s : str) :
  DateParser.parse_date_string (strip s) = DateParser.parse_date_string s.
Proof. unfold DateParser.parse_date_string. rewrite strip_idem. reflexivity. Qed.

End SplitFacts.

(** X20.  [DateParser.extract_date_range] called without a pattern gives
    dates only for a text with exactly one separator, and then the two
    sides parsed on their own by [parse_date_string]; a text without the
    separator, or with two or more of them, gives no date at all.  With a
    pattern that finds nothing, it gives no date either. *)
Theorem dateparser_range_needs_one_separator :
  forall (text : str),
    (occurrences DateParser.ZHI text <> 1%nat ->
       DateParser.extract_date_range text None = (None, None))
    /\ (forall a b,
          text = a ++ [DateParser.ZHI] ++ b ->
          occurrences DateParser.ZHI text = 1%nat ->
          DateParser.extract_date_range text None
            = (DateParser.parse_date_string a, DateParser.parse_date_string b))
    /\ (forall p, Re.search p text = None ->
          DateParser.extract_date_range text (Some p) = (None, None)).
Proof.
  intros text. repeat apply conj.
  - intros Hn. unfold DateParser.extract_date_range.
    destruct (contains [DateParser.ZHI] text) eqn:Ec; [|reflexivity].
    pose proof (split_acc_length DateParser.ZHI [] text) as Hl.
    fold (split DateParser.ZHI text) in Hl.
    destruct (split DateParser.ZHI text) as [|x [|y [|z l]]]; try reflexivity.
    simpl in Hl. exfalso. apply Hn. lia.
  - intros a b -> H1.
    assert (Ha : ~ In DateParser.ZHI a /\ ~ In DateParser.ZHI b).
    { unfold occurrences in H1. rewrite List.filter_app, length_app in H1.
      cbn [List.filter app] in H1. rewrite N.eqb_refl in H1. cbn [length] in H1.
      split; apply occurrences_zero; unfold occurrences; lia. }
    destruct Ha as [Ha Hb].
    unfold DateParser.extract_date_range.
    assert (Ec : contains [DateParser.ZHI] (a ++ [DateParser.ZHI] ++ b) = true).
    { apply contains_char. rewrite in_app_iff. right. left. reflexivity. }
    rewrite Ec. unfold split. cbn [app].
    rewrite (split_acc_one _ [] a b Ha), (split_acc_none _ [] b Hb).
    cbn [rev app]. rewrite !parse_date_string_strip. reflexivity.
  - intros p Hp. unfold DateParser.extract_date_range. rewrite Hp. reflexivity.
Qed.

Lemma dateparser_range_needs_one_separator_witness :
  DateParser.extract_date_range clean_range None
    = (DateParser.parse_date_string (u "2025年4月8日"),
       DateParser.parse_date_string (u "2025年4月17日")).
Proof.
  apply (proj1 (proj2 (dateparser_range_needs_one_separator clean_range))
           (u "2025年4月8日") (u "2025年4月17日")); vm_compute; reflexivity.
Defined.

(** ** Routing *)

Lemma scan_in (items : list (str * str)) (url t : str) :
  CaseScraperResolver.scan items url = Some t -> In t (List.map snd items).
Proof.
  induction items as [|[d0 t0] items IH]; simpl; [discriminate|].
  destruct (contains d0 url); [intros [= <-]; left; reflexivity | right; auto].
Qed.

Lemma resolved_type_listed (url t : str) :
  PageTypeIdentifier.identify_page_type url = Some t \/
  CaseScraperResolver.get_page_type url = Some t ->
  In t PageTypeIdentifier.SOURCE_IDS.
Proof.
  intros [H|H].
  - rewrite identify_is_first_match in H. exact (first_match_in _ _ _ H).
  - apply scan_in in H. vm_compute in H. vm_compute. tauto.
Qed.

(** X21.  Every page type that [PageTypeIdentifier.identify_page_type] or
    [CaseScraper.get_page_type] returns for a URL is a key of
    [create_parser]'s table, so a parser is always created for a resolved
    URL, and it has a region label in both region tables;
    [DateParser.get_parser_for_type] names a method for each of these
    types except shaanxi.  [CaseScraper.parse_detail_page] therefore
    returns nothing only for an unresolved URL or when the parser's
    [parse] returns nothing. *)
Theorem resolved_page_type_has_parser :
  forall (url t : str),
    PageTypeIdentifier.identify_page_type url = Some t \/
    CaseScraperResolver.get_page_type url = Some t ->
    (exists cls, ParserFactory.create_parser (Some t) = Some cls
                 /\ In (t, cls) ParserFactory.parser_map
                 /\ (PageTypeIdentifier.identify_page_type url = Some t ->
                     forall (Soup D : Type) parse_of (soup : Soup),
                       @ParserFactory.parse_detail_page Soup D parse_of soup url
                         = parse_of cls soup))
    /\ PageTypeIdentifier.get_region (Some t) <> u "未知"
    /\ CaseScraperResolver.get_region_name (Some t) <> u "未知"
    /\ (ParserFactory.get_parser_for_type (Some t) = None <-> t = u "shaanxi").
Proof.
  intros url t H. pose proof (resolved_type_listed url t H) as Hin.
  assert (Hid : forall cls, ParserFactory.create_parser (Some t) = Some cls ->
            t <> [] ->
            PageTypeIdentifier.identify_page_type url = Some t ->
            forall (Soup D : Type) parse_of (soup : Soup),
              @ParserFactory.parse_detail_page Soup D parse_of soup url
                = parse_of cls soup).
  { intros cls Hc Ht Hi Soup D parse_of soup.
    unfold ParserFactory.parse_detail_page. rewrite Hi.
    destruct t as [|c t']; [congruence|]. rewrite Hc. reflexivity. }
  vm_compute in Hin.
  destruct Hin as [<-|[<-|[<-|[<-|[<-|[<-|[]]]]]]];
    (split; [eexists; split; [vm_compute; reflexivity|];
             split; [vm_compute; tauto|];
             apply Hid; [vm_compute; reflexivity | discriminate]
            |]);
    (split; [vm_compute; discriminate|]);
    (split; [vm_compute; discriminate|]);
    (split; [vm_compute; intros E; try discriminate E; reflexivity
            | intros E; vm_compute in E; try discriminate E; vm_compute; reflexivity]).
Qed.

Lemma resolved_page_type_has_parser_witness :
  ParserFactory.get_parser_for_type (Some (u "shaanxi")) = None.
Proof.
  apply (proj2 (proj2 (proj2 (resolved_page_type_has_parser
           (u "https://snamr.shaanxi.gov.cn/info/1.html") (u "shaanxi")
           (or_introl eq_refl))))).
  reflexivity.
Defined.

(** ** The Playwright driver *)

Section Driver.
Import Pagination.
Variable page : Type.
Variable first_title : page -> res (option str).
Variable next_button : page -> res bool.
Variable click_next : page -> page * bool.
Variable wait_content : page -> res unit.
Variable goto : str -> page -> page * bool.
Variable case_links : page -> res (list (str * str)).

Local Abbreviation turn :=
  (_turn_to_next_page page first_title next_button click_next wait_content).
Local Abbreviation turns :=
  (turn_times page first_title next_button click_next wait_content).
Local Abbreviation links := (read_links page wait_content case_links).
Local Abbreviation loop :=
  (list_page_loop page first_title next_button click_next wait_content goto case_links).

Lemma turn_ok (s s' : scraper page) :
  turn s = (s', true) ->
  exists n t0 t1,
    current_page page s = Some n /\ current_page page s' = Some (S n)
    /\ clicks page s' = S (clicks page s)
    /\ pg page s' = fst (click_next (pg page s))
    /\ first_title (pg page s) = Ret (Some t0)
    /\ first_title (pg page s') = Ret (Some t1)
    /\ t1 <> t0.
Proof.
  unfold _turn_to_next_page, reset.
  destruct (first_title (pg page s)) as [[t0|]|] eqn:E0; try discriminate.
  destruct (next_button (pg page s)) as [[|]|]; try discriminate.
  destruct (click_next (pg page s)) as [p' ok] eqn:Ec. cbn [pg current_page clicks].
  destruct ok; cbn [negb]; [|discriminate].
  destruct (wait_content p'); [|discriminate].
  destruct (first_title p') as [[t1|]|] eqn:E1; try discriminate.
  unfold str_eqb. case_bool_decide as Hne; [discriminate|].
  destruct (current_page page s) as [n|]; [|discriminate].
  intros [= <-]. exists n, t0, t1. cbn [pg current_page clicks fst].
  repeat apply conj; try reflexivity; assumption.
Qed.

Lemma turn_fail (s s' : scraper page) :
  turn s = (s', false) ->
  (current_page page s' = current_page page s \/ current_page page s' = None)
  /\ ((clicks page s' = clicks page s /\ pg page s' = pg page s)
      \/ (clicks page s' = S (clicks page s)
          /\ pg page s' = fst (click_next (pg page s)))).
Proof using page first_title next_button click_next wait_content.
  unfold _turn_to_next_page, reset.
  destruct (first_title (pg page s)) as [[t0|]|];
    try (intros [= <-]; cbn; auto).
  destruct (next_button (pg page s)) as [[|]|];
    try (intros [= <-]; cbn; auto).
  destruct (click_next (pg page s)) as [p' ok]. cbn [pg current_page clicks fst].
  destruct ok; cbn [negb]; [|intros [= <-]; cbn; auto].
  destruct (wait_content p'); [|intros [= <-]; cbn; auto].
  destruct (first_title p') as [[t1|]|]; try (intros [= <-]; cbn; auto).
  destruct (str_eqb t1 t0); [intros [= <-]; cbn; auto|].
  destruct (current_page page s); [discriminate | intros [= <-]; cbn; auto].
Qed.

Lemma turns_ok (n : nat) (s s' : scraper page) (c : nat) :
  turns n s = (s', true) -> current_page page s = Some c ->
  current_page page s' = Some (c + n)%nat /\ clicks page s' = (clicks page s + n)%nat.
Proof.
  revert s c. induction n as [|n IH]; intros s c; simpl.
  - intros [= <-] Hc. rewrite Hc. split; [f_equal; lia | lia].
  - destruct (turn s) as [s1 [|]] eqn:Et; [|discriminate].
    intros Hn Hc. destruct (turn_ok _ _ Et) as (m & _ & _ & Hm & Hm' & Hk & _).
    rewrite Hc in Hm. injection Hm as <-.
    destruct (IH _ _ Hn Hm') as [H1 H2]. rewrite H1, H2, Hk. split; [f_equal; lia | lia].
Qed.

Lemma links_ok (s : scraper page) (r : list (str * str)) :
  links s = Some r -> r <> [] /\ case_links (pg page s) = Ret r.
Proof.
  unfold read_links. destruct (wait_content (pg page s)); [|discriminate].
  destruct (case_links (pg page s)) as [[|x l]|]; try discriminate.
  intros [= <-]. split; [discriminate | reflexivity].
Qed.

Lemma loop_ok (url : str) (page_no retries : nat) (s s' : scraper page)
      (r : list (str * str)) :
  loop retries url page_no s = (s', Some r) ->
  r <> [] /\ case_links (pg page s') = Ret r /\
  match current_page page s with
  | None => current_page page s' = Some (Nat.max 1 page_no)
            /\ clicks page s' = (clicks page s + (page_no - 1))%nat
  | Some cur => exists n, current_page page s' = Some n
                  /\ (cur <= n <= Nat.max cur page_no)%nat
                  /\ clicks page s' = (clicks page s + (n - cur))%nat
                  /\ ((page_no <= cur)%nat -> s' = s)
  end.
Proof.
  revert s. induction retries as [|k IH]; intros s; simpl; [discriminate|].
  destruct (current_page page s) as [cur|] eqn:Hc.
  - destruct (cur <? page_no)%nat eqn:Hlt.
    + apply Nat.ltb_lt in Hlt.
      destruct (turn s) as [s1 [|]] eqn:Et; [|discriminate].
      destruct (turn_ok _ _ Et) as (m & _ & _ & Hm & Hm' & Hk & _).
      rewrite Hc in Hm. injection Hm as <-.
      destruct (links s1) as [r1|] eqn:El.
      * intros [= <- <-]. destruct (links_ok _ _ El) as [Hr Hl].
        repeat apply conj; [exact Hr | exact Hl|].
        exists (S cur). repeat apply conj; [exact Hm' | lia | lia | rewrite Hk; lia | lia].
      * intros H. destruct (IH _ H) as (Hr & Hl & Hp). rewrite Hm' in Hp.
        destruct Hp as (n & Hn & Hb & Hcl & _).
        repeat apply conj; [exact Hr | exact Hl|].
        exists n. repeat apply conj; [exact Hn | lia | lia | rewrite Hcl, Hk; lia | lia].
    + apply Nat.ltb_ge in Hlt.
      destruct (links s) as [r1|] eqn:El.
      * intros [= <- <-]. destruct (links_ok _ _ El) as [Hr Hl].
        repeat apply conj; [exact Hr | exact Hl|].
        exists cur. repeat apply conj; [exact Hc | lia | lia | lia | reflexivity].
      * intros H. destruct (IH _ H) as (Hr & Hl & Hp). rewrite Hc in Hp.
        destruct Hp as (n & Hn & Hb & Hcl & Hs).
        repeat apply conj; [exact Hr | exact Hl|].
        exists n. repeat apply conj; [exact Hn | lia | lia | exact Hcl | exact Hs].
  - destruct (goto url (pg page s)) as [p' ok]. destruct ok; cbn [negb].
    + destruct (turns (page_no - 1) _) as [s1 [|]] eqn:Et; [|discriminate].
      destruct (turns_ok _ _ _ 1%nat Et eq_refl) as [Hp Hk]. cbn [clicks] in Hk.
      destruct (links s1) as [r1|] eqn:El.
      * intros [= <- <-]. destruct (links_ok _ _ El) as [Hr Hl].
        repeat apply conj; [exact Hr | exact Hl | | exact Hk].
        rewrite Hp. f_equal. lia.
      * intros H. destruct (IH _ H) as (Hr & Hl & Hq). rewrite Hp in Hq.
        destruct Hq as (n & Hn & Hb & Hcl & Hs).
        rewrite Hs by lia.
        repeat apply conj; [exact Hr | rewrite <- Hs by lia; exact Hl | | exact Hk].
        rewrite Hp. f_equal. lia.
    + intros H. destruct (IH _ H) as (Hr & Hl & Hq). cbn [current_page clicks] in Hq.
      repeat apply conj; [exact Hr | exact Hl | apply Hq | apply Hq].
Qed.

End Driver.

(** X22.  When [parse_list_page_playwright] returns links, the list is not
    empty and is what the page the driver ends on shows.  Started without
    a current page, it ends on the requested page (page 1 for a request
    below 1) after exactly page_no - 1 clicks.  Started on page [cur], it
    never goes back: it ends on a page from [cur] up to the requested
    one, having clicked once per page advanced, and for a request not
    beyond [cur] it leaves the driver unchanged and returns the links of
    the page it is on. *)
Theorem driver_success_postcondition :
  forall (page : Type)
         (first_title : page -> res (option str)) (next_button : page -> res bool)
         (click_next : page -> page * bool) (wait_content : page -> res unit)
         (goto : str -> page -> page * bool)
         (case_links : page -> res (list (str * str)))
         (url : str) (page_no : nat) (s s' : Pagination.scraper page)
         (results : list (str * str)),
    Pagination.parse_list_page_playwright page first_title next_button click_next
      wait_content goto case_links url page_no s = (s', Some results) ->
    results <> []
    /\ case_links (Pagination.pg page s') = Ret results
    /\ match Pagination.current_page page s with
       | None =>
           Pagination.current_page page s' = Some (Nat.max 1 page_no)
           /\ Pagination.clicks page s' = (Pagination.clicks page s + (page_no - 1))%nat
       | Some cur =>
           exists n, Pagination.current_page page s' = Some n
             /\ (cur <= n <= Nat.max cur page_no)%nat
             /\ Pagination.clicks page s' = (Pagination.clicks page s + (n - cur))%nat
             /\ ((page_no <= cur)%nat -> s' = s)
       end.
Proof.
  intros page first_title next_button click_next wait_content goto case_links
         url page_no s s' results H.
  exact (loop_ok page first_title next_button click_next wait_content goto case_links
           url page_no Pagination.max_retries s s' results H).
Qed.

(** X23.  [_turn_to_next_page] reports success only when a page number is
    set and the first listed title after the click differs from the one
    before; it has then clicked exactly once and advanced the page number
    by one.  When it reports failure the page number is never advanced:
    it is unchanged or forgotten, and the driver has clicked at most
    once. *)
Theorem turn_to_next_page_contract :
  forall (page : Type)
         (first_title : page -> res (option str)) (next_button : page -> res bool)
         (click_next : page -> page * bool) (wait_content : page -> res unit)
         (s : Pagination.scraper page),
    let r := Pagination._turn_to_next_page page first_title next_button click_next
               wait_content s in
    (snd r = true ->
       exists n t0 t1,
         Pagination.current_page page s = Some n
         /\ Pagination.current_page page (fst r) = Some (S n)
         /\ Pagination.clicks page (fst r) = S (Pagination.clicks page s)
         /\ Pagination.pg page (fst r) = fst (click_next (Pagination.pg page s))
         /\ first_title (Pagination.pg page s) = Ret (Some t0)
         /\ first_title (Pagination.pg page (fst r)) = Ret (Some t1)
         /\ t1 <> t0)
    /\ (snd r = false ->
          (Pagination.current_page page (fst r) = Pagination.current_page page s
           \/ Pagination.current_page page (fst r) = None)
          /\ ((Pagination.clicks page (fst r) = Pagination.clicks page s
               /\ Pagination.pg page (fst r) = Pagination.pg page s)
              \/ (Pagination.clicks page (fst r) = S (Pagination.clicks page s)
                  /\ Pagination.pg page (fst r)
                     = fst (click_next (Pagination.pg page s))))).
Proof.
  intros page first_title next_button click_next wait_content s r.
  destruct r as [s' b] eqn:E. cbn [fst snd]. split; intros ->.
  - exact (turn_ok page first_title next_button click_next wait_content s s' E).
  - exact (turn_fail page first_title next_button click_next wait_content s s' E).
Qed.

(** ** Dates: printing and reading back *)

Section DateRoundTrip.
Import Re Datetime.

Lemma is_digit_mod (n : N) : is_digit (48 + n mod 10) = true.
Proof.
  unfold is_digit. assert (n mod 10 < 10) by (apply N.mod_upper_bound; lia).
  set (r := n mod 10) in *. clearbody r.
  apply andb_true_iff. split; apply N.leb_le; lia.
Qed.

Lemma digits_length (w : nat) (n : N) : length (digits w n) = w.
Proof.
  revert n. induction w as [|w IH]; intros n; simpl; [reflexivity|].
  rewrite length_app, IH. simpl. lia.
Qed.

Lemma digits_are_digits (w : nat) (n : N) (x : N) :
  In x (digits w n) -> is_digit x = true.
Proof.
  revert n. induction w as [|w IH]; intros n; simpl; [tauto|].
  rewrite in_app_iff. intros [H|[<-|[]]]; [exact (IH _ H) | apply is_digit_mod].
Qed.

Lemma int_acc_app (acc : N) (s : str) (k : N) :
  k < 10 -> int_acc acc (s ++ [48 + k]) = int_acc acc s * 10 + k.
Proof.
  intros Hk. revert acc. induction s as [|x s IH]; intros acc; simpl.
  - assert (E : is_digit (48 + k) = true).
    { unfold is_digit. apply andb_true_iff. split; apply N.leb_le; lia. }
    rewrite E. lia.
  - destruct (is_digit x); apply IH.
Qed.

Lemma int_digits (w : nat) (n : N) : int (digits w n) = n mod 10 ^ N.of_nat w.
Proof.
  unfold int. revert n. induction w as [|w IH]; intros n.
  - simpl. rewrite N.mod_1_r. reflexivity.
  - cbn [digits]. rewrite int_acc_app by (apply N.mod_upper_bound; lia).
    rewrite IH. rewrite Nat2N.inj_succ, N.pow_succ_r'.
    rewrite (N.Div0.mod_mul_r n 10 (10 ^ N.of_nat w)).
    set (a := (n / 10) mod 10 ^ N.of_nat w). set (b := n mod 10). lia.
Qed.

Lemma mt_rep_digits {R} (p rest : str) (c : caps) (k : str -> caps -> option R) :
  (forall x, In x p -> is_digit x = true) ->
  mt (rep_exact digit (length p)) (p ++ rest) c k = k rest c.
Proof.
  induction p as [|x p IH]; intros H; [reflexivity|].
  cbn [length rep_exact app]. cbn [mt digit].
  rewrite (H x (or_introl eq_refl)). apply IH. intros y Hy. apply H. right. exact Hy.
Qed.

Lemma mt_grp {R} (i : nat) (a : re) (p rest : str) (c : caps)
      (k : str -> caps -> option R) (v : R) :
  (forall k', k' rest c = Some v -> mt a (p ++ rest) c k' = Some v) ->
  k rest ((i, p) :: c) = Some v ->
  mt (Grp i a) (p ++ rest) c k = Some v.
Proof.
  intros Ha Hk. cbn [mt]. apply Ha.
  rewrite length_app, Nat.add_sub, firstn_app, Nat.sub_diag, firstn_all. cbn [firstn].
  rewrite app_nil_r. exact Hk.
Qed.


Lemma mt_chr_ok {R} (x : N) (rest : str) (c : caps) (k : str -> caps -> option R) :
  mt (chr x) (x :: rest) c k = k rest c.
Proof. cbn [mt chr]. rewrite N.eqb_refl. reflexivity. Qed.

Lemma mt_cat {R} (a b : re) (s : str) (c : caps) (k : str -> caps -> option R) :
  mt (Cat a b) s c k = mt a s c (fun s' c' => mt b s' c' k).
Proof. reflexivity. Qed.

Lemma month_cases (m : N) :
  1 <= m <= 12 ->
  In m [1; 2; 3; 4; 5; 6; 7; 8; 9; 10; 11; 12].
Proof.
  intros H. rewrite <- (N2Nat.id m).
  assert (Hn : (1 <= N.to_nat m <= 12)%nat) by lia.
  revert Hn. generalize (N.to_nat m). intros k Hk.
  do 13 (destruct k as [|k]; [try lia; vm_compute; tauto|]). lia.
Qed.

Lemma day_cases (d : N) :
  1 <= d <= 31 ->
  In d [1; 2; 3; 4; 5; 6; 7; 8; 9; 10; 11; 12; 13; 14; 15; 16; 17; 18; 19; 20;
        21; 22; 23; 24; 25; 26; 27; 28; 29; 30; 31].
Proof.
  intros H. rewrite <- (N2Nat.id d).
  assert (Hn : (1 <= N.to_nat d <= 31)%nat) by lia.
  revert Hn. generalize (N.to_nat d). intros k Hk.
  do 32 (destruct k as [|k]; [try lia; vm_compute; tauto|]). lia.
Qed.

Lemma mt_dm_ok {R} (m : N) (rest : str) (c : caps)
      (k : str -> caps -> option R) (v : R) :
  1 <= m <= 12 ->
  k rest ((2%nat, digits 2 m) :: c) = Some v ->
  mt dm (digits 2 m ++ rest) c k = Some v.
Proof.
  intros Hm. unfold dm. apply mt_grp. clear k.
  apply month_cases in Hm. cbn [In] in Hm.
  repeat (destruct Hm as [<-|Hm];
          [intros k' Hk; cbn; rewrite ?Hk; reflexivity|]).
  destruct Hm.
Qed.

Lemma mt_dd_ok {R} (d : N) (rest : str) (c : caps)
      (k : str -> caps -> option R) (v : R) :
  1 <= d <= 31 ->
  k rest ((3%nat, digits 2 d) :: c) = Some v ->
  mt dd (digits 2 d ++ rest) c k = Some v.
Proof.
  intros Hd. unfold dd. apply mt_grp. clear k.
  apply day_cases in Hd. cbn [In] in Hd.
  repeat (destruct Hd as [<-|Hd];
          [intros k' Hk; cbn; rewrite ?Hk; reflexivity|]).
  destruct Hd.
Qed.

Lemma mt_dY_ok {R} (y : N) (rest : str) (c : caps)
      (k : str -> caps -> option R) (v : R) :
  k rest ((1%nat, digits 4 y) :: c) = Some v ->
  mt dY (digits 4 y ++ rest) c k = Some v.
Proof.
  unfold dY. apply mt_grp. intros k' Hk.
  rewrite <- (digits_length 4 y) at 1.
  rewrite mt_rep_digits; [exact Hk | apply digits_are_digits].
Qed.

Lemma days_in_month_le (y m : N) : days_in_month y m <= 31.
Proof.
  unfold days_in_month.
  destruct (m =? 2); [destruct (is_leap y); lia|].
  destruct ((m =? 4) || (m =? 6) || (m =? 9) || (m =? 11)); lia.
Qed.

Lemma make_inv (y m d H M S : N) (dt : datetime) :
  make y m d H M S = Some dt ->
  dt = mkdt y m d H M S /\ 1 <= y <= 9999 /\ 1 <= m <= 12 /\ 1 <= d <= 31
  /\ make y m d 0 0 0 = Some (mkdt y m d 0 0 0).
Proof.
  unfold make.
  destruct (1 <=? y) eqn:E1; [|discriminate].
  destruct (y <=? 9999) eqn:E2; [|discriminate].
  destruct (1 <=? m) eqn:E3; [|discriminate].
  destruct (m <=? 12) eqn:E4; [|discriminate].
  destruct (1 <=? d) eqn:E5; [|discriminate].
  destruct (d <=? days_in_month y m) eqn:E6; [|discriminate].
  cbn [andb].
  intros Hx. split.
  { destruct ((H <=? 23) && (M <=? 59) && (S <=? 59)); [congruence | discriminate]. }
  apply N.leb_le in E1, E2, E3, E4, E5, E6.
  pose proof (days_in_month_le y m). repeat apply conj; try lia. reflexivity.
Qed.

(** Reading back what [strftime] printed. *)
Lemma strptime_strftime (y m d H M S : N) (dt : datetime) :
  make y m d H M S = Some dt ->
  strptime (strftime_Y_m_d dt) F_Y_m_d = Some (mkdt y m d 0 0 0).
Proof.
  intros Hmk. destruct (make_inv _ _ _ _ _ _ _ Hmk) as (-> & Hy & Hm & Hd & Hmk0).
  unfold strftime_Y_m_d. cbn [year month day].
  unfold strptime, match_, format_regex. cbn [seq]. rewrite mt_cat.
  rewrite (mt_dY_ok y _ _ _ ([(3%nat, digits 2 d); (2%nat, digits 2 m); (1%nat, digits 4 y)], [])).
  - unfold field. cbn [group Nat.eqb].
    rewrite !int_digits. change (10 ^ N.of_nat 4) with 10000.
    change (10 ^ N.of_nat 2) with 100.
    rewrite !N.mod_small by lia. exact Hmk0.
  - cbn [app]. rewrite mt_cat, mt_chr_ok, mt_cat.
    apply mt_dm_ok; [exact Hm|]. cbn [app]. rewrite mt_cat, mt_chr_ok, mt_cat.
    rewrite <- (app_nil_r (digits 2 d)).
    apply mt_dd_ok; [exact Hd|]. reflexivity.
Qed.


Lemma strptime_valid (s : str) (f : format) (dt : datetime) :
  strptime s f = Some dt -> exists y m d H M S, make y m d H M S = Some dt.
Proof.
  unfold strptime. destruct (match_ (format_regex f) s) as [[c [|? ?]]|]; try discriminate.
  intros H. eexists _, _, _, _, _, _. exact H.
Qed.

Lemma strftime_length (dt : datetime) : length (strftime_Y_m_d dt) = 10%nat.
Proof. unfold strftime_Y_m_d. rewrite !length_app, !digits_length. reflexivity. Qed.

Lemma strftime_chars (dt : datetime) (x : N) :
  In x (strftime_Y_m_d dt) -> is_digit x = true \/ x = 45.
Proof.
  unfold strftime_Y_m_d. rewrite !in_app_iff. cbn [In].
  intros [H|[[<-|[]]|[H|[[<-|[]]|H]]]]; try (right; reflexivity);
    left; exact (digits_are_digits _ _ _ H).
Qed.

Lemma digit_not_space (x : N) : is_digit x = true -> is_space x = false.
Proof.
  unfold is_digit. rewrite andb_true_iff, !N.leb_le. intros [H1 H2].
  unfold is_space.
  replace (x <=? 13) with false by (symmetry; apply N.leb_gt; lia).
  replace (x <=? 32) with false by (symmetry; apply N.leb_gt; lia).
  replace (8192 <=? x) with false by (symmetry; apply N.leb_gt; lia).
  replace (x =? 133) with false by (symmetry; apply N.eqb_neq; lia).
  replace (x =? 160) with false by (symmetry; apply N.eqb_neq; lia).
  replace (x =? 5760) with false by (symmetry; apply N.eqb_neq; lia).
  replace (x =? 8232) with false by (symmetry; apply N.eqb_neq; lia).
  replace (x =? 8233) with false by (symmetry; apply N.eqb_neq; lia).
  replace (x =? 8239) with false by (symmetry; apply N.eqb_neq; lia).
  replace (x =? 8287) with false by (symmetry; apply N.eqb_neq; lia).
  replace (x =? 12288) with false by (symmetry; apply N.eqb_neq; lia).
  rewrite !andb_false_r. reflexivity.
Qed.

Lemma strftime_trimmed (dt : datetime) : trimmed (strftime_Y_m_d dt).
Proof.
  assert (H : forall x, In x (strftime_Y_m_d dt) -> is_space x = false).
  { intros x Hx. destruct (strftime_chars _ _ Hx) as [Hd | ->];
      [exact (digit_not_space _ Hd) | reflexivity]. }
  split; intros x t E; apply H; rewrite E.
  - left. reflexivity.
  - rewrite in_app_iff. right. left. reflexivity.
Qed.

Lemma strftime_lacks (dt : datetime) (c : N) :
  is_digit c = false -> c <> 45 -> ~ In c (strftime_Y_m_d dt).
Proof.
  intros Hd Hc Hin. destruct (strftime_chars _ _ Hin); congruence.
Qed.

Lemma strftime_of_fields (dt : datetime) (H M S : N) :
  strftime_Y_m_d (mkdt (year dt) (month dt) (day dt) H M S) = strftime_Y_m_d dt.
Proof. reflexivity. Qed.

(** A printed date goes through both normalizers unchanged. *)
Lemma printed_date_is_canonical (y m d H M S : N) (dt : datetime) :
  make y m d H M S = Some dt ->
  length (strftime_Y_m_d dt) = 10%nat
  /\ BaseParserDates.normalize_date (Some (strftime_Y_m_d dt)) = Some (strftime_Y_m_d dt)
  /\ DateParser.parse_date_string (strftime_Y_m_d dt) = Some (mkdt y m d 0 0 0).
Proof.
  intros Hmk. pose proof (strptime_strftime _ _ _ _ _ _ _ Hmk) as Hrt.
  pose proof (strftime_length dt) as Hl.
  assert (Hclean : forall c new, is_digit c = false -> c <> 45 ->
            replace1 c new (strftime_Y_m_d dt) = strftime_Y_m_d dt).
  { intros c new H1 H2. apply replace1_fixed, strftime_lacks; assumption. }
  repeat apply conj.
  - exact Hl.
  - unfold BaseParserDates.normalize_date.
    assert (Ht : truthy (Some (strftime_Y_m_d dt)) = true).
    { clear Hrt Hclean. destruct (strftime_Y_m_d dt); [discriminate Hl | reflexivity]. }
    rewrite Ht.
    rewrite (strip_fixed _ (strftime_trimmed dt)).
    rewrite !Hclean by (vm_compute; congruence).
    rewrite Hrt. f_equal.
    destruct (make_inv _ _ _ _ _ _ _ Hmk) as (-> & _). reflexivity.
  - unfold DateParser.parse_date_string.
    rewrite (strip_fixed _ (strftime_trimmed dt)).
    rewrite !Hclean by (vm_compute; congruence).
    cbn [DateParser.try_formats DateParser.formats]. rewrite Hrt. reflexivity.
Qed.

End DateRoundTrip.

(** [strftime] prints the year with four digits from the year 1000 on;
    for earlier years the C library prints it unpadded, so the statements
    below speak of printed dates whose year is 1000 or later. *)

(** X24.  A result of [BaseParser.normalize_date] of the year 1000 or
    later is the ten characters YYYY-MM-DD of a real calendar date, is
    returned unchanged when normalized again, and is read by
    [DateParser.parse_date_string] as midnight of that same day. *)
Theorem normalize_date_canonical :
  forall (date_str : option str) (s : str),
    BaseParserDates.normalize_date date_str = Some s ->
    1000 <= printed_year s ->
    length s = 10%nat
    /\ BaseParserDates.normalize_date (Some s) = Some s
    /\ exists y m d,
         Datetime.make y m d 0 0 0 = Some (midnight y m d)
         /\ Datetime.strftime_Y_m_d (midnight y m d) = s
         /\ DateParser.parse_date_string s = Some (midnight y m d).
Proof.
  intros date_str s. unfold BaseParserDates.normalize_date.
  destruct (truthy date_str); [|discriminate].
  destruct date_str as [x|]; [|discriminate].
  destruct (Datetime.strptime _ Datetime.F_Y_m_d) as [dt|] eqn:E; [|discriminate].
  intros [= <-] _.
  destruct (strptime_valid _ _ _ E) as (y & m & d & H & M & S & Hmk).
  destruct (printed_date_is_canonical _ _ _ _ _ _ _ Hmk) as (Hl & Hn & Hp).
  repeat apply conj; [exact Hl | exact Hn |].
  exists y, m, d. destruct (make_inv _ _ _ _ _ _ _ Hmk) as (-> & _ & _ & _ & Hmk0).
  repeat apply conj; [exact Hmk0 | reflexivity | exact Hp].
Qed.

Lemma normalize_date_canonical_witness :
  BaseParserDates.normalize_date (Some (u "2025-03-31")) = Some (u "2025-03-31").
Proof.
  apply (proj1 (proj2 (normalize_date_canonical (Some single_date) (u "2025-03-31")
                         ltac:(vm_compute; reflexivity)
                         ltac:(apply N.leb_le; vm_compute; reflexivity)))).
Defined.

Lemma try_patterns_whole (text : str) (ps : list Re.re) :
  BaseParserDates.try_patterns text ps = (None, None)
  \/ exists a b da db,
       BaseParserDates.try_patterns text ps
         = (Some (Datetime.strftime_Y_m_d da), Some (Datetime.strftime_Y_m_d db))
       /\ Datetime.strptime (BaseParserDates.unify a) Datetime.F_Y_m_d = Some da
       /\ Datetime.strptime (BaseParserDates.unify b) Datetime.F_Y_m_d = Some db.
Proof.
  induction ps as [|p ps IH]; cbn [BaseParserDates.try_patterns]; [left; reflexivity|].
  destruct (Re.search p text) as [c|]; [|exact IH].
  destruct (Re.group c 1) as [sd|]; [|exact IH].
  destruct (Re.group c 2) as [ed|]; [|exact IH].
  unfold BaseParserDates.convert.
  set (ed' := if (length (BaseParserDates.head_field ed) <=? 2)%nat then _ else _).
  destruct (Datetime.strptime (BaseParserDates.unify sd) Datetime.F_Y_m_d) as [da|] eqn:Ea;
    [|exact IH].
  destruct (Datetime.strptime (BaseParserDates.unify ed') Datetime.F_Y_m_d) as [db|] eqn:Eb;
    [|exact IH].
  right. exists sd, ed', da, db. repeat apply conj; [reflexivity | exact Ea | exact Eb].
Qed.

(** X25.  [BaseParser.extract_date_range] returns a whole range or
    nothing, never one date without the other; each date of a returned
    range, when of the year 1000 or later, is the ten characters
    YYYY-MM-DD of a real calendar date, which [normalize_date] leaves
    unchanged and [DateParser.parse_date_string] reads. *)
Theorem extract_date_range_whole_and_canonical :
  forall (text : option str),
    BaseParserDates.extract_date_range text = (None, None)
    \/ exists s e,
         BaseParserDates.extract_date_range text = (Some s, Some e)
         /\ Forall (fun x => 1000 <= printed_year x ->
                      length x = 10%nat
                      /\ BaseParserDates.normalize_date (Some x) = Some x
                      /\ is_Some (DateParser.parse_date_string x))
                   [s; e].
Proof.
  intros text. unfold BaseParserDates.extract_date_range.
  destruct (truthy text); [|left; reflexivity].
  destruct text as [text|]; [|left; reflexivity].
  destruct (try_patterns_whole (join [32] (split_ws text)) BaseParserDates.patterns)
    as [H | (a & b & da & db & H & Ha & Hb)]; [left; exact H|].
  right. exists (Datetime.strftime_Y_m_d da), (Datetime.strftime_Y_m_d db).
  destruct (strptime_valid _ _ _ Ha) as (y & m & d & H1 & M1 & S1 & Hmk).
  destruct (strptime_valid _ _ _ Hb) as (y' & m' & d' & H2 & M2 & S2 & Hmk').
  destruct (printed_date_is_canonical _ _ _ _ _ _ _ Hmk) as (Hl & Hn & Hp).
  destruct (printed_date_is_canonical _ _ _ _ _ _ _ Hmk') as (Hl' & Hn' & Hp').
  split; [exact H|].
  repeat constructor; try assumption.
  - rewrite Hp. eexists. reflexivity.
  - rewrite Hp'. eexists. reflexivity.
Qed.

Lemma driver_success_postcondition_witness :
  Pagination.current_page nat
    (fst (Pagination.parse_list_page_playwright nat live_first_title stuck_next_button
            stuck_click_next stuck_wait_content live_goto live_case_links list_url 3
            (Pagination.mkscraper nat 0%nat None 0%nat)))
  = Some 3%nat.
Proof.
  destruct (Pagination.parse_list_page_playwright nat live_first_title stuck_next_button
              stuck_click_next stuck_wait_content live_goto live_case_links list_url 3
              (Pagination.mkscraper nat 0%nat None 0%nat)) as [s' r] eqn:E.
  assert (Hr : r = Some [([51], u "https://www.samr.gov.cn/1.html")]).
  { pose proof (f_equal snd E) as E2. cbn [snd] in E2. rewrite <- E2.
    vm_compute. reflexivity. }
  subst r.
  exact (proj1 (proj2 (proj2 (driver_success_postcondition nat live_first_title
                                stuck_next_button stuck_click_next stuck_wait_content
                                live_goto live_case_links list_url 3
                                (Pagination.mkscraper nat 0%nat None 0%nat) s' _ E)))).
Defined.

(** ** List pages and the run loop *)

Section Decimal.
Import Re Datetime.

Lemma dec_aux_spec (f : nat) :
  forall n, n < 2 ^ N.of_nat f ->
  exists ds, ds <> []
    /\ (forall x, In x ds -> is_digit x = true)
    /\ Datetime.int ds = n
    /\ forall acc, PyInt.dec_aux (S f) n acc = ds ++ acc.
Proof.
  induction f as [|f IH]; intros n Hn.
  - assert (n = 0) by (simpl in Hn; lia). subst n.
    exists [48]. repeat apply conj; try reflexivity; [discriminate|].
    intros x [<-|[]]. reflexivity.
  - cbn [PyInt.dec_aux]. destruct (n / 10 =? 0) eqn:E.
    + apply N.eqb_eq in E. exists [48 + n mod 10].
      repeat apply conj; [discriminate | | | reflexivity].
      * intros x [<-|[]]. apply is_digit_mod.
      * unfold Datetime.int. change [48 + n mod 10] with ([] ++ [48 + n mod 10]).
        rewrite int_acc_app by (apply N.mod_upper_bound; lia). cbn [int_acc].
        pose proof (N.div_mod n 10 ltac:(lia)) as Hd. rewrite E in Hd.
        set (r := n mod 10) in *. lia.
    + apply N.eqb_neq in E.
      destruct (IH (n / 10)) as (ds & Hne & Hdig & Hint & Hacc).
      { rewrite Nat2N.inj_succ, N.pow_succ_r' in Hn.
        apply N.Div0.div_lt_upper_bound.
        assert (2 ^ N.of_nat f > 0) by (apply N.lt_gt, N.neq_0_lt_0, N.pow_nonzero; lia).
        lia. }
      exists (ds ++ [48 + n mod 10]). repeat apply conj.
      * destruct ds; discriminate.
      * intros x Hx. apply in_app_iff in Hx. destruct Hx as [Hx|[<-|[]]];
          [exact (Hdig x Hx) | apply is_digit_mod].
      * unfold Datetime.int in *.
        rewrite int_acc_app by (apply N.mod_upper_bound; lia). rewrite Hint.
        pose proof (N.div_mod n 10 ltac:(lia)) as Hd.
        set (q := n / 10) in *. set (r := n mod 10) in *. lia.
      * intros acc. change (PyInt.dec_aux (S f) (n / 10) ((48 + n mod 10) :: acc)
                            = (ds ++ [48 + n mod 10]) ++ acc).
        rewrite Hacc, <- app_assoc. reflexivity.
Qed.

Lemma dec_spec (n : N) :
  PyInt.dec n <> []
  /\ (forall x, In x (PyInt.dec n) -> is_digit x = true)
  /\ Datetime.int (PyInt.dec n) = n.
Proof.
  unfold PyInt.dec.
  destruct (dec_aux_spec (N.to_nat (N.size n)) n) as (ds & Hne & Hdig & Hint & Hacc).
  { rewrite N2Nat.id. apply N.size_gt. }
  rewrite Hacc, app_nil_r. auto.
Qed.

Lemma int_digits_all (s : str) (acc : N) (b : bool) :
  s <> [] -> (forall x, In x s -> is_digit x = true) ->
  PyInt.int_digits acc b s = Some (int_acc acc s).
Proof.
  revert acc b. induction s as [|x s IH]; intros acc b Hne Hd; [congruence|].
  cbn [PyInt.int_digits int_acc]. rewrite (Hd x (or_introl eq_refl)).
  destruct s as [|y s]; [reflexivity|].
  apply IH; [discriminate | intros z Hz; apply Hd; right; exact Hz].
Qed.

Lemma int_unsigned (x : N) (s : str) :
  x <> 43 -> x <> 45 -> strip (x :: s) = x :: s ->
  PyInt.int (x :: s) = option_map Z.of_N (PyInt.int_digits 0 false (x :: s)).
Proof.
  intros H1 H2 Hs. unfold PyInt.int. rewrite Hs.
  destruct x as [|p]; [reflexivity|].
  do 6 (try (destruct p as [p|p|]; try reflexivity; try congruence)).
Qed.

(** Reading a printed natural number. *)
Lemma int_dec (n : N) : PyInt.int (PyInt.dec n) = Some (Z.of_N n).
Proof.
  destruct (dec_spec n) as (Hne & Hd & Hi).
  assert (Hs : strip (PyInt.dec n) = PyInt.dec n).
  { apply strip_fixed. split; intros x t E; apply digit_not_space, Hd; rewrite E;
      [left; reflexivity | apply in_app_iff; right; left; reflexivity]. }
  destruct (PyInt.dec n) as [|x s] eqn:E; [congruence|].
  assert (Hx : is_digit x = true) by (apply Hd; left; reflexivity).
  rewrite int_unsigned; [| intros ->; discriminate Hx | intros ->; discriminate Hx | exact Hs].
  rewrite int_digits_all by (congruence || exact Hd).
  unfold Datetime.int in Hi. rewrite Hi. reflexivity.
Qed.

Lemma str_of_N (n : N) : PyInt.str_ (Z.of_N n) = PyInt.dec n.
Proof.
  unfold PyInt.str_. destruct (Z.ltb_spec (Z.of_N n) 0); [lia|].
  rewrite N2Z.id. reflexivity.
Qed.

End Decimal.

Section ListPages.
Import ListPage.

Lemma split_acc_last (c : N) (cur a b : str) :
  ~ In c b -> split_acc c cur (a ++ c :: b) = split_acc c cur a ++ [b].
Proof.
  intros Hb. revert cur. induction a as [|x a IH]; intros cur; cbn [app split_acc].
  - rewrite N.eqb_refl, (split_acc_none c [] b Hb). reflexivity.
  - destruct (x =? c); [rewrite IH; reflexivity | apply IH].
Qed.

Lemma split_acc_nonempty (c : N) (cur s : str) : split_acc c cur s <> [].
Proof.
  pose proof (split_acc_length c cur s) as H. destruct (split_acc c cur s); [discriminate H | discriminate].
Qed.

Lemma join_cons (sep p q : str) (r : list str) :
  join sep (p :: q :: r) = p ++ sep ++ join sep (q :: r).
Proof. reflexivity. Qed.

Lemma join_split_acc (c : N) (cur s : str) :
  join [c] (split_acc c cur s) = rev cur ++ s.
Proof.
  revert cur. induction s as [|x s IH]; intros cur; cbn [split_acc].
  - cbn [join]. rewrite app_nil_r. reflexivity.
  - destruct (N.eqb_spec x c) as [->|Hne].
    + destruct (split_acc c [] s) as [|p ps] eqn:E; [exact (False_ind _ (split_acc_nonempty _ _ _ E))|].
      rewrite join_cons, <- E, IH. reflexivity.
    + rewrite IH. cbn [rev]. rewrite <- app_assoc. reflexivity.
Qed.

(** The parts of [base/last], for a last part without slash. *)
Lemma url_parts (base last : str) :
  ~ In 47 last ->
  List.last (split 47 (base ++ [47] ++ last)) [] = last
  /\ join [47] (removelast (split 47 (base ++ [47] ++ last))) = base.
Proof.
  intros H. unfold split. cbn [app]. rewrite (split_acc_last 47 [] base last H).
  rewrite last_last, removelast_last. split; [reflexivity|].
  apply (join_split_acc 47 [] base).
Qed.

Lemma dec_lacks (n c : N) : Re.is_digit c = false -> ~ In c (PyInt.dec n).
Proof.
  intros Hc Hin. destruct (dec_spec n) as (_ & Hd & _). rewrite (Hd c Hin) in Hc. discriminate.
Qed.

Lemma index_name_lacks_slash (k : N) :
  ~ In 47 (u "index_" ++ PyInt.dec k ++ u ".html").
Proof.
  rewrite !in_app_iff. intros [H|[H|H]].
  - vm_compute in H. intuition discriminate.
  - exact (dec_lacks k 47 eq_refl H).
  - vm_compute in H. intuition discriminate.
Qed.

Lemma index_name_number (k : N) :
  exists rest,
    split 95 (u "index_" ++ PyInt.dec k ++ u ".html")
      = [u "index"; PyInt.dec k ++ u ".html"]
    /\ split 46 (PyInt.dec k ++ u ".html") = PyInt.dec k :: rest.
Proof.
  eexists. split.
  - change (u "index_" ++ PyInt.dec k ++ u ".html")
      with (u "index" ++ 95 :: (PyInt.dec k ++ u ".html")).
    unfold split. rewrite split_acc_one by (vm_compute; intuition discriminate).
    rewrite split_acc_none; [reflexivity|].
    rewrite in_app_iff. intros [H|H]; [exact (dec_lacks k 95 eq_refl H)|].
    vm_compute in H. intuition discriminate.
  - change (u ".html") with (46 :: u "html"). unfold split.
    rewrite split_acc_one by exact (dec_lacks k 46 eq_refl). reflexivity.
Qed.

Lemma index_name_not_first (k : N) :
  str_eqb (u "index_" ++ PyInt.dec k ++ u ".html") [] = false
  /\ str_eqb (u "index_" ++ PyInt.dec k ++ u ".html") (u "index.html") = false.
Proof.
  unfold str_eqb. split; apply bool_decide_eq_false.
  - discriminate.
  - change (u "index_" ++ PyInt.dec k ++ u ".html")
      with (u "index" ++ 95 :: (PyInt.dec k ++ u ".html")).
    intros H. vm_compute in H. discriminate H.
Qed.

Variable cases_of : str -> res (list case_item).

Lemma beijing_first_page (base last : str) (c : case_item) (cs : list case_item) :
  last = [] \/ last = u "index.html" ->
  cases_of (base ++ [47] ++ last) = Ret (c :: cs) ->
  beijing_parse_list_page cases_of (base ++ [47] ++ last)
    = Some (mkpage (c :: cs) (Some (index_url base 1)) 1).
Proof.
  intros Hl Hc. unfold beijing_parse_list_page. rewrite Hc.
  destruct (url_parts base last) as [H1 H2].
  { destruct Hl as [-> | ->]; vm_compute; intuition discriminate. }
  rewrite H1, H2.
  destruct Hl as [-> | ->]; reflexivity.
Qed.

Lemma beijing_later_page (base : str) (k : N) (c : case_item) (cs : list case_item) :
  cases_of (index_url base k) = Ret (c :: cs) ->
  beijing_parse_list_page cases_of (index_url base k)
    = Some (mkpage (c :: cs) (Some (index_url base (k + 1))) (Z.of_N k + 2)).
Proof.
  intros Hc. unfold beijing_parse_list_page. rewrite Hc.
  unfold index_url. rewrite str_of_N.
  change (base ++ u "/index_" ++ PyInt.dec k ++ u ".html")
    with (base ++ [47] ++ (u "index_" ++ PyInt.dec k ++ u ".html")).
  destruct (url_parts base _ (index_name_lacks_slash k)) as [H1 H2].
  rewrite H1, H2.
  destruct (index_name_not_first k) as [E1 E2]. rewrite E1, E2. cbn [orb].
  destruct (index_name_number k) as (rest & S1 & S2). rewrite S1, S2. cbn [hd].
  rewrite int_dec.
  replace (Z.of_N k + 2 - 1)%Z with (Z.of_N (k + 1)) by lia.
  rewrite str_of_N. reflexivity.
Qed.

Lemma beijing_no_cases (url : str) :
  cases_of url = Raise \/ cases_of url = Ret [] ->
  beijing_parse_list_page cases_of url = None.
Proof. unfold beijing_parse_list_page. intros [-> | ->]; reflexivity. Qed.

End ListPages.

Section RunFacts.
Import ListPage.
Context {D : Type}.
Variable parse_list_page : str -> option page_data.
Variable process_case : Reconcile.state D -> str -> str -> Reconcile.state D * bool.

Lemma run_loop_step (f : nat) (mp : option Z) (url : str)
      (st : Reconcile.state D) (total processed : nat) :
  url <> [] ->
  run_loop parse_list_page process_case (S f) mp (Some url) st total processed
  = match parse_list_page url with
    | None => mkoutcome st total processed
    | Some page =>
      if over_limit mp (current_page page) then mkoutcome st total (S processed)
      else
        let (st', total') := process_cases process_case (cases page) st total in
        run_loop parse_list_page process_case f mp (next_page page) st' total' (S processed)
    end.
Proof. destruct url; [congruence | reflexivity]. Qed.

Hypothesis counts :
  forall st t v,
    length (Reconcile.db (fst (process_case st t v)))
    = (length (Reconcile.db st) + (if snd (process_case st t v) then 1 else 0))%nat.

Lemma process_cases_count (cs : list case_item) (st : Reconcile.state D) (total : nat) :
  (length (Reconcile.db (fst (process_cases process_case cs st total)))
   + total = length (Reconcile.db st) + snd (process_cases process_case cs st total))%nat
  /\ (total <= snd (process_cases process_case cs st total))%nat.
Proof.
  revert st total. induction cs as [|c cs IH]; intros st total; cbn [process_cases].
  - cbn. lia.
  - pose proof (counts st (title c) (url c)) as Hc.
    destruct (process_case st (title c) (url c)) as [st' b]. cbn [fst snd] in Hc.
    destruct (IH st' (if b then S total else total)) as [H1 H2].
    destruct b; lia.
Qed.

Lemma run_loop_count (f : nat) (mp : option Z) (cur : option str)
      (st : Reconcile.state D) (total processed : nat) :
  let o := run_loop parse_list_page process_case f mp cur st total processed in
  (length (Reconcile.db (final o)) + total
   = length (Reconcile.db st) + total_new_cases o)%nat
  /\ (total <= total_new_cases o)%nat
  /\ (processed <= processed_pages o <= processed + f)%nat.
Proof.
  revert cur st total processed. induction f as [|f IH]; intros cur st total processed;
    cbn [run_loop]; [cbn; lia|].
  destruct cur as [[|x url]|]; try (cbn; lia).
  destruct (parse_list_page (x :: url)) as [page|]; [|cbn; lia].
  destruct (over_limit mp (current_page page)); [cbn; lia|].
  pose proof (process_cases_count (cases page) st total) as [H1 H2].
  destruct (process_cases process_case (cases page) st total) as [st' total'].
  cbn [fst snd] in H1, H2.
  specialize (IH (next_page page) st' total' (S processed)). cbv zeta in IH.
  cbv zeta. lia.
Qed.

End RunFacts.

Section BeijingRun.
Import ListPage.
Context {D : Type}.
Variable cases_of : str -> res (list case_item).
Variable process_case : Reconcile.state D -> str -> str -> Reconcile.state D * bool.
Variable base : str.
Variable m : Z.
Hypothesis m_pos : (1 <= m)%Z.

Local Abbreviation loop :=
  (run_loop (beijing_parse_list_page cases_of) process_case).

Lemma index_url_nonempty (k : N) : index_url base k <> [].
Proof.
  unfold index_url. change (u "/index_") with (47 :: u "index_").
  destruct base; discriminate.
Qed.

Lemma beijing_index_page (k : N) :
  beijing_parse_list_page cases_of (index_url base k) = None
  \/ exists cs,
       beijing_parse_list_page cases_of (index_url base k)
       = Some (mkpage cs (Some (index_url base (k + 1))) (Z.of_N k + 2)).
Proof.
  destruct (cases_of (index_url base k)) as [[|c cs]|] eqn:E.
  - left. apply beijing_no_cases. right. exact E.
  - right. exists (c :: cs). apply beijing_later_page. exact E.
  - left. apply beijing_no_cases. left. exact E.
Qed.

Lemma chain_bound (f : nat) :
  forall (k : N) st total processed,
    (processed_pages (loop f (Some m) (Some (index_url base k)) st total processed)
     <= processed + Nat.max 1 (Z.to_nat m - N.to_nat k))%nat.
Proof.
  induction f as [|f IH]; intros k st total processed; [cbn; lia|].
  rewrite run_loop_step by apply index_url_nonempty.
  destruct (beijing_index_page k) as [-> | [cs ->]]; [cbn; lia|].
  cbn [current_page cases next_page over_limit].
  destruct (negb (m =? 0)%Z && (m <? Z.of_N k + 2)%Z) eqn:E; [cbn; lia|].
  assert (Hk : (Z.of_N k + 2 <= m)%Z).
  { destruct (Z.eqb_spec m 0); [lia|]. destruct (Z.ltb_spec m (Z.of_N k + 2)); [discriminate E | lia]. }
  destruct (process_cases process_case cs st total) as [st' total'].
  specialize (IH (k + 1) st' total' (S processed)). lia.
Qed.

Lemma chain_stable (f : nat) :
  forall (k : N) st total processed,
    (Nat.max 1 (Z.to_nat m - N.to_nat k) <= f)%nat ->
    loop (S f) (Some m) (Some (index_url base k)) st total processed
    = loop f (Some m) (Some (index_url base k)) st total processed.
Proof.
  induction f as [|f IH]; intros k st total processed Hf; [lia|].
  rewrite (run_loop_step _ _ (S f)) by apply index_url_nonempty.
  rewrite (run_loop_step _ _ f) by apply index_url_nonempty.
  destruct (beijing_index_page k) as [-> | [cs ->]]; [reflexivity|].
  cbn [current_page cases next_page over_limit].
  destruct (negb (m =? 0)%Z && (m <? Z.of_N k + 2)%Z) eqn:E; [reflexivity|].
  assert (Hk : (Z.of_N k + 2 <= m)%Z).
  { destruct (Z.eqb_spec m 0); [lia|]. destruct (Z.ltb_spec m (Z.of_N k + 2)); [discriminate E | lia]. }
  destruct (process_cases process_case cs st total) as [st' total'].
  apply IH. lia.
Qed.

Lemma first_url_step (f : nat) (st : Reconcile.state D) :
  run (beijing_parse_list_page cases_of) process_case (S f) (Some m) (base ++ u "/") st
  = match cases_of (base ++ u "/") with
    | Ret (c :: cs) =>
      let (st', total') := process_cases process_case (c :: cs) st 0 in
      loop f (Some m) (Some (index_url base 1)) st' total' 1
    | _ => mkoutcome st 0 0
    end.
Proof.
  unfold run. rewrite run_loop_step by (destruct base; discriminate).
  destruct (cases_of (base ++ u "/")) as [[|c cs]|] eqn:E.
  - rewrite beijing_no_cases by (right; exact E). reflexivity.
  - change (base ++ u "/") with (base ++ [47] ++ []) in *.
    rewrite (beijing_first_page cases_of base [] c cs (or_introl eq_refl) E).
    cbn [current_page cases next_page over_limit].
    replace (m <? 1)%Z with false by (symmetry; apply Z.ltb_ge; lia).
    rewrite andb_false_r. reflexivity.
  - rewrite beijing_no_cases by (left; exact E). reflexivity.
Qed.

Lemma beijing_run_bound (f : nat) (st : Reconcile.state D) :
  (processed_pages (run (beijing_parse_list_page cases_of) process_case f (Some m)
                      (base ++ u "/") st)
   <= Nat.max 2 (Z.to_nat m))%nat.
Proof.
  destruct f as [|f]; [cbn; lia|]. rewrite first_url_step.
  destruct (cases_of (base ++ u "/")) as [[|c cs]|]; try (cbn; lia).
  destruct (process_cases process_case (c :: cs) st 0) as [st' total'].
  pose proof (chain_bound f 1 st' total' 1%nat) as H. lia.
Qed.

Lemma beijing_run_stable (f : nat) (st : Reconcile.state D) :
  (Nat.max 2 (Z.to_nat m) <= f)%nat ->
  run (beijing_parse_list_page cases_of) process_case f (Some m) (base ++ u "/") st
  = run (beijing_parse_list_page cases_of) process_case (Nat.max 2 (Z.to_nat m)) (Some m)
      (base ++ u "/") st.
Proof.
  induction 1 as [|f Hle IH]; [reflexivity|]. rewrite <- IH.
  destruct f as [|f]; [lia|]. rewrite !first_url_step.
  destruct (cases_of (base ++ u "/")) as [[|c cs]|]; try reflexivity.
  destruct (process_cases process_case (c :: cs) st 0) as [st' total'].
  apply chain_stable. lia.
Qed.

Lemma beyond_limit_stops (f : nat) (k : N) st total processed :
  (m < Z.of_N k + 2)%Z ->
  let o := loop f (Some m) (Some (index_url base k)) st total processed in
  final o = st /\ total_new_cases o = total.
Proof.
  intros Hk. destruct f as [|f]; [split; reflexivity|].
  cbv zeta. rewrite run_loop_step by apply index_url_nonempty.
  destruct (beijing_index_page k) as [-> | [cs ->]]; [split; reflexivity|].
  cbn [current_page cases next_page over_limit].
  replace (m <? Z.of_N k + 2)%Z with true by (symmetry; apply Z.ltb_lt; lia).
  replace (m =? 0)%Z with false by (symmetry; apply Z.eqb_neq; lia).
  split; reflexivity.
Qed.

End BeijingRun.

(** X26.  [BeijingScraper.parse_list_page] returns nothing when the page
    cannot be fetched or lists no case.  Otherwise, for the directory URL
    or index.html it reports page 1 and index_1.html as the next page;
    for index_k.html it reports page k+2 and index_(k+1).html as the next
    page, under the same directory (for page numbers within the limit on
    the digits of an integer). *)
Theorem beijing_next_page_url :
  forall (cases_of : str -> res (list ListPage.case_item)) (base : str),
    (forall url, cases_of url = Raise \/ cases_of url = Ret [] ->
       ListPage.beijing_parse_list_page cases_of url = None)
    /\ (forall last c cs,
          last = [] \/ last = u "index.html" ->
          cases_of (base ++ [47] ++ last) = Ret (c :: cs) ->
          ListPage.beijing_parse_list_page cases_of (base ++ [47] ++ last)
            = Some (ListPage.mkpage (c :: cs) (Some (index_url base 1)) 1))
    /\ (forall k c cs,
          within_digit_limit (Z.of_N k + 1) ->
          cases_of (index_url base k) = Ret (c :: cs) ->
          ListPage.beijing_parse_list_page cases_of (index_url base k)
            = Some (ListPage.mkpage (c :: cs) (Some (index_url base (k + 1)))
                      (Z.of_N k + 2))).
Proof.
  intros cases_of base. repeat apply conj.
  - intros url. apply beijing_no_cases.
  - intros last c cs. apply beijing_first_page.
  - intros k c cs _. apply beijing_later_page.
Qed.

Lemma beijing_next_page_url_witness :
  ListPage.beijing_parse_list_page busy_site (index_url beijing_base 1)
  = Some (ListPage.mkpage
            [ListPage.mkitem some_case (u "https://scjgj.beijing.gov.cn/1.html")
               (u "2025-04-08")]
            (Some (index_url beijing_base 2)) 3).
Proof.
  apply (proj2 (proj2 (beijing_next_page_url busy_site beijing_base)) 1).
  - apply Z.ltb_lt. vm_compute. reflexivity.
  - reflexivity.
Defined.

(** X27.  The count of new cases that [run] of the Beijing and of the
    Shanghai scraper reports is the number of rows the run added to the
    table, however many list pages it went through and wherever it
    stopped; it counts at most one page per round of its loop. *)
Theorem run_counts_new_cases :
  forall (parse_list_page : str -> option ListPage.page_data) (c : Reconcile.ctx)
         (fuel : nat) (max_page : option Z) (base_url : str)
         (st : Reconcile.state Datetime.datetime),
    (let o := ListPage.run parse_list_page (Reconcile.beijing_process_case c)
                fuel max_page base_url st in
     length (Reconcile.db (ListPage.final o))
       = (length (Reconcile.db st) + ListPage.total_new_cases o)%nat
     /\ (ListPage.processed_pages o <= fuel)%nat)
    /\ (let o := ListPage.run parse_list_page (Reconcile.shanghai_process_case c)
                   fuel max_page base_url st in
        length (Reconcile.db (ListPage.final o))
          = (length (Reconcile.db st) + ListPage.total_new_cases o)%nat
        /\ (ListPage.processed_pages o <= fuel)%nat).
Proof.
  intros parse_list_page c fuel max_page base_url st. split; cbv zeta; unfold ListPage.run.
  - pose proof (run_loop_count parse_list_page (Reconcile.beijing_process_case c)
                  (beijing_length c) fuel max_page (Some base_url) st 0%nat 0%nat) as H.
    cbv zeta in H. lia.
  - pose proof (run_loop_count parse_list_page (Reconcile.shanghai_process_case c)
                  (shanghai_length c) fuel max_page (Some base_url) st 0%nat 0%nat) as H.
    cbv zeta in H. lia.
Qed.

(** X28.  With a page limit of at least 1 (and within the limit on the
    digits of an integer), [BeijingScraper.run] started at the directory
    URL ends by itself: it requests at most max(2, max_page) list pages,
    whatever the site serves, and more rounds than that change nothing.
    A page index_k.html counts as page k+2 for the limit: when k+2
    exceeds the limit the run stops there without processing its
    cases. *)
Theorem beijing_run_ends_at_page_limit :
  forall (D : Type) (cases_of : str -> res (list ListPage.case_item))
         (process_case : Reconcile.state D -> str -> str -> Reconcile.state D * bool)
         (base : str) (m : Z),
    (1 <= m)%Z -> within_digit_limit m ->
    forall (fuel : nat) (st : Reconcile.state D),
      (ListPage.processed_pages
         (ListPage.run (ListPage.beijing_parse_list_page cases_of) process_case fuel
            (Some m) (base ++ u "/") st)
       <= Nat.max 2 (Z.to_nat m))%nat
      /\ ((Nat.max 2 (Z.to_nat m) <= fuel)%nat ->
          ListPage.run (ListPage.beijing_parse_list_page cases_of) process_case fuel
            (Some m) (base ++ u "/") st
          = ListPage.run (ListPage.beijing_parse_list_page cases_of) process_case
              (Nat.max 2 (Z.to_nat m)) (Some m) (base ++ u "/") st)
      /\ (forall (k : N) (total processed : nat),
            (m < Z.of_N k + 2)%Z -> within_digit_limit (Z.of_N k + 1) ->
            let o := ListPage.run_loop (ListPage.beijing_parse_list_page cases_of)
                       process_case fuel (Some m) (Some (index_url base k))
                       st total processed in
            ListPage.final o = st /\ ListPage.total_new_cases o = total).
Proof.
  intros D cases_of process_case base m Hm _ fuel st. repeat apply conj.
  - apply beijing_run_bound. exact Hm.
  - apply beijing_run_stable. exact Hm.
  - intros k total processed Hk _. apply beyond_limit_stops; assumption.
Qed.

Lemma beijing_run_ends_at_page_limit_witness :
  (ListPage.processed_pages
     (ListPage.run (ListPage.beijing_parse_list_page busy_site)
        (Reconcile.beijing_process_case other_dates_ctx) 9 (Some 2%Z)
        (beijing_base ++ u "/") empty_state)
   <= 2)%nat.
Proof.
  exact (proj1 (beijing_run_ends_at_page_limit Datetime.datetime busy_site
                  (Reconcile.beijing_process_case other_dates_ctx) beijing_base 2%Z
                  ltac:(lia) ltac:(apply Z.ltb_lt; vm_compute; reflexivity)
                  9%nat empty_state)).
Defined.

(** ** The main page run *)

Section MainFacts.
Import MainPage.
Context {D : Type}.
Variable page : Type.
Variable first_title : page -> res (option str).
Variable next_button : page -> res bool.
Variable click_next : page -> page * bool.
Variable wait_content : page -> res unit.
Variable goto : str -> page -> page * bool.
Variable case_links : page -> res (list (str * str)).
Variable c : @CaseScraper.ctx D.

Local Abbreviation cases_step := (@handle_cases D page c).
Local Abbreviation pages :=
  (@pages_loop D page first_title next_button click_next wait_content goto case_links c).

Lemma casescraper_length (s : Reconcile.state D) (title url : str) :
  let r := CaseScraper.process_case c s title url in
  (length (Reconcile.db s) <= length (Reconcile.db (fst r))
   <= length (Reconcile.db s) + (match snd r with Some _ => 1 | None => 0 end))%nat.
Proof.
  cbv zeta. unfold CaseScraper.process_case.
  destruct (CaseScraper.page_fetched c url); cbn [negb]; [|cbn; lia].
  destruct (CaseScraperResolver.get_page_type url) as [t|]; [|cbn; lia].
  destruct (CaseScraper.detail_of c url) as [det|]; [|cbn; lia].
  destruct (match Store.first_by_name _ (Reconcile.db s) with Some r => _ | None => _ end)
    as [w path].
  match goal with
  | |- context [CaseScraperStore.save_to_db ?a ?b ?d ?x] =>
      pose proof (save_length a b d x) as Hlen;
      destruct (CaseScraperStore.save_to_db a b d x) as [db' [|]] eqn:Hsave
  end; cbn [fst snd Reconcile.db] in *; lia.
Qed.

Lemma handle_cases_facts (cs : list (str * str)) (p : MainPage.progress page) :
  let q := cases_step cs p in
  total_processed _ q = (total_processed _ p + length cs)%nat
  /\ (total_success _ p <= total_success _ q <= total_success _ p + length cs)%nat
  /\ (length (Reconcile.db (st _ p)) <= length (Reconcile.db (st _ q))
      <= length (Reconcile.db (st _ p)) + (total_success _ q - total_success _ p))%nat
  /\ sc _ q = sc _ p.
Proof.
  revert p. induction cs as [|[t v] cs IH]; intros p; cbn [handle_cases length].
  - cbv zeta. repeat apply conj; try reflexivity; lia.
  - pose proof (casescraper_length (st _ p) t v) as Hl. cbv zeta in Hl.
    destruct (CaseScraper.process_case c (st _ p) t v) as [st' r]. cbn [fst snd] in Hl.
    destruct r as [cd|];
      (match goal with |- context [cases_step cs ?x] => specialize (IH x) end;
       cbv zeta in IH; cbn [total_processed total_success st sc] in IH;
       destruct IH as (H1 & H2 & H3 & H4); cbv zeta;
       repeat apply conj; [lia | lia | lia | lia | lia | exact H4]).
Qed.

Lemma pages_facts (targets : list nat) (p : MainPage.progress page) :
  let q := pages targets p in
  (total_processed _ p <= total_processed _ q)%nat
  /\ (total_success _ p <= total_success _ q)%nat
  /\ (total_success _ q - total_success _ p
      <= total_processed _ q - total_processed _ p)%nat
  /\ (length (Reconcile.db (st _ p)) <= length (Reconcile.db (st _ q))
      <= length (Reconcile.db (st _ p)) + (total_success _ q - total_success _ p))%nat
  /\ (total_processed _ q = total_processed _ p -> st _ q = st _ p)
  /\ ((forall n s, snd (Pagination.parse_list_page_playwright page first_title
                          next_button click_next wait_content goto case_links
                          base_url n s) = None) ->
      total_processed _ q = total_processed _ p).
Proof.
  revert p. induction targets as [|n targets IH]; intros p; cbn [pages_loop].
  - cbv zeta. repeat apply conj; try reflexivity; try lia; intros; reflexivity.
  - destruct (Pagination.parse_list_page_playwright page first_title next_button
                click_next wait_content goto case_links base_url n (sc _ p))
      as [sc' cases] eqn:E.
    destruct cases as [[|x cs]|].
    + specialize (IH (mkprogress _ sc' (st _ p) (total_processed _ p) (total_success _ p))).
      exact IH.
    + pose proof (handle_cases_facts (x :: cs)
                    (mkprogress _ sc' (st _ p) (total_processed _ p) (total_success _ p)))
        as Hh.
      cbv zeta in Hh. cbn [total_processed total_success st sc length] in Hh.
      destruct Hh as (H1 & H2 & H3 & H4).
      match goal with |- context [pages targets ?x] => specialize (IH x) end.
      cbv zeta in IH. destruct IH as (I1 & I2 & I3 & I4 & I5 & I6). cbv zeta.
      repeat apply conj; try lia.
      intros Hall. specialize (Hall n (sc _ p)). rewrite E in Hall. discriminate Hall.
    + specialize (IH (mkprogress _ sc' (st _ p) (total_processed _ p) (total_success _ p))).
      exact IH.
Qed.

End MainFacts.

(** X29.  [main] of mainpage_scraper.py.  The cases counted as successful
    are among those processed, and the table grows by at most one row per
    successful case and never shrinks.  The export is reached exactly
    when at least one case was processed: when no page yields a case,
    as when every list page request fails, the summary divides by zero,
    nothing is exported and the table is as it was. *)
Theorem main_counts_and_export :
  forall (D : Type) (page : Type)
         (first_title : page -> res (option str)) (next_button : page -> res bool)
         (click_next : page -> page * bool) (wait_content : page -> res unit)
         (goto : str -> page -> page * bool)
         (case_links : page -> res (list (str * str)))
         (c : @CaseScraper.ctx D)
         (sc0 : Pagination.scraper page) (st0 : Reconcile.state D),
    let r := MainPage.main page first_title next_button click_next wait_content goto
               case_links c sc0 st0 in
    (MainPage.total_success page (fst r) <= MainPage.total_processed page (fst r))%nat
    /\ (length (Reconcile.db st0)
        <= length (Reconcile.db (MainPage.st page (fst r)))
        <= length (Reconcile.db st0) + MainPage.total_success page (fst r))%nat
    /\ (snd r = true <-> MainPage.total_processed page (fst r) <> 0%nat)
    /\ (snd r = false -> MainPage.st page (fst r) = st0)
    /\ ((forall n s, snd (Pagination.parse_list_page_playwright page first_title
                            next_button click_next wait_content goto case_links
                            MainPage.base_url n s) = None) ->
        snd r = false).
Proof.
  intros D page first_title next_button click_next wait_content goto case_links c sc0 st0.
  unfold MainPage.main. cbv zeta. cbn [fst snd].
  pose proof (pages_facts page first_title next_button click_next wait_content goto
                case_links c
                (List.seq MainPage.start_page (MainPage.end_page + 1 - MainPage.start_page))
                (MainPage.mkprogress page sc0 st0 0 0)) as H.
  cbv zeta in H. cbn [MainPage.total_processed MainPage.total_success MainPage.st] in H.
  destruct H as (H1 & H2 & H3 & H4 & H5 & H6).
  match goal with |- context [MainPage.total_processed page ?x] => set (q := x) in * end.
  repeat apply conj.
  - lia.
  - lia.
  - lia.
  - rewrite negb_true_iff. apply Nat.eqb_neq.
  - intros E. apply negb_true_iff, Nat.eqb_neq. exact E.
  - intros E. apply negb_false_iff, Nat.eqb_eq in E. apply H5. exact E.
  - intros Hall. apply negb_false_iff, Nat.eqb_eq. apply H6. exact Hall.
Qed.


(** X30.  [ShanghaiScraper.parse_list_page], for a page that lists cases.
    For index_k.html it reports page k and, as the next page,
    index_(k+1).html under the scraper's base URL, whatever directory the
    current URL is in (for page numbers within the limit on the digits of
    an integer).  For a URL that is not the first page and whose
    last part holds no underscore it returns nothing, dropping the cases
    found, where [BeijingScraper.parse_list_page] returns them as page 1
    with no next page. *)
Theorem shanghai_next_page_url :
  forall (base_url : str) (urljoin : str -> str -> res str)
         (cases_of : str -> res (list ListPage.case_item))
         (dir : str) (c : ListPage.case_item) (cs : list ListPage.case_item),
    (forall k,
       within_digit_limit (Z.of_N k + 1) ->
       cases_of (index_url dir k) = Ret (c :: cs) ->
       ShanghaiList.shanghai_parse_list_page base_url urljoin cases_of (index_url dir k)
         = Some (ListPage.mkpage (c :: cs)
                   (Some (base_url ++ u "index_" ++ PyInt.str_ (Z.of_N (k + 1))
                            ++ u ".html"))
                   (Z.of_N k)))
    /\ (forall last,
          ~ In 47 last -> ~ In 95 last ->
          endswith (u "/1571/") (dir ++ [47] ++ last) = false ->
          endswith (u "/1571") (dir ++ [47] ++ last) = false ->
          cases_of (dir ++ [47] ++ last) = Ret (c :: cs) ->
          ShanghaiList.shanghai_parse_list_page base_url urljoin cases_of
            (dir ++ [47] ++ last) = None
          /\ (last <> [] -> last <> u "index.html" ->
              ListPage.beijing_parse_list_page cases_of (dir ++ [47] ++ last)
                = Some (ListPage.mkpage (c :: cs) None 1))).
Proof.
  intros base_url urljoin cases_of dir c cs. split.
  - intros k _ Hc. unfold ShanghaiList.shanghai_parse_list_page. rewrite Hc.
    unfold index_url. rewrite !str_of_N.
    assert (E1 : endswith (u "/1571/") (dir ++ u "/index_" ++ PyInt.dec k ++ u ".html") = false).
    { unfold endswith. rewrite !app_assoc, rev_app_distr. reflexivity. }
    assert (E2 : endswith (u "/1571") (dir ++ u "/index_" ++ PyInt.dec k ++ u ".html") = false).
    { unfold endswith. rewrite !app_assoc, rev_app_distr. reflexivity. }
    rewrite E1, E2. cbn [orb].
    change (dir ++ u "/index_" ++ PyInt.dec k ++ u ".html")
      with (dir ++ [47] ++ (u "index_" ++ PyInt.dec k ++ u ".html")).
    destruct (url_parts dir _ (index_name_lacks_slash k)) as [H1 _]. rewrite H1.
    destruct (index_name_number k) as (rest & S1 & S2). rewrite S1, S2. cbn [hd].
    rewrite int_dec.
    replace (Z.of_N k + 1)%Z with (Z.of_N (k + 1)) by lia.
    rewrite str_of_N. reflexivity.
  - intros last H47 H95 E1 E2 Hc. split.
    + unfold ShanghaiList.shanghai_parse_list_page. rewrite Hc, E1, E2. cbn [orb].
      destruct (url_parts dir last H47) as [H1 _]. rewrite H1.
      unfold split. rewrite (split_acc_none 95 [] last H95). reflexivity.
    + intros Hn Hi. unfold ListPage.beijing_parse_list_page. rewrite Hc.
      destruct (url_parts dir last H47) as [H1 _]. rewrite H1.
      unfold str_eqb. rewrite !bool_decide_eq_false_2 by assumption. cbn [orb].
      unfold split. rewrite (split_acc_none 95 [] last H95). reflexivity.
Qed.
